(** * OpenCtx client: provider client, connection pool and client facade

    A shallow embedding of the TypeScript sources

      - lib/client/src/providerClient/createProviderClient.ts
      - lib/client/src/client/client.ts (two listings: the first one offers
        [items]/[itemsChanges], the second one adds [annotations],
        [annotationsChanges] and [providerBaseUri])
      - the selector documentation of web/content/docs/protocol.mdx

    Promises are computations over an explicit effect state that either
    resolve or reject; observables are driven by explicit notifications;
    JavaScript objects that are shared by reference live in a heap. *)

From Stdlib Require Import ZArith Ascii String.
From stdpp Require Import gmap strings list fin_maps.

Local Open Scope string_scope.
Local Open Scope list_scope.
Local Open Scope Z_scope.

(* ===================================================================== *)
(** ** JSON text *)
(* ===================================================================== *)

Module JSON.

(** The double quote character (code unit 34). *)
Definition dq : ascii := ascii_of_nat 34.
(** The reverse solidus (code unit 92). *)
Definition bs : ascii := ascii_of_nat 92.

Definition str1 (c : ascii) : string := String c EmptyString.
Definition esc (c : ascii) : string := String bs (str1 c).

Definition hexDigit (n : nat) : ascii :=
  if (n <? 10)%nat then ascii_of_nat (48 + n) else ascii_of_nat (87 + n).

(** One code unit of [QuoteJSONString]: the quote and the reverse solidus
    are escaped, control characters get their short or [\u00xx] form. *)
Definition escapeChar (c : ascii) : string :=
  let n := nat_of_ascii c in
  if (n =? 34)%nat then esc dq
  else if (n =? 92)%nat then esc bs
  else if (n =? 8)%nat then esc "b"
  else if (n =? 12)%nat then esc "f"
  else if (n =? 10)%nat then esc "n"
  else if (n =? 13)%nat then esc "r"
  else if (n =? 9)%nat then esc "t"
  else if (n <? 32)%nat then
    String bs (String "u" (String "0" (String "0"
      (String (hexDigit (n / 16)) (str1 (hexDigit (n mod 16)))))))
  else str1 c.

Fixpoint escape (s : string) : string :=
  match s with
  | EmptyString => EmptyString
  | String c s' => escapeChar c +:+ escape s'
  end.

(** [JSON.stringify] of a string value. *)
Definition quote (s : string) : string :=
  str1 dq +:+ escape s +:+ str1 dq.

(** Members of an object or elements of an array, comma separated. *)
Fixpoint commaSep (parts : list string) : string :=
  match parts with
  | [] => EmptyString
  | [p] => p
  | p :: rest => p +:+ "," +:+ commaSep rest
  end.

Definition member (name value : string) : string :=
  quote name +:+ ":" +:+ value.

Definition object (members : list string) : string :=
  "{" +:+ commaSep members +:+ "}".

Definition array (elements : list string) : string :=
  "[" +:+ commaSep elements +:+ "]".

(** Members whose value is [undefined] are left out by [JSON.stringify]. *)
Definition optMember (name : string) (value : option string) : list string :=
  match value with
  | Some v => [member name v]
  | None => []
  end.

End JSON.

(* ===================================================================== *)
(** ** Protocol types (protocol.mdx) *)
(* ===================================================================== *)

(** [interface Selector { path?: string; contentContains?: string }] *)
Record Selector := {
  path : option string;
  contentContains : option string;
}.

(** [interface CapabilitiesResult { selector?: Selector[] }] *)
Record CapabilitiesResult := {
  selector : option (list Selector);
}.

(** The resource descriptor carried by [ItemsParams] and
    [AnnotationsParams]: [uri] and, when present, [content]. *)
Record ResourceParams := {
  uri : string;
  content : option string;
}.

Definition ItemsParams := ResourceParams.
Definition AnnotationsParams := ResourceParams.

(** [interface Item { title; url?; ui?: { hover?: { markdown?, text? } };
    ai?: { content? } }] *)
Record Hover := {
  markdown : option string;
  text : option string;
}.

Record UserInterface := {
  hover : option Hover;
}.

Record AssistantInfo := {
  ai_content : option string;
}.

Record Item := {
  title : string;
  url : option string;
  ui : option UserInterface;
  ai : option AssistantInfo;
}.

Record Position := {
  line : Z;
  character : Z;
}.

Record Range := {
  range_start : Position;
  range_end : Position;
}.

(** [interface Annotation { uri; range?; item }] *)
Record Annotation := {
  ann_uri : string;
  range : option Range;
  item : Item;
}.

Definition ItemsResult := list Item.
Definition AnnotationsResult := list Annotation.

(** Opaque provider settings: a JSON object handed through to every call,
    carried as the list of its members (name and JSON text). *)
Definition ProviderSettings := list (string * string).

(** Values that a promise rejects with or an observable errors with. *)
Inductive Error :=
| EmptyError
    (* rxjs: the sequence completed without a value *)
| ProviderError (code : Z) (message : string)
    (* the provider answered [{ error: { code, message } }] *)
| ThrownError (message : string).
    (* [new Error(message)] *)

(** Template-literal interpolation of an error value. *)
Definition errorToString (e : Error) : string :=
  match e with
  | EmptyError => "EmptyError: no elements in sequence"
  | ProviderError _ m => "Error: " +:+ m
  | ThrownError m => "Error: " +:+ m
  end.

Definition stringifySelector (s : Selector) : string :=
  JSON.object
    (JSON.optMember "path" (JSON.quote <$> path s) ++
     JSON.optMember "contentContains" (JSON.quote <$> contentContains s)).

(** [JSON.stringify(capabilities)] *)
Definition stringifyCapabilities (c : CapabilitiesResult) : string :=
  JSON.object
    (JSON.optMember "selector"
       ((fun l => JSON.array (stringifySelector <$> l)) <$> selector c)).

(* ===================================================================== *)
(** ** Selector matcher *)
(* ===================================================================== *)

Module SelectorMatcher.
Section Matcher.

(** The glob primitive: [glob pattern uri] tells whether the pattern
    matches the resource's URI. *)
Variable glob : string -> string -> bool.

(** [haystack.includes(needle)] *)
Fixpoint includes (needle haystack : string) : bool :=
  match haystack with
  | EmptyString => String.prefix needle EmptyString
  | String _ rest => String.prefix needle haystack || includes needle rest
  end.

(** Modelled from the spec: [matchSelector] of providerClient/selector.ts,
    which is not among the sources. Every condition that is present must
    hold: [path] is tested against the URI as a glob, [contentContains] as
    a literal substring of the content, and fails when there is no
    content. *)
Definition matchSelector (s : Selector) (params : ResourceParams) : bool :=
  match path s with
  | Some p => glob p (uri params)
  | None => true
  end
  &&
  match contentContains s with
  | Some needle =>
      match content params with
      | Some c => includes needle c
      | None => false
      end
  | None => true
  end.

(** Modelled from the spec: [matchSelectors] of providerClient/selector.ts,
    which is not among the sources. [undefined] accepts every resource,
    the empty array none, and a non-empty array the resources that satisfy
    all of its selectors. *)
Definition matchSelectors (selectors : option (list Selector))
    (params : ResourceParams) : bool :=
  match selectors with
  | None => true
  | Some [] => false
  | Some sels => forallb (fun s => matchSelector s params) sels
  end.

(** What the documentation calls a literal string being present in the
    content. *)
Definition occursIn (needle haystack : string) : Prop :=
  exists before after, haystack = before +:+ needle +:+ after.

(** A selector is satisfied when each of its conditions is met. *)
Definition satisfies (params : ResourceParams) (s : Selector) : Prop :=
  (forall p, path s = Some p -> glob p (uri params) = true) /\
  (forall needle, contentContains s = Some needle ->
     exists c, content params = Some c /\ occursIn needle c).

End Matcher.
End SelectorMatcher.

(* ===================================================================== *)
(** ** Promises over an explicit effect state *)
(* ===================================================================== *)

Inductive Method := capabilitiesMethod | itemsMethod | annotationsMethod.

(** How a promise settles. *)
Inductive Outcome (A : Type) :=
| Resolved (a : A)
| Rejected (e : Error).
Arguments Resolved {A} a.
Arguments Rejected {A} e.

(** What a call can touch: the world behind the transports (providers,
    network, transport caches), the logging side, and the record of the
    transport methods that were invoked, oldest first. *)
Record Effects (World LogSt : Type) := {
  world : World;
  logs : LogSt;
  calls : list (string * Method);
}.
Arguments world {World LogSt} _.
Arguments logs {World LogSt} _.
Arguments calls {World LogSt} _.

(** A logger consumes a message and returns; all it can touch is the
    logging side. (The logger that a provider client is given is the
    client facade's, which hands the message to a promise.) *)
Definition Logger (LogSt : Type) := string -> LogSt -> LogSt.

(** Modelled from the spec: [scopedLogger] of ../logger, which is not among
    the sources. Logging is optional: without a logger there is none, with
    one every message reaches it under the scope's prefix. *)
Definition scopedLogger {LogSt} (logger : option (Logger LogSt)) (scope : string)
    : option (Logger LogSt) :=
  (fun l : Logger LogSt => fun message => l (scope +:+ ": " +:+ message)) <$> logger.

Module Promise.
Section Promise.
Context {World LogSt : Type}.

Definition t (A : Type) := Effects World LogSt -> Outcome A * Effects World LogSt.

Definition ret {A} (a : A) : t A := fun fx => (Resolved a, fx).

Definition reject {A} (e : Error) : t A := fun fx => (Rejected e, fx).

(** [await m] followed by the rest of the function body. *)
Definition bind {A B} (m : t A) (k : A -> t B) : t B :=
  fun fx =>
    match m fx with
    | (Resolved a, fx') => k a fx'
    | (Rejected e, fx') => (Rejected e, fx')
    end.

(** [try { body } catch (error) { handler }] *)
Definition tryCatch {A} (body : t A) (handler : Error -> t A) : t A :=
  fun fx =>
    match body fx with
    | (Resolved a, fx') => (Resolved a, fx')
    | (Rejected e, fx') => handler e fx'
    end.

(** [logger?.(message)]: nothing happens without a logger. *)
Definition log (logger : option (Logger LogSt)) (message : string) : t unit :=
  fun fx =>
    (Resolved tt,
     match logger with
     | Some l => {| world := world fx; logs := l message (logs fx); calls := calls fx |}
     | None => fx
     end).

(** Invoking a method of the transport of [provider]: the invocation is
    recorded, then the transport acts on the world. *)
Definition invoke {A} (provider : string) (m : Method)
    (method : World -> Outcome A * World) : t A :=
  fun fx =>
    let '(r, w) := method (world fx) in
    (r, {| world := w; logs := logs fx; calls := calls fx ++ [(provider, m)] |}).

(** Two runs settle alike and leave the same world and the same
    transport invocations behind; only the logging side may differ. *)
Definition sameButLogs {A} (r1 r2 : Outcome A * Effects World LogSt) : Prop :=
  r1.1 = r2.1 /\ world r1.2 = world r2.2 /\ calls r1.2 = calls r2.2.

End Promise.
End Promise.

Declare Scope promise_scope.
Delimit Scope promise_scope with promise.
Notation "'await' x <- m ;; k" := (Promise.bind m (fun x => k))
  (at level 10, x name, m at level 99, k at level 200,
   format "'[v' 'await'  x  <-  m  ;; '/' k ']'") : promise_scope.
Notation "'exec' m ;; k" := (Promise.bind m (fun _ => k))
  (at level 10, m at level 99, k at level 200,
   format "'[v' 'exec'  m  ;; '/' k ']'") : promise_scope.

(* ===================================================================== *)
(** ** Provider transport (boundary) *)
(* ===================================================================== *)

(** [interface AuthInfo { headers?: { [name: string]: string } }]; the
    headers are the object's properties in enumeration order. *)
Record AuthInfo := {
  headers : option (list (string * string));
}.

Module Transport.
Section Transport.
Context {World LogSt Hook : Type}.

(** [ProviderTransportOptions] *)
Record Options := {
  providerBaseUri : option string;
  authInfo : option AuthInfo;
  logger : option (Logger LogSt);
  dynamicImportFromUri : option Hook;
  dynamicImportFromSource : option Hook;
  cache : bool;
}.

(** [ProviderTransport]: three methods, each from parameters and settings
    to a result or a failure. *)
Record ProviderTransport := {
  capabilities : unit -> ProviderSettings -> World -> Outcome CapabilitiesResult * World;
  items : ItemsParams -> ProviderSettings -> World -> Outcome (option ItemsResult) * World;
  annotations :
    AnnotationsParams -> ProviderSettings -> World -> Outcome (option AnnotationsResult) * World;
}.

Definition setLogger (o : Options) (l : option (Logger LogSt)) : Options :=
  {| providerBaseUri := providerBaseUri o;
     authInfo := authInfo o;
     logger := l;
     dynamicImportFromUri := dynamicImportFromUri o;
     dynamicImportFromSource := dynamicImportFromSource o;
     cache := cache o |}.

(** Two transports answer every call alike. *)
Definition agree (t1 t2 : ProviderTransport) : Prop :=
  (forall u s w, capabilities t1 u s w = capabilities t2 u s w) /\
  (forall p s w, items t1 p s w = items t2 p s w) /\
  (forall p s w, annotations t1 p s w = annotations t2 p s w).

(** The logger that a transport is constructed with has no part in what
    its methods answer. *)
Definition ignoresLogger (createTransport : string -> Options -> ProviderTransport) : Prop :=
  forall providerUri o l,
    agree (createTransport providerUri o) (createTransport providerUri (setLogger o l)).

End Transport.
Arguments Options : clear implicits.
Arguments ProviderTransport : clear implicits.
End Transport.

(* ===================================================================== *)
(** ** Provider client (createProviderClient.ts) *)
(* ===================================================================== *)

Module ProviderClient.
Section ProviderClient.
Context {World LogSt Hook : Type}.
Variable glob : string -> string -> bool.
Variable createTransport :
  string -> Transport.Options LogSt Hook -> Transport.ProviderTransport World.

Local Open Scope promise_scope.

(** [interface ProviderClient] *)
Record ProviderClient := {
  items : ItemsParams -> ProviderSettings -> Promise.t (World:=World) (LogSt:=LogSt) (option ItemsResult);
  annotations :
    AnnotationsParams -> ProviderSettings -> Promise.t (World:=World) (LogSt:=LogSt) (option AnnotationsResult);
}.

(** [ProviderClientOptions] *)
Record ProviderClientOptions := {
  providerBaseUri : option string;
  authInfo : option AuthInfo;
  logger : option (Logger LogSt);
  dynamicImportFromUri : option Hook;
  dynamicImportFromSource : option Hook;
}.

(** [scopedLogger(logger, `providerClient(${providerUri})`)] *)
Definition scoped (providerUri : string) (options : ProviderClientOptions)
    : option (Logger LogSt) :=
  scopedLogger (logger options) ("providerClient(" +:+ providerUri +:+ ")").

(** [createTransport(providerUri, { ...options, cache: true, logger })] *)
Definition transport (providerUri : string) (options : ProviderClientOptions)
    : Transport.ProviderTransport World :=
  createTransport providerUri
    {| Transport.providerBaseUri := providerBaseUri options;
       Transport.authInfo := authInfo options;
       Transport.dynamicImportFromUri := dynamicImportFromUri options;
       Transport.dynamicImportFromSource := dynamicImportFromSource options;
       Transport.cache := true;
       Transport.logger := scoped providerUri options |}.

Definition createProviderClient (providerUri : string)
    (options : ProviderClientOptions) : ProviderClient :=
  let logger := scoped providerUri options in
  let transport := transport providerUri options in
  {| items := fun params settings =>
       Promise.tryCatch
         (Promise.invoke providerUri itemsMethod (Transport.items transport params settings))
         (fun error =>
            exec Promise.log logger ("failed to get items: " +:+ errorToString error) ;;
            Promise.reject error);
     annotations := fun params settings =>
       await match_ <-
         Promise.tryCatch
           (exec Promise.log logger "checking provider capabilities" ;;
            await capabilities <-
              Promise.invoke providerUri capabilitiesMethod
                (Transport.capabilities transport tt settings) ;;
            exec Promise.log logger
              ("received capabilities = " +:+ stringifyCapabilities capabilities) ;;
            Promise.ret (SelectorMatcher.matchSelectors glob (selector capabilities)))
           (fun error =>
              exec Promise.log logger
                ("failed to get provider capabilities: " +:+ errorToString error) ;;
              Promise.reject error) ;;
       let capable := match_ params in
       if negb capable then
         exec Promise.log logger
           ("skipping items for " +:+ JSON.quote (uri params) +:+
            " because it did not match the provider's selector") ;;
         Promise.ret None
       else
         Promise.tryCatch
           (Promise.invoke providerUri annotationsMethod
              (Transport.annotations transport params settings))
           (fun error =>
              exec Promise.log logger
                ("failed to get annotations: " +:+ errorToString error) ;;
              Promise.reject error)
  |}.

Definition setLogger (o : ProviderClientOptions) (l : option (Logger LogSt))
    : ProviderClientOptions :=
  {| providerBaseUri := providerBaseUri o;
     authInfo := authInfo o;
     logger := l;
     dynamicImportFromUri := dynamicImportFromUri o;
     dynamicImportFromSource := dynamicImportFromSource o |}.

End ProviderClient.
Arguments ProviderClient : clear implicits.
Arguments ProviderClientOptions : clear implicits.
End ProviderClient.

(* ===================================================================== *)
(** ** The lru-cache library, as the pool configures it *)
(* ===================================================================== *)

(** [new LRUCache({ ttl, ttlResolution, ttlAutopurge: true })]: no size
    bound, no refresh of an entry's age on [get], stale entries are never
    returned. Times are readings of the cache's clock in milliseconds
    (which [ttlResolution] lets lag behind the wall clock). *)
Module LRUCache.
Section LRUCache.
Context {V : Type}.

Record Entry := {
  value : V;
  start : Z;
}.

Record t := {
  ttl : Z;
  entries : gmap string Entry;
}.

Definition create (ttl : Z) : t := {| ttl := ttl; entries := ∅ |}.

(** An entry is stale once its age exceeds the time to live. *)
Definition isStale (ttl now : Z) (e : Entry) : bool := ttl <? now - start e.

(** [cache.get(key)]: a stale entry is dropped and reads as [undefined]. *)
Definition get (key : string) (now : Z) (c : t) : option V * t :=
  match entries c !! key with
  | Some e =>
      if isStale (ttl c) now e
      then (None, {| ttl := ttl c; entries := delete key (entries c) |})
      else (Some (value e), c)
  | None => (None, c)
  end.

(** [cache.set(key, value)]: the entry's age starts anew. *)
Definition set (key : string) (v : V) (now : Z) (c : t) : t :=
  {| ttl := ttl c; entries := <[key := {| value := v; start := now |}]> (entries c) |}.

(** What the autopurge timers have removed by the time the clock reads
    [now]. *)
Definition purgeStale (now : Z) (c : t) : t :=
  {| ttl := ttl c;
     entries := filter (fun kv => isStale (ttl c) now kv.2 = false) (entries c) |}.

End LRUCache.
Arguments Entry : clear implicits.
Arguments t : clear implicits.
End LRUCache.

(* ===================================================================== *)
(** ** Provider connection pool (client.ts, createProviderPool) *)
(* ===================================================================== *)

Module Pool.
Section Pool.
Context {World LogSt Hook : Type}.
Variable glob : string -> string -> bool.
Variable createTransport :
  string -> Transport.Options LogSt Hook -> Transport.ProviderTransport World.

(** [interface ProviderCacheKey] *)
Record ProviderCacheKey := {
  providerUri : string;
  authInfo : option AuthInfo;
}.

Definition stringifyHeaders (hs : list (string * string)) : string :=
  JSON.object ((fun kv => JSON.member kv.1 (JSON.quote kv.2)) <$> hs).

Definition stringifyAuthInfo (a : AuthInfo) : string :=
  JSON.object (JSON.optMember "headers" (stringifyHeaders <$> headers a)).

(** [JSON.stringify(key)] *)
Definition cacheKey (key : ProviderCacheKey) : string :=
  JSON.object
    ([JSON.member "providerUri" (JSON.quote (providerUri key))] ++
     JSON.optMember "authInfo" (stringifyAuthInfo <$> authInfo key)).

(** The part of [ClientEnv] that [getOrCreate] is given. The first
    listing has no [providerBaseUri]. *)
Record Env := {
  providerBaseUri : option string;
  logger : option (Logger LogSt);
  dynamicImportFromUri : option Hook;
  dynamicImportFromSource : option Hook;
}.

(** A constructed client object: [ref] is the object's identity, so that
    two values are the same instance exactly when their [ref]s agree. *)
Record Instance := {
  ref : nat;
  client : ProviderClient.ProviderClient World LogSt;
}.

(** The pool: its cache and the number of clients it has constructed
    (the next object identity). *)
Record t := {
  cache : LRUCache.t Instance;
  constructed : nat;
}.

Definition createProviderPool : t :=
  {| cache := LRUCache.create (1000 * 60 * 5); constructed := 0 |}.

(** [createProviderClient(key.providerUri, { ... })] as the next object.
    [createTransport], which is not among the sources, is a parameter that
    returns a transport for every provider: a provider for which the
    construction of the client throws is not covered. *)
Definition construct (key : ProviderCacheKey) (env : Env) (pool : t) : Instance :=
  {| ref := constructed pool;
     client :=
       ProviderClient.createProviderClient glob createTransport (providerUri key)
         {| ProviderClient.providerBaseUri := providerBaseUri env;
            ProviderClient.authInfo := authInfo key;
            ProviderClient.logger := logger env;
            ProviderClient.dynamicImportFromUri := dynamicImportFromUri env;
            ProviderClient.dynamicImportFromSource := dynamicImportFromSource env |} |}.

Definition getOrCreate (key : ProviderCacheKey) (env : Env) (now : Z) (pool : t)
    : Instance * t :=
  match LRUCache.get (cacheKey key) now (cache pool) with
  | (Some existing, cache') =>
      (existing, {| cache := cache'; constructed := constructed pool |})
  | (None, cache') =>
      let c := construct key env pool in
      (c, {| cache := LRUCache.set (cacheKey key) c now cache';
             constructed := S (constructed pool) |})
  end.

Definition entriesOf (pool : t) : gmap string (LRUCache.Entry Instance) :=
  LRUCache.entries (cache pool).

Definition ttlOf (pool : t) : Z := LRUCache.ttl (cache pool).

(** A request to the pool at a reading of the clock. *)
Record Request := {
  req_key : ProviderCacheKey;
  req_env : Env;
  req_now : Z;
}.

(** The pool after a sequence of requests. *)
Definition serve (requests : list Request) (pool : t) : t :=
  foldl (fun p r => (getOrCreate (req_key r) (req_env r) (req_now r) p).2) pool requests.

(** The clock readings of the requests never go back and stay within
    [from] and [to]. *)
Fixpoint chronological (from : Z) (requests : list Request) (to : Z) : Prop :=
  match requests with
  | [] => from <= to
  | r :: rest => from <= req_now r /\ chronological (req_now r) rest to
  end.

(** Since the pool had constructed [n] clients, the key [ck] holds either
    the entry [e0] or a client constructed later. *)
Definition laterOr (ck : string) (e0 : LRUCache.Entry Instance) (n : nat) (pool : t)
    : Prop :=
  (n <= constructed pool)%nat /\
  forall e, entriesOf pool !! ck = Some e -> e = e0 \/ (n <= ref (LRUCache.value e))%nat.

(** Structural equality of two header objects: the same names with the
    same values, whatever the order of the properties. *)
Definition sameHeaders (h1 h2 : list (string * string)) : Prop :=
  forall name, (list_to_map h1 : gmap string string) !! name
               = (list_to_map h2 : gmap string string) !! name.

Definition sameAuthInfo (a1 a2 : option AuthInfo) : Prop :=
  match a1, a2 with
  | None, None => True
  | Some x, Some y =>
      match headers x, headers y with
      | None, None => True
      | Some h1, Some h2 => sameHeaders h1 h2
      | _, _ => False
      end
  | _, _ => False
  end.

(** Structural equality of two identity keys. *)
Definition structurallyEqual (k1 k2 : ProviderCacheKey) : Prop :=
  providerUri k1 = providerUri k2 /\ sameAuthInfo (authInfo k1) (authInfo k2).

End Pool.
Arguments Env : clear implicits.
Arguments Instance : clear implicits.
Arguments t : clear implicits.
Arguments Request : clear implicits.
End Pool.

(* ===================================================================== *)
(** ** Observables *)
(* ===================================================================== *)

(** What an observable hands to its subscriber. *)
Inductive Notification (A : Type) :=
| next (a : A)
| error (e : Error)
| complete.
Arguments next {A} a.
Arguments error {A} e.
Arguments complete {A}.

(** rxjs [firstValueFrom(source, config?)] on the notifications the source
    has delivered so far: the promise settles with the first of them, and
    stays pending ([None]) while there is none. A source that completes
    first resolves to [config.defaultValue], and rejects with [EmptyError]
    when no default was given. *)
Definition firstValueFrom {A} (defaultValue : option A)
    (notifications : list (Notification A)) : option (Outcome A) :=
  match notifications with
  | [] => None
  | next a :: _ => Some (Resolved a)
  | error e :: _ => Some (Rejected e)
  | complete :: _ =>
      Some match defaultValue with
           | Some d => Resolved d
           | None => Rejected EmptyError
           end
  end.

(* ===================================================================== *)
(** ** Host configuration objects *)
(* ===================================================================== *)

Module Configuration.

(** A provider's entry in the host's [providers] object: its settings, or
    [false]. *)
Inductive ProviderEntry :=
| entryFalse
| entrySettings (s : ProviderSettings).

(** Objects of the host configuration. A [ConfigurationUserInput] refers
    to its [providers] object by reference. *)
Inductive Object :=
| configurationObject (enable debug : option bool) (providers : option nat)
| providersObject (entries : list (string * ProviderEntry)).

(** The heap: an object's reference is its index; allocation appends. *)
Definition Heap := list Object.

Record ProviderConfiguration := {
  providerUri : string;
  settings : ProviderSettings;
}.

(** The fields of the resolved [Configuration] that the client reads. *)
Record Configuration := {
  debug : bool;
  providers : list ProviderConfiguration;
}.

(** Modelled from the spec: [providersFromUserInput] of ../configuration,
    which is not among the sources. The providers come in the order of the
    host's object; an entry set to [false] is left out. *)
Definition providersFromUserInput (entries : list (string * ProviderEntry))
    : list ProviderConfiguration :=
  omap (fun e =>
          match e.2 with
          | entrySettings s => Some {| providerUri := e.1; settings := s |}
          | entryFalse => None
          end) entries.

(** Modelled from the spec: [configurationFromUserInput] of
    ../configuration, which is not among the sources. The resolved form has
    the debug flag (off when absent) and the providers. Reading does not
    write to the heap; a reference that is not to a configuration object
    has no resolved form. *)
Definition configurationFromUserInput (h : Heap) (config : nat) : option Configuration :=
  match h !! config with
  | Some (configurationObject _ dbg provs) =>
      match provs with
      | None => Some {| debug := default false dbg; providers := [] |}
      | Some r =>
          match h !! r with
          | Some (providersObject entries) =>
              Some {| debug := default false dbg;
                      providers := providersFromUserInput entries |}
          | _ => None
          end
      end
  | _ => None
  end.

(** The first step of the [map] callback over the host's configuration:
    [if (!config.enable) { config = { ...config, providers: {} } }].
    The spread copies the fields of the host's object into a new object,
    whose [providers] is a new empty object; the local variable then
    refers to the copy. *)
Definition gate (h : Heap) (config : nat) : Heap * nat :=
  match h !! config with
  | Some (configurationObject enable dbg provs) =>
      if negb (default false enable) then
        (h ++ [providersObject []; configurationObject enable dbg (Some (length h))],
         S (length h))
      else (h, config)
  | _ => (h, config)
  end.

End Configuration.

(* ===================================================================== *)
(** ** Client facade (client.ts, createClient) *)
(* ===================================================================== *)

Module Client.
Import Configuration.

(** The logging side of a client: what has reached the host's
    [env.logger], the value replayed by the [debug] observable
    ([shareReplay(1)]), and the messages of [logger] calls that still
    wait for the first [debug] value. *)
Record Log := {
  hostLog : list string;
  debugValue : option bool;
  pendingLog : list string;
}.

(** What the host asks for, and what it gets back. *)
Inductive Request :=
| itemsRequest (params : ItemsParams)
| annotationsRequest (params : AnnotationsParams).

Inductive Entry :=
| anItem (i : Item)
| anAnnotation (a : Annotation).

(** Notifications of the observables the host returns for one stream:
    its configuration observable, and the [authInfo] observable of a
    provider (by position) of one configuration (by position). *)
Inductive StreamEvent :=
| configuration (n : Notification nat)
| authInfo (inner provider : nat) (n : Notification (option AuthInfo)).

(** What can happen to a client. *)
Inductive Event :=
| subscribe (request : Request) (emitPartial : bool)
    (* the host subscribes to a stream that the client returned *)
| unsubscribe (stream : nat)
| toStream (stream : nat) (ev : StreamEvent)
| debugConfiguration (n : Notification nat)
    (* the observable of [env.configuration()] behind [debug] *)
| dispose
| advance (dt : Z).
    (* the clock moves on *)

Section Client.
Context {World Hook : Type}.
Variable glob : string -> string -> bool.
Variable createTransport :
  string -> Transport.Options Log Hook -> Transport.ProviderTransport World.

Local Open Scope promise_scope.

(** [ObservableProviderClient]: a client of the pool, or the one that a
    test's [__mock__.getProviderClient] hands out. *)
Inductive ObservableProviderClient :=
| pooled (c : Pool.Instance World Log)
| mocked (c : ProviderClient.ProviderClient World Log).

Definition methods (c : ObservableProviderClient) : ProviderClient.ProviderClient World Log :=
  match c with
  | pooled i => Pool.client i
  | mocked m => m
  end.

Record ProviderClientWithSettings := {
  providerClient : ObservableProviderClient;
  pcSettings : ProviderSettings;
}.

(** [ClientEnv]: which hooks the host supplies. A message given to
    [env.logger] is appended to the host log. The first listing has no
    [providerBaseUri]. *)
Record ClientEnv := {
  hasAuthInfo : bool;
  hasLogger : bool;
  providerBaseUri : option string;
  dynamicImportFromUri : option Hook;
  dynamicImportFromSource : option Hook;
  mock : option (ProviderClient.ProviderClient World Log);
}.

(** [env.logger?.(message)] *)
Definition envLogger (env : ClientEnv) : Logger Log :=
  fun message l =>
    if hasLogger env
    then {| hostLog := hostLog l ++ [message];
            debugValue := debugValue l;
            pendingLog := pendingLog l |}
    else l.

(** [logger]: [firstValueFrom(debug).then(debug => { if (debug)
    env.logger?.(message) })]. With a replayed value the message is
    decided by it; before the first value it waits. *)
Definition logger (env : ClientEnv) : Logger Log :=
  fun message l =>
    match debugValue l with
    | Some true => envLogger env message l
    | Some false => l
    | None =>
        {| hostLog := hostLog l;
           debugValue := None;
           pendingLog := pendingLog l ++ [message] |}
    end.

(** The [debug] observable emits: the value is replayed from now on, and
    the waiting messages are decided by the first one. *)
Definition debugNext (env : ClientEnv) (d : bool) (l : Log) : Log :=
  match debugValue l with
  | Some _ =>
      {| hostLog := hostLog l; debugValue := Some d; pendingLog := pendingLog l |}
  | None =>
      let flushed :=
        if d
        then foldl (fun acc message => envLogger env message acc) l (pendingLog l)
        else l in
      {| hostLog := hostLog flushed; debugValue := Some d; pendingLog := [] |}
  end.

(** *** One provider of one configuration: [authInfo] to client *)

(** [values[i]] of [combineLatest] with the state of its source: no value
    yet, [null], or a client with its settings. *)
Record Slot := {
  provider : ProviderConfiguration;
  latest : option (option ProviderClientWithSettings);
  finished : bool;
}.

(** The [map] callback: the mock's client, or the pool's for
    [{ providerUri, authInfo: authInfo ?? undefined }]. *)
Definition resolveClient (env : ClientEnv) (now : Z) (p : ProviderConfiguration)
    (a : option AuthInfo) (pool : Pool.t World Log)
    : ProviderClientWithSettings * Pool.t World Log :=
  match mock env with
  | Some m => ({| providerClient := mocked m; pcSettings := settings p |}, pool)
  | None =>
      let '(c, pool') :=
        Pool.getOrCreate glob createTransport
          {| Pool.providerUri := providerUri p; Pool.authInfo := a |}
          {| Pool.providerBaseUri := providerBaseUri env;
             Pool.logger := Some (logger env);
             Pool.dynamicImportFromUri := dynamicImportFromUri env;
             Pool.dynamicImportFromSource := dynamicImportFromSource env |}
          now pool in
      ({| providerClient := pooled c; pcSettings := settings p |}, pool')
  end.

(** The slot of a provider whose credentials could not be resolved:
    [catchError] has put [of(null)] in the place of its source. *)
Definition failedSlot (slot : Slot) : Slot :=
  {| provider := provider slot; latest := Some None; finished := true |}.

(** A notification of a provider's [authInfo] observable going through
    [map] and [catchError]: a value yields a client, an error is logged
    and replaced by [of(null)]. The errors that reach [catchError] here
    are those of the [authInfo] observable; the [map] callback itself does
    not throw, its construction of a client being one that returns (see
    [Pool.construct]). *)
Definition notifySlot (env : ClientEnv) (now : Z) (n : Notification (option AuthInfo))
    (slot : Slot) (pool : Pool.t World Log) (l : Log)
    : Slot * Pool.t World Log * Log :=
  match n with
  | next a =>
      let '(pc, pool') := resolveClient env now (provider slot) a pool in
      ({| provider := provider slot; latest := Some (Some pc); finished := false |},
       pool', l)
  | error e =>
      (failedSlot slot,
       pool,
       logger env
         ("Error creating provider client for " +:+ providerUri (provider slot) +:+
          ": " +:+ errorToString e) l)
  | complete =>
      ({| provider := provider slot; latest := latest slot; finished := true |}, pool, l)
  end.

(** What [combineLatest] followed by the filter of [null] clients emits,
    once every slot has a value. *)
Definition emission (slots : list Slot) : option (list ProviderClientWithSettings) :=
  omap (fun v => v) <$> mapM latest slots.

(** The clients that the slots hold, in the slots' order; a slot with
    [null] or without a value has none. *)
Definition clientsOf (slots : list Slot) : list ProviderClientWithSettings :=
  omap (fun s => default None (latest s)) slots.

(** *** Aggregation *)

Definition call (request : Request) (pc : ProviderClientWithSettings)
    : Promise.t (World:=World) (LogSt:=Log) (option (list Entry)) :=
  match request with
  | itemsRequest params =>
      await r <- ProviderClient.items (methods (providerClient pc)) params (pcSettings pc) ;;
      Promise.ret (List.map anItem <$> r)
  | annotationsRequest params =>
      await r <- ProviderClient.annotations (methods (providerClient pc)) params (pcSettings pc) ;;
      Promise.ret (List.map anAnnotation <$> r)
  end.

(** Modelled from the spec: the per-provider part of [observeItems] and
    [observeAnnotations] of ../api, which is not among the sources. A
    failure is logged to the logger the client passes ([env.logger]), in
    words of the model's choosing, and contributes the empty list, as does
    [null]. *)
Definition contribution (env : ClientEnv) (request : Request)
    (pc : ProviderClientWithSettings) (fx : Effects World Log)
    : list Entry * Effects World Log :=
  match call request pc fx with
  | (Resolved (Some entries), fx') => (entries, fx')
  | (Resolved None, fx') => ([], fx')
  | (Rejected e, fx') =>
      ([], {| world := world fx';
              logs := envLogger env ("failed to get items: " +:+ errorToString e) (logs fx');
              calls := calls fx' |})
  end.

(** Modelled from the spec: the fan-out of ../api. Every provider of the
    list is called, in the list's order; each call is taken to settle
    before the next notification arrives. *)
Fixpoint contributions (env : ClientEnv) (request : Request)
    (pcs : list ProviderClientWithSettings) (fx : Effects World Log)
    : list (list Entry) * Effects World Log :=
  match pcs with
  | [] => ([], fx)
  | pc :: rest =>
      let '(c, fx1) := contribution env request pc fx in
      let '(cs, fx2) := contributions env request rest fx1 in
      (c :: cs, fx2)
  end.

(** Modelled from the spec: the emission policy of ../api. The combined
    result is the concatenation of the contributions; without
    [emitPartial] only the snapshot with every provider in it is emitted,
    with it a snapshot follows each provider's result. *)
Definition snapshots (emitPartial : bool) (cs : list (list Entry)) : list (list Entry) :=
  if emitPartial
  then match cs with
       | [] => [[]]
       | _ => (fun k => concat (take k cs)) <$> seq 1 (length cs)
       end
  else [concat cs].

Definition observe (env : ClientEnv) (request : Request) (emitPartial : bool)
    (pcs : list ProviderClientWithSettings) (fx : Effects World Log)
    : list (Notification (list Entry)) * Effects World Log :=
  let '(cs, fx') := contributions env request pcs fx in
  (next <$> snapshots emitPartial cs, fx').

(** *** The streams a client has handed out *)

(** A subscription to the observable returned by [itemsChanges] or
    [annotationsChanges]: one list of slots per configuration that has
    arrived ([mergeMap] keeps them all), and what the subscriber has been
    delivered. *)
Record Stream := {
  request : Request;
  emitPartial : bool;
  subscribed : bool;
  configurationDone : bool;
  inners : list (list Slot);
  delivered : list (Notification (list Entry));
}.

Record State := {
  effects : Effects World Log;
  heap : Heap;
  clock : Z;
  pool : Pool.t World Log;
  subscriptions : list bool;
      (* the [subscriptions] array; [true] while not unsubscribed *)
  debugSource : bool;
      (* [shareReplay(1)] is still subscribed to [env.configuration()] *)
  streams : list Stream;
}.

Definition setStreams (st : State) (ss : list Stream) : State :=
  {| effects := effects st; heap := heap st; clock := clock st; pool := pool st;
     subscriptions := subscriptions st; debugSource := debugSource st; streams := ss |}.

Definition setShared (st : State) (h : Heap) (p : Pool.t World Log)
    (fx : Effects World Log) : State :=
  {| effects := fx; heap := h; clock := clock st; pool := p;
     subscriptions := subscriptions st; debugSource := debugSource st;
     streams := streams st |}.

Definition setLogs (fx : Effects World Log) (l : Log) : Effects World Log :=
  {| world := world fx; logs := l; calls := calls fx |}.

(** A notification for slot [i] of one [combineLatest], followed by the
    filter of [null] clients: a value, or an error that was replaced, makes
    a provider list come out when no slot is empty. *)
Definition notifyInner (env : ClientEnv) (now : Z)
    (i : nat) (n : Notification (option AuthInfo))
    (slots : list Slot) (p : Pool.t World Log) (l : Log)
    : list Slot * Pool.t World Log * Log * list (list ProviderClientWithSettings) :=
  match slots !! i with
  | Some slot =>
      if finished slot then (slots, p, l, [])
      else
        let '(slot', p', l') := notifySlot env now n slot p l in
        let slots' := <[i := slot']> slots in
        (slots', p', l',
         match n with
         | complete => []
         | _ =>
             match emission slots' with
             | Some pcs => [pcs]
             | None => []
             end
         end)
  | None => (slots, p, l, [])
  end.

(** Without an [authInfo] hook every slot's source is [of(null)]: on
    subscription it emits [null] and completes. *)
Definition ofNull (env : ClientEnv) (now : Z)
    (slots : list Slot) (p : Pool.t World Log) (l : Log)
    : list Slot * Pool.t World Log * Log * list (list ProviderClientWithSettings) :=
  foldl
    (fun acc i =>
       let '(sl, p0, l0, out) := acc in
       let '(sl1, p1, l1, out1) := notifyInner env now i (next None) sl p0 l0 in
       let '(sl2, p2, l2, out2) := notifyInner env now i complete sl1 p1 l1 in
       (sl2, p2, l2, out ++ out1 ++ out2))
    (slots, p, l, []) (seq 0 (length slots)).

(** [providerClientsWithSettings], the [mergeMap] callback for one
    configuration: [combineLatest] over its providers, or [of([])] when it
    has none. The result holds the slots that stay subscribed and the
    provider lists that come out at once. *)
Definition providerClientsWithSettings (env : ClientEnv) (now : Z)
    (cfg : Configuration) (p : Pool.t World Log) (l : Log)
    : list Slot * Pool.t World Log * Log * list (list ProviderClientWithSettings) :=
  match providers cfg with
  | [] => ([], p, l, [[]])
  | ps =>
      let slots := (fun pr => {| provider := pr; latest := None; finished := false |}) <$> ps in
      if hasAuthInfo env then (slots, p, l, [])
      else ofNull env now slots p l
  end.

(** [observeItems(providerClientsWithSettings, params, ...)] and
    [observeAnnotations]: each provider list that comes out is fanned out. *)
Definition observeAll (env : ClientEnv) (rq : Request) (partial : bool)
    (lists : list (list ProviderClientWithSettings)) (fx : Effects World Log)
    : list (Notification (list Entry)) * Effects World Log :=
  foldl
    (fun acc pcs =>
       let '(ns, fx0) := acc in
       let '(ns1, fx1) := observe env rq partial pcs fx0 in
       (ns ++ ns1, fx1))
    ([], fx) lists.

Definition setInners (s : Stream) (slotss : list (list Slot))
    (ns : list (Notification (list Entry))) : Stream :=
  {| request := request s; emitPartial := emitPartial s; subscribed := subscribed s;
     configurationDone := configurationDone s; inners := slotss;
     delivered := delivered s ++ ns |}.

(** A notification of one of the observables behind a stream. *)
Definition streamStep (env : ClientEnv) (ev : StreamEvent) (s : Stream) (st : State)
    : Stream * State :=
  match ev with
  | configuration n =>
      if configurationDone s then (s, st)
      else
        match n with
        | next config =>
            let '(h', config') := gate (heap st) config in
            match configurationFromUserInput h' config' with
            | Some cfg =>
                let '(slots, p', l', lists) :=
                  providerClientsWithSettings env (clock st) cfg (pool st)
                    (logs (effects st)) in
                let '(ns, fx') :=
                  observeAll env (request s) (emitPartial s) lists
                    (setLogs (effects st) l') in
                (setInners s (inners s ++ [slots]) ns, setShared st h' p' fx')
            | None => (s, st)
            end
        | error e =>
            ({| request := request s; emitPartial := emitPartial s; subscribed := false;
                configurationDone := true; inners := inners s;
                delivered := delivered s ++ [error e] |}, st)
        | complete =>
            ({| request := request s; emitPartial := emitPartial s;
                subscribed := subscribed s; configurationDone := true;
                inners := inners s; delivered := delivered s |}, st)
        end
  | authInfo k i n =>
      match inners s !! k with
      | Some slots =>
          let '(slots', p', l', lists) :=
            notifyInner env (clock st) i n slots (pool st) (logs (effects st)) in
          let '(ns, fx') :=
            observeAll env (request s) (emitPartial s) lists (setLogs (effects st) l') in
          (setInners s (<[k := slots']> (inners s)) ns, setShared st (heap st) p' fx')
      | None => (s, st)
      end
  end.

(** The stream completes once its configuration observable and every
    slot of every configuration have finished. *)
Definition finish (s : Stream) : Stream :=
  if subscribed s && configurationDone s && forallb (forallb finished) (inners s)
  then {| request := request s; emitPartial := emitPartial s; subscribed := false;
          configurationDone := true; inners := inners s;
          delivered := delivered s ++ [complete] |}
  else s.

Definition close (s : Stream) : Stream :=
  {| request := request s; emitPartial := emitPartial s; subscribed := false;
     configurationDone := configurationDone s; inners := inners s;
     delivered := delivered s |}.

(** A notification of the observable behind [debug], through [map],
    [distinctUntilChanged] and [shareReplay(1)]. *)
Definition debugStep (env : ClientEnv) (n : Notification nat) (st : State) : State :=
  if debugSource st then
    match n with
    | next config =>
        match configurationFromUserInput (heap st) config with
        | Some cfg =>
            if decide (debugValue (logs (effects st)) = Some (debug cfg)) then st
            else setShared st (heap st) (pool st)
                   (setLogs (effects st) (debugNext env (debug cfg) (logs (effects st))))
        | None => st
        end
    | error _ =>
        (* the waiting [firstValueFrom(debug)] promises reject and their
           messages are dropped by [.catch(() => {})] *)
        {| effects :=
             setLogs (effects st)
               {| hostLog := hostLog (logs (effects st)); debugValue := None;
                  pendingLog := [] |};
           heap := heap st; clock := clock st; pool := pool st;
           subscriptions := subscriptions st; debugSource := false;
           streams := streams st |}
    | complete =>
        {| effects := effects st; heap := heap st; clock := clock st; pool := pool st;
           subscriptions := subscriptions st; debugSource := false;
           streams := streams st |}
    end
  else st.

Definition step (env : ClientEnv) (st : State) (ev : Event) : State :=
  match ev with
  | subscribe rq partial =>
      setStreams st
        (streams st ++
         [{| request := rq; emitPartial := partial; subscribed := true;
             configurationDone := false; inners := []; delivered := [] |}])
  | unsubscribe j =>
      match streams st !! j with
      | Some s => setStreams st (<[j := close s]> (streams st))
      | None => st
      end
  | toStream j ev =>
      match streams st !! j with
      | Some s =>
          if subscribed s then
            let '(s', st') := streamStep env ev s st in
            setStreams st' (<[j := finish s']> (streams st'))
          else st
      | None => st
      end
  | debugConfiguration n => debugStep env n st
  | dispose =>
      (* [for (const sub of subscriptions) sub.unsubscribe()] *)
      {| effects := effects st; heap := heap st; clock := clock st; pool := pool st;
         subscriptions := (fun _ => false) <$> subscriptions st;
         debugSource := debugSource st; streams := streams st |}
  | advance dt =>
      let now := clock st + Z.max 0 dt in
      {| effects := effects st; heap := heap st; clock := now;
         pool := {| Pool.cache := LRUCache.purgeStale now (Pool.cache (pool st));
                    Pool.constructed := Pool.constructed (pool st) |};
         subscriptions := subscriptions st; debugSource := debugSource st;
         streams := streams st |}
  end.

Definition run (env : ClientEnv) (st : State) (evs : list Event) : State :=
  foldl (step env) st evs.

(** The state that [createClient(env)] sets up: an empty pool, and
    [debug.subscribe()] as the one subscription the client keeps. *)
Definition initial (h : Heap) (w : World) : State :=
  {| effects :=
       {| world := w;
          logs := {| hostLog := []; debugValue := None; pendingLog := [] |};
          calls := [] |};
     heap := h; clock := 0;
     pool := Pool.createProviderPool;
     subscriptions := [true];
     debugSource := true;
     streams := [] |}.

Definition deliveredTo (j : nat) (st : State) : list (Notification (list Entry)) :=
  match streams st !! j with
  | Some s => delivered s
  | None => []
  end.

(** [firstValueFrom] on stream [j] while the events of [script] arrive:
    the promise's subscriber unsubscribes when the promise settles, with
    the first notification. While nothing has been delivered the promise
    is pending and the subscription stays. *)
Definition firstValue (env : ClientEnv) (defaultValue : option (list Entry)) (j : nat)
    (script : list Event) (st : State) : option (Outcome (list Entry)) * State :=
  let st' :=
    foldl (fun acc ev =>
             match deliveredTo j acc with
             | [] => step env acc ev
             | _ => acc
             end) st script in
  (firstValueFrom defaultValue (deliveredTo j st'),
   match deliveredTo j st' with
   | [] => st'
   | _ => step env st' (unsubscribe j)
   end).

(** Events that come from the host's observables and the clock, rather
    than from calls into the client. *)
Definition fromEnvironment (ev : Event) : bool :=
  match ev with
  | toStream _ _ | debugConfiguration _ | advance _ => true
  | _ => false
  end.

End Client.
Arguments State : clear implicits.
Arguments Stream : clear implicits.
Arguments Slot : clear implicits.
Arguments ClientEnv : clear implicits.
End Client.

(** The first listing of client.ts: [items] and [itemsChanges]. A stream is
    taken up to the point where the host has subscribed to it; its
    configuration observable ([env.configuration(params.uri)]) speaks
    through the stream's events. *)
Module Client1.
Section Client1.
Context {World Hook : Type}.
Variable glob : string -> string -> bool.
Variable createTransport :
  string -> Transport.Options Client.Log Hook -> Transport.ProviderTransport World.

(** [interface Client<R>] *)
Record Client := {
  items : ItemsParams -> list Client.Event -> Client.State World ->
          option (Outcome (list Client.Entry)) * Client.State World;
  itemsChanges : ItemsParams -> option bool -> Client.State World -> Client.State World;
  dispose : Client.State World -> Client.State World;
}.

Definition createClient (env : Client.ClientEnv World Hook) : Client :=
  (* [{ emitPartial = true } = { emitPartial: true }] *)
  let itemsChanges := fun params (emitPartial : option bool) st =>
    Client.step glob createTransport env st
      (Client.subscribe (Client.itemsRequest params) (default true emitPartial)) in
  {| items := fun params script st =>
       (* [firstValueFrom(itemsChanges(params, { emitPartial: false }))] *)
       Client.firstValue glob createTransport env None (length (Client.streams st)) script
         (itemsChanges params (Some false) st);
     itemsChanges := itemsChanges;
     dispose := fun st => Client.step glob createTransport env st Client.dispose |}.

End Client1.
End Client1.

(** The second listing of client.ts: [annotations] and
    [annotationsChanges] as well, and [providerBaseUri] in the
    environment. *)
Module Client2.
Section Client2.
Context {World Hook : Type}.
Variable glob : string -> string -> bool.
Variable createTransport :
  string -> Transport.Options Client.Log Hook -> Transport.ProviderTransport World.

(** [interface Client<R>] *)
Record Client := {
  items : ItemsParams -> list Client.Event -> Client.State World ->
          option (Outcome (list Client.Entry)) * Client.State World;
  itemsChanges : ItemsParams -> Client.State World -> Client.State World;
  annotations : AnnotationsParams -> list Client.Event -> Client.State World ->
                option (Outcome (list Client.Entry)) * Client.State World;
  annotationsChanges : AnnotationsParams -> Client.State World -> Client.State World;
  dispose : Client.State World -> Client.State World;
}.

Definition createClient (env : Client.ClientEnv World Hook) : Client :=
  let itemsChanges := fun params (emitPartial : bool) st =>
    Client.step glob createTransport env st
      (Client.subscribe (Client.itemsRequest params) emitPartial) in
  let annotationsChanges := fun params (emitPartial : bool) st =>
    Client.step glob createTransport env st
      (Client.subscribe (Client.annotationsRequest params) emitPartial) in
  {| items := fun params script st =>
       (* [firstValueFrom(itemsChanges(params, { emitPartial: false }),
          { defaultValue: [] })] *)
       Client.firstValue glob createTransport env (Some []) (length (Client.streams st))
         script (itemsChanges params false st);
     itemsChanges := fun params => itemsChanges params true;
     annotations := fun params script st =>
       Client.firstValue glob createTransport env (Some []) (length (Client.streams st))
         script (annotationsChanges params false st);
     annotationsChanges := fun params => annotationsChanges params true;
     dispose := fun st => Client.step glob createTransport env st Client.dispose |}.

End Client2.
End Client2.

(* ===================================================================== *)
(** ** Reading a cache key back *)
(* ===================================================================== *)

(** [JSON.stringify] is read back one code unit at a time: what is needed
    to tell the texts of two identity keys apart. *)
Module JSONRead.

(** The value of a lower-case hexadecimal digit. *)
Definition hexValue (c : ascii) : option nat :=
  let n := nat_of_ascii c in
  if ((48 <=? n) && (n <=? 57))%nat then Some (n - 48)%nat
  else if ((97 <=? n) && (n <=? 102))%nat then Some (n - 87)%nat
  else None.

(** Reading back one code unit of the inside of a JSON string: the
    inverse of [JSON.escapeChar]. A quote ends the string and is not
    read. *)
Definition readChar (s : string) : option (ascii * string) :=
  match s with
  | EmptyString => None
  | String c rest =>
      if Ascii.eqb c JSON.dq then None
      else if Ascii.eqb c JSON.bs then
        match rest with
        | EmptyString => None
        | String x rest' =>
            if Ascii.eqb x JSON.dq then Some (JSON.dq, rest')
            else if Ascii.eqb x JSON.bs then Some (JSON.bs, rest')
            else if Ascii.eqb x "b" then Some (ascii_of_nat 8, rest')
            else if Ascii.eqb x "f" then Some (ascii_of_nat 12, rest')
            else if Ascii.eqb x "n" then Some (ascii_of_nat 10, rest')
            else if Ascii.eqb x "r" then Some (ascii_of_nat 13, rest')
            else if Ascii.eqb x "t" then Some (ascii_of_nat 9, rest')
            else if Ascii.eqb x "u" then
              match rest' with
              | String _ (String _ (String h1 (String h2 rest''))) =>
                  match hexValue h1, hexValue h2 with
                  | Some a, Some b => Some (ascii_of_nat (16 * a + b), rest'')
                  | _, _ => None
                  end
              | _ => None
              end
            else None
        end
      else Some (c, rest)
  end.

(** The member that [Pool.stringifyHeaders] writes for one header. *)
Definition headerMember (kv : string * string) : string :=
  JSON.member kv.1 (JSON.quote kv.2).

End JSONRead.

(* ===================================================================== *)
(** ** The history of a pool *)
(* ===================================================================== *)

Module PoolHistory.
Section PoolHistory.
Context {World LogSt Hook : Type}.
Variable glob : string -> string -> bool.
Variable createTransport :
  string -> Transport.Options LogSt Hook -> Transport.ProviderTransport World.

(** The client that [getOrCreate] constructs for a key in an environment:
    [createProviderClient(key.providerUri, { ..., authInfo: key.authInfo })]. *)
Definition clientFor (key : Pool.ProviderCacheKey) (env : Pool.Env LogSt Hook)
    : ProviderClient.ProviderClient World LogSt :=
  ProviderClient.createProviderClient glob createTransport (Pool.providerUri key)
    {| ProviderClient.providerBaseUri := Pool.providerBaseUri env;
       ProviderClient.authInfo := Pool.authInfo key;
       ProviderClient.logger := Pool.logger env;
       ProviderClient.dynamicImportFromUri := Pool.dynamicImportFromUri env;
       ProviderClient.dynamicImportFromSource := Pool.dynamicImportFromSource env |}.

(** The key and the environment of a request. *)
Definition origin (r : Pool.Request LogSt Hook)
    : Pool.ProviderCacheKey * Pool.Env LogSt Hook :=
  (Pool.req_key r, Pool.req_env r).

(** [owners] records the constructions of a pool: its n-th element is the
    key and the environment that the client with [ref] n was constructed
    for, and every cached client is recorded under the key it is cached
    for. *)
Definition recorded (owners : list (Pool.ProviderCacheKey * Pool.Env LogSt Hook))
    (pool : Pool.t World LogSt) : Prop :=
  length owners = Pool.constructed pool /\
  forall ck e, Pool.entriesOf pool !! ck = Some e ->
    exists key env,
      owners !! Pool.ref (LRUCache.value e) = Some (key, env) /\
      ck = Pool.cacheKey key /\
      Pool.client (LRUCache.value e) = clientFor key env.

(** The pool once the autopurge timers that were due by [now] have
    fired ([ttlAutopurge: true]). *)
Definition purged (now : Z) (pool : Pool.t World LogSt) : Pool.t World LogSt :=
  {| Pool.cache := LRUCache.purgeStale now (Pool.cache pool);
     Pool.constructed := Pool.constructed pool |}.

End PoolHistory.
End PoolHistory.

(* ===================================================================== *)
(** ** A configuration without an [authInfo] hook *)
(* ===================================================================== *)

Module Resolution.
Import Configuration.
Section Resolution.
Context {World Hook : Type}.
Variable glob : string -> string -> bool.
Variable createTransport :
  string -> Transport.Options Client.Log Hook -> Transport.ProviderTransport World.

(** The slot of a provider right after [combineLatest] has subscribed to
    its source. *)
Definition freshSlot (p : ProviderConfiguration) : Client.Slot World :=
  {| Client.provider := p; Client.latest := None; Client.finished := false |}.

(** The slot of a provider whose source has given a client and completed. *)
Definition settledSlot (p : ProviderConfiguration)
    (pc : Client.ProviderClientWithSettings (World:=World)) : Client.Slot World :=
  {| Client.provider := p; Client.latest := Some (Some pc); Client.finished := true |}.

(** One client per provider, in the providers' order, each resolved
    without credentials; the pool is handed from one to the next. *)
Fixpoint resolveAll (env : Client.ClientEnv World Hook) (now : Z)
    (ps : list ProviderConfiguration) (pool : Pool.t World Client.Log)
    : list (Client.ProviderClientWithSettings (World:=World)) * Pool.t World Client.Log :=
  match ps with
  | [] => ([], pool)
  | p :: rest =>
      let '(pc, pool1) := Client.resolveClient glob createTransport env now p None pool in
      let '(pcs, pool2) := resolveAll env now rest pool1 in
      (pc :: pcs, pool2)
  end.

(** No entry of the pool is stale when the clock reads [now]. *)
Definition liveAt (now : Z) (pool : Pool.t World Client.Log) : Prop :=
  forall ck e, Pool.entriesOf pool !! ck = Some e ->
    now - LRUCache.start e <= Pool.ttlOf pool.

(** The pool holds, under the key of provider [p] without credentials,
    the client of [pc] in an entry that is not stale when the clock reads
    [now], and [pc] carries the settings of [p]. *)
Definition heldAt (now : Z) (pool : Pool.t World Client.Log) (p : ProviderConfiguration)
    (pc : Client.ProviderClientWithSettings (World:=World)) : Prop :=
  exists e,
    Pool.entriesOf pool
      !! Pool.cacheKey {| Pool.providerUri := providerUri p; Pool.authInfo := None |}
      = Some e /\
    now - LRUCache.start e <= Pool.ttlOf pool /\
    pc = {| Client.providerClient := Client.pooled (LRUCache.value e);
            Client.pcSettings := settings p |}.

End Resolution.
End Resolution.

(* ===================================================================== *)
(** ** The states a client can reach *)
(* ===================================================================== *)

Module Reachability.
Import Configuration.
Section Reachability.
Context {World Hook : Type}.
Variable glob : string -> string -> bool.
Variable createTransport :
  string -> Transport.Options Client.Log Hook -> Transport.ProviderTransport World.

(** The states a client can be in: those that events lead to from the
    state [createClient] sets up. *)
Definition reachable (env : Client.ClientEnv World Hook) (st : Client.State World) : Prop :=
  exists h w evs, st = Client.run glob createTransport env (Client.initial h w) evs.

(** The environment that the client hands to its pool with every request. *)
Definition poolEnv (env : Client.ClientEnv World Hook) : Pool.Env Client.Log Hook :=
  {| Pool.providerBaseUri := Client.providerBaseUri env;
     Pool.logger := Some (Client.logger env);
     Pool.dynamicImportFromUri := Client.dynamicImportFromUri env;
     Pool.dynamicImportFromSource := Client.dynamicImportFromSource env |}.

(** [pc] is a client of the pool that was constructed for the URI of
    provider [p], with some credentials, and it carries the settings of
    [p]. *)
Definition genuine (env : Client.ClientEnv World Hook) (p : ProviderConfiguration)
    (pc : Client.ProviderClientWithSettings (World:=World)) : Prop :=
  Client.pcSettings pc = settings p /\
  exists c a,
    Client.providerClient pc = Client.pooled c /\
    Pool.client c =
      PoolHistory.clientFor glob createTransport
        {| Pool.providerUri := providerUri p; Pool.authInfo := a |} (poolEnv env).

(** The client that a slot holds, if it holds one, is genuine. *)
Definition genuineSlot (env : Client.ClientEnv World Hook) (slot : Client.Slot World) : Prop :=
  forall pc, Client.latest slot = Some (Some pc) -> genuine env (Client.provider slot) pc.

(** Every client of the pool was constructed in the client's environment
    for the key it is cached under. *)
Definition ownPool (env : Client.ClientEnv World Hook) (pool : Pool.t World Client.Log)
    : Prop :=
  exists owners,
    PoolHistory.recorded glob createTransport owners pool /\
    Forall (fun o => o.2 = poolEnv env) owners.

(** What holds of every state a client without a mock can reach: its
    pool is its own, and so are the clients in the slots of its streams. *)
Definition wellFormed (env : Client.ClientEnv World Hook) (st : Client.State World) : Prop :=
  ownPool env (Client.pool st) /\
  Forall (fun s => Forall (Forall (genuineSlot env)) (Client.inners s)) (Client.streams st).

(** The log [l'] continues the log [l]: what the host's logger has been
    given and what waits are kept, in their order. *)
Definition continues (l l' : Client.Log) : Prop :=
  Client.debugValue l' = Client.debugValue l /\
  (exists more, Client.hostLog l' = Client.hostLog l ++ more) /\
  (exists more, Client.pendingLog l' = Client.pendingLog l ++ more).

(** The slots that hold a client. *)
Definition withClient (slots : list (Client.Slot World)) : list (Client.Slot World) :=
  filter (fun slot => is_Some (default None (Client.latest slot))) slots.

End Reachability.
End Reachability.

(* ===================================================================== *)
(** ** Sample data *)
(* ===================================================================== *)

Module Sample.

(** A small glob: [**/*suffix] matches the URIs that end in the suffix,
    any other pattern only itself. *)
Fixpoint endsWith (suffix s : string) : bool :=
  String.eqb suffix s ||
  match s with
  | EmptyString => false
  | String _ rest => endsWith suffix rest
  end.

Definition glob (pattern uri : string) : bool :=
  match pattern with
  | String "*" (String "*" (String "/" (String "*" suffix))) => endsWith suffix uri
  | _ => String.eqb pattern uri
  end.

Definition goSelector : Selector :=
  {| path := Some "**/*.go"; contentContains := Some "prometheus" |}.

Definition goFile : ResourceParams :=
  {| uri := "file:///a/b.go"; content := Some "var h = prometheus.HistogramOpts{}" |}.

Definition tsFile : ResourceParams :=
  {| uri := "file:///a/b.ts"; content := Some "import prometheus" |}.

Definition anItem : Item :=
  {| title := "Prometheus metric"; url := None; ui := None; ai := None |}.

Definition anAnnotation : Annotation :=
  {| ann_uri := "file:///a/b.go"; range := None; item := anItem |}.

Definition good : string := "https://example.com/good".
Definition never : string := "https://example.com/never".
Definition broken : string := "https://example.com/broken".

(** Transports over a world that counts the requests made: [broken]
    fails every call, [never] declares the empty selector, every other
    provider answers for Go files. *)
Definition createTransport {LogSt Hook : Type} (providerUri : string)
    (o : Transport.Options LogSt Hook) : Transport.ProviderTransport nat :=
  if String.eqb providerUri broken then
    {| Transport.capabilities := fun _ _ w => (Rejected (ThrownError "boom"), S w);
       Transport.items := fun _ _ w => (Rejected (ThrownError "boom"), S w);
       Transport.annotations := fun _ _ w => (Rejected (ThrownError "boom"), S w) |}
  else
    {| Transport.capabilities := fun _ _ w =>
         (Resolved {| selector := if String.eqb providerUri never
                                  then Some []
                                  else Some [goSelector] |}, S w);
       Transport.items := fun _ _ w => (Resolved (Some [anItem]), S w);
       Transport.annotations := fun _ _ w => (Resolved (Some [anAnnotation]), S w) |}.

Definition options {LogSt} : ProviderClient.ProviderClientOptions LogSt unit :=
  {| ProviderClient.providerBaseUri := None;
     ProviderClient.authInfo := None;
     ProviderClient.logger := None;
     ProviderClient.dynamicImportFromUri := None;
     ProviderClient.dynamicImportFromSource := None |}.

(** A logger that keeps the messages. *)
Definition keep : Logger (list string) := fun message l => l ++ [message].

Definition fx0 : Effects nat (list string) := {| world := 0%nat; logs := []; calls := [] |}.

Definition poolEnv : Pool.Env (list string) unit :=
  {| Pool.providerBaseUri := None; Pool.logger := None;
     Pool.dynamicImportFromUri := None; Pool.dynamicImportFromSource := None |}.

(** Two identity keys with the same headers in a different order. *)
Definition keyAB : Pool.ProviderCacheKey :=
  {| Pool.providerUri := good;
     Pool.authInfo :=
       Some {| headers := Some [("Authorization", "token"); ("X-Org", "acme")] |} |}.

Definition keyBA : Pool.ProviderCacheKey :=
  {| Pool.providerUri := good;
     Pool.authInfo :=
       Some {| headers := Some [("X-Org", "acme"); ("Authorization", "token")] |} |}.

Definition otherKey : Pool.ProviderCacheKey :=
  {| Pool.providerUri := broken; Pool.authInfo := None |}.

Definition pool0 : Pool.t nat (list string) := Pool.createProviderPool.

Definition off : string := "https://example.com/off".

(** The host's objects: at 1 a configuration that is switched on, at 2
    one that is switched off, both over the providers at 0. *)
Definition heap : Configuration.Heap :=
  [Configuration.providersObject
     [(good, Configuration.entrySettings []);
      (never, Configuration.entrySettings []);
      (off, Configuration.entryFalse);
      (broken, Configuration.entrySettings [])];
   Configuration.configurationObject (Some true) (Some true) (Some 0%nat);
   Configuration.configurationObject (Some false) (Some true) (Some 0%nat)].

(** A host with a logger and without an [authInfo] hook, and one with
    the hook. *)
Definition env : Client.ClientEnv nat unit :=
  {| Client.hasAuthInfo := false; Client.hasLogger := true;
     Client.providerBaseUri := None;
     Client.dynamicImportFromUri := None; Client.dynamicImportFromSource := None;
     Client.mock := None |}.

Definition envWithAuth : Client.ClientEnv nat unit :=
  {| Client.hasAuthInfo := true; Client.hasLogger := true;
     Client.providerBaseUri := None;
     Client.dynamicImportFromUri := None; Client.dynamicImportFromSource := None;
     Client.mock := None |}.

Definition step := Client.step glob (createTransport (LogSt:=Client.Log) (Hook:=unit)).
Definition run := Client.run glob (createTransport (LogSt:=Client.Log) (Hook:=unit)).

(** A client whose host follows one stream of items. *)
Definition watching : Client.State nat :=
  run env (Client.initial heap 0%nat)
    [Client.debugConfiguration (next 1%nat);
     Client.subscribe (Client.itemsRequest goFile) true].

Definition token : AuthInfo := {| headers := Some [("Authorization", "token")] |}.

(** A client whose host follows one stream of items with an [authInfo]
    hook: the configuration has arrived, the first and the last of its
    three providers have their credentials, the second one not yet. *)
Definition waiting : Client.State nat :=
  run envWithAuth (Client.initial heap 0%nat)
    [Client.debugConfiguration (next 1%nat);
     Client.subscribe (Client.itemsRequest goFile) false;
     Client.toStream 0 (Client.configuration (next 1%nat));
     Client.toStream 0 (Client.authInfo 0 0 (next None));
     Client.toStream 0 (Client.authInfo 0 2 (next (Some token)))].

(** Its stream, the slots of the configuration, and the slot that is
    still waiting. *)
Definition waitingStream : Client.Stream nat :=
  match Client.streams waiting with
  | s :: _ => s
  | [] => {| Client.request := Client.itemsRequest goFile; Client.emitPartial := false;
             Client.subscribed := false; Client.configurationDone := false;
             Client.inners := []; Client.delivered := [] |}
  end.

Definition waitingSlots : list (Client.Slot nat) :=
  match Client.inners waitingStream with
  | slots :: _ => slots
  | [] => []
  end.

Definition neverSlot : Client.Slot nat :=
  {| Client.provider := {| Configuration.providerUri := never; Configuration.settings := [] |};
     Client.latest := None; Client.finished := false |}.

End Sample.

(* ===================================================================== *)
(** * Properties *)
(* ===================================================================== *)

(** ** Selector matcher *)

Section SelectorFacts.
Variable glob : string -> string -> bool.
Import SelectorMatcher.

(** [String.prefix] finds the needle at the start of the haystack. *)
Lemma prefix_append (needle haystack : string) :
  String.prefix needle haystack = true <-> exists after, haystack = needle +:+ after.
Proof.
  revert haystack. induction needle as [|c needle IH]; intros [|d haystack]; simpl.
  - split; [intros _; by exists EmptyString | done].
  - split; [intros _; by exists (String d haystack) | done].
  - split; [done | intros [after H]; discriminate].
  - destruct (Ascii.ascii_dec c d) as [->|Hne].
    + rewrite IH. split; intros [after H]; exists after; [by rewrite H | by injection H].
    + split; [done | intros [after H]; injection H; congruence].
Qed.

(** [includes] is the substring test. *)
Lemma includes_occursIn (needle haystack : string) :
  includes needle haystack = true <-> occursIn needle haystack.
Proof.
  induction haystack as [|c haystack IH]; cbn [includes].
  - rewrite prefix_append. split.
    + intros [after H]. exists EmptyString, after. done.
    + intros [before [after H]]. destruct before; simpl in H.
      * by exists after.
      * discriminate.
  - rewrite orb_true_iff, IH, prefix_append. split.
    + intros [[after H] | [before [after H]]].
      * exists EmptyString, after. done.
      * exists (String c before), after. simpl. by rewrite H.
    + intros [before [after H]]. destruct before as [|d before]; simpl in H.
      * left. by exists after.
      * right. exists before, after. by injection H.
Qed.

(** One selector: every condition that is present must hold. *)
Lemma matchSelector_satisfies (s : Selector) (params : ResourceParams) :
  matchSelector glob s params = true <-> satisfies glob params s.
Proof.
  unfold matchSelector, satisfies. rewrite andb_true_iff.
  apply Morphisms_Prop.and_iff_morphism.
  - destruct (path s) as [p|]; split; try done.
    + intros H q [= <-]. done.
    + intros H. by apply H.
  - destruct (contentContains s) as [needle|]; [|split; done].
    destruct (content params) as [c|].
    + rewrite includes_occursIn. split.
      * intros H n [= <-]. by exists c.
      * intros H. destruct (H needle eq_refl) as [c' [[= <-] Hc]]. done.
    + split; [done|]. intros H. by destruct (H needle eq_refl) as [c' [? _]].
Qed.

(** The matcher of the empty array rejects every resource. *)
Lemma matchSelectors_empty (params : ResourceParams) :
  matchSelectors glob (Some []) params = false.
Proof. reflexivity. Qed.

(** Without selectors every resource is accepted. *)
Lemma matchSelectors_undefined (params : ResourceParams) :
  matchSelectors glob None params = true.
Proof. reflexivity. Qed.

(** C1: for a non-empty selector array the matcher returns true exactly
    when every selector of the array is satisfied by the resource: the
    array is a conjunction, so one selector that is not satisfied makes the
    matcher return false, whatever the others do. A selector is satisfied
    when its path glob, if present, matches the URI and its
    [contentContains], if present, occurs literally in the content; a
    selector with [contentContains] fails a resource without content. *)
Theorem matchSelectors_all_satisfied (sels : list Selector) (params : ResourceParams) :
  sels <> [] ->
  (matchSelectors glob (Some sels) params = true <->
   Forall (satisfies glob params) sels) /\
  (forall s, s ∈ sels -> ~ satisfies glob params s ->
     matchSelectors glob (Some sels) params = false) /\
  (forall s needle, s ∈ sels -> contentContains s = Some needle ->
     content params = None ->
     matchSelectors glob (Some sels) params = false).
Proof.
  intros Hne.
  assert (Hiff : matchSelectors glob (Some sels) params = true <->
                 Forall (satisfies glob params) sels).
  { unfold matchSelectors. destruct sels as [|s sels]; [done|].
    rewrite forallb_forall, Forall_forall.
    split; intros H x Hx.
    - apply matchSelector_satisfies, H. by apply list_elem_of_In.
    - apply matchSelector_satisfies, H. by apply list_elem_of_In. }
  assert (Hnot : forall s, s ∈ sels -> ~ satisfies glob params s ->
                 matchSelectors glob (Some sels) params = false).
  { intros s Hs Hunsat.
    destruct (matchSelectors glob (Some sels) params) eqn:Hm; [|done].
    exfalso. apply Hunsat.
    exact (proj1 (Forall_forall _ _) (proj1 Hiff eq_refl) s Hs). }
  split; [exact Hiff|]. split; [exact Hnot|].
  intros s needle Hs Hneedle Hnone. apply (Hnot s Hs).
  intros [_ Hcontent]. destruct (Hcontent needle Hneedle) as (c & Hc & _).
  rewrite Hnone in Hc. discriminate.
Qed.
End SelectorFacts.

(** ** Provider client *)

Section ProviderClientFacts.
Context {World LogSt Hook : Type}.
Variable glob : string -> string -> bool.
Variable createTransport :
  string -> Transport.Options LogSt Hook -> Transport.ProviderTransport World.

Local Abbreviation createProviderClient :=
  (ProviderClient.createProviderClient glob createTransport).
Local Abbreviation transport := (ProviderClient.transport createTransport).

Ltac run_promise :=
  cbn [ProviderClient.createProviderClient ProviderClient.items ProviderClient.annotations];
  unfold Promise.bind, Promise.tryCatch, Promise.invoke, Promise.log, Promise.ret,
    Promise.reject; cbn [world logs calls].

(** [items] settles as the transport's [items] does, after one
    invocation of it, with or without a logger. *)
Lemma items_spec (providerUri : string)
    (options : ProviderClient.ProviderClientOptions LogSt Hook)
    (params : ItemsParams) (settings : ProviderSettings) (fx : Effects World LogSt) :
  let r := ProviderClient.items (createProviderClient providerUri options) params settings fx in
  let t := Transport.items (transport providerUri options) params settings (world fx) in
  r.1 = t.1 /\ world r.2 = t.2 /\ calls r.2 = calls fx ++ [(providerUri, itemsMethod)].
Proof.
  run_promise.
  destruct (Transport.items _ params settings (world fx)) as [[r|e] w];
    destruct (ProviderClient.scoped providerUri options); done.
Qed.

(** The three ways through [annotations], with or without a logger. *)
Lemma annotations_spec (providerUri : string)
    (options : ProviderClient.ProviderClientOptions LogSt Hook)
    (params : AnnotationsParams) (settings : ProviderSettings) (fx : Effects World LogSt) :
  let r := ProviderClient.annotations (createProviderClient providerUri options)
             params settings fx in
  match Transport.capabilities (transport providerUri options) tt settings (world fx) with
  | (Rejected e, w) =>
      r.1 = Rejected e /\ world r.2 = w /\
      calls r.2 = calls fx ++ [(providerUri, capabilitiesMethod)]
  | (Resolved c, w) =>
      if SelectorMatcher.matchSelectors glob (selector c) params then
        let t := Transport.annotations (transport providerUri options) params settings w in
        r.1 = t.1 /\ world r.2 = t.2 /\
        calls r.2 = calls fx ++ [(providerUri, capabilitiesMethod);
                                 (providerUri, annotationsMethod)]
      else
        r.1 = Resolved None /\ world r.2 = w /\
        calls r.2 = calls fx ++ [(providerUri, capabilitiesMethod)]
  end.
Proof.
  run_promise.
  destruct (ProviderClient.scoped providerUri options) as [l|]; cbn [world logs calls];
    (destruct (Transport.capabilities _ tt settings (world fx)) as [[c|e] w];
     cbn [world logs calls]; [|done];
     destruct (SelectorMatcher.matchSelectors glob (selector c) params);
     cbn [negb world logs calls]; [|done];
     destruct (Transport.annotations _ params settings w) as [[r|e] w'];
     cbn [world logs calls fst snd]; rewrite <- ?app_assoc; done).
Qed.

(** C3: when capability discovery succeeds and the selector matcher
    rejects the resource, as it does for every resource when the selector
    is the empty array, [annotations] resolves to [null], which is not the
    empty list, and the only transport method invoked is [capabilities]:
    the transport's [annotations] is not called. *)
Theorem annotations_gated (providerUri : string)
    (options : ProviderClient.ProviderClientOptions LogSt Hook)
    (params : AnnotationsParams) (settings : ProviderSettings)
    (fx : Effects World LogSt) (capabilities : CapabilitiesResult) (w : World) :
  Transport.capabilities (transport providerUri options) tt settings (world fx)
    = (Resolved capabilities, w) ->
  SelectorMatcher.matchSelectors glob (selector capabilities) params = false
    \/ selector capabilities = Some [] ->
  let r := ProviderClient.annotations (createProviderClient providerUri options)
             params settings fx in
  r.1 = Resolved None /\
  r.1 <> Resolved (Some []) /\
  world r.2 = w /\
  calls r.2 = calls fx ++ [(providerUri, capabilitiesMethod)].
Proof.
  intros Hcap Hrej r.
  assert (Hm : SelectorMatcher.matchSelectors glob (selector capabilities) params = false).
  { destruct Hrej as [H | H]; [done|]. rewrite H. apply (matchSelectors_empty glob). }
  pose proof (annotations_spec providerUri options params settings fx) as H.
  rewrite Hcap, Hm in H. destruct H as (H1 & H2 & H3).
  subst r. rewrite H1. done.
Qed.

(** C4: when the capability discovery made by [annotations] fails,
    [annotations] rejects with that very failure; nothing but the
    [capabilities] call was made. *)
Theorem annotations_capability_failure (providerUri : string)
    (options : ProviderClient.ProviderClientOptions LogSt Hook)
    (params : AnnotationsParams) (settings : ProviderSettings)
    (fx : Effects World LogSt) (e : Error) (w : World) :
  Transport.capabilities (transport providerUri options) tt settings (world fx)
    = (Rejected e, w) ->
  let r := ProviderClient.annotations (createProviderClient providerUri options)
             params settings fx in
  r.1 = Rejected e /\
  world r.2 = w /\
  calls r.2 = calls fx ++ [(providerUri, capabilitiesMethod)].
Proof.
  intros Hcap r.
  pose proof (annotations_spec providerUri options params settings fx) as H.
  by rewrite Hcap in H.
Qed.

(** The transports of a client with and without a logger answer alike. *)
Lemma transport_agree (providerUri : string)
    (options : ProviderClient.ProviderClientOptions LogSt Hook) (l : Logger LogSt) :
  Transport.ignoresLogger createTransport ->
  Transport.agree (transport providerUri (ProviderClient.setLogger options None))
                  (transport providerUri (ProviderClient.setLogger options (Some l))).
Proof.
  intros Hign.
  apply (Hign providerUri
    {| Transport.providerBaseUri := ProviderClient.providerBaseUri options;
       Transport.authInfo := ProviderClient.authInfo options;
       Transport.dynamicImportFromUri := ProviderClient.dynamicImportFromUri options;
       Transport.dynamicImportFromSource := ProviderClient.dynamicImportFromSource options;
       Transport.cache := true;
       Transport.logger := None |}
    (ProviderClient.scoped providerUri (ProviderClient.setLogger options (Some l)))).
Qed.

(** C9: for a transport whose answers do not depend on the logger it is
    constructed with, [items] and [annotations] settle with the same
    value or failure, leave the same world and make the same transport
    calls whether a logger is supplied or not. *)
Theorem logging_keeps_outcome (providerUri : string)
    (options : ProviderClient.ProviderClientOptions LogSt Hook) (l : Logger LogSt)
    (params : ResourceParams) (settings : ProviderSettings) (fx : Effects World LogSt) :
  Transport.ignoresLogger createTransport ->
  let logging := createProviderClient providerUri (ProviderClient.setLogger options (Some l)) in
  let silent := createProviderClient providerUri (ProviderClient.setLogger options None) in
  Promise.sameButLogs (ProviderClient.items logging params settings fx)
                      (ProviderClient.items silent params settings fx) /\
  Promise.sameButLogs (ProviderClient.annotations logging params settings fx)
                      (ProviderClient.annotations silent params settings fx).
Proof.
  intros Hign logging silent.
  destruct (transport_agree providerUri options l Hign) as (Hc & Hi & Ha).
  split; unfold Promise.sameButLogs, logging, silent.
  - destruct (items_spec providerUri (ProviderClient.setLogger options (Some l))
                params settings fx) as (L1 & L2 & L3).
    destruct (items_spec providerUri (ProviderClient.setLogger options None)
                params settings fx) as (S1 & S2 & S3).
    rewrite L1, L2, L3, S1, S2, S3, Hi. done.
  - pose proof (annotations_spec providerUri (ProviderClient.setLogger options (Some l))
                  params settings fx) as L.
    pose proof (annotations_spec providerUri (ProviderClient.setLogger options None)
                  params settings fx) as S.
    cbv zeta in L, S. rewrite Hc in S.
    destruct (Transport.capabilities _ tt settings (world fx)) as [[c|e] w].
    + destruct (SelectorMatcher.matchSelectors glob (selector c) params).
      * rewrite Ha in S. destruct L as (L1 & L2 & L3), S as (S1 & S2 & S3).
        rewrite L1, L2, L3, S1, S2, S3. done.
      * destruct L as (L1 & L2 & L3), S as (S1 & S2 & S3).
        rewrite L1, L2, L3, S1, S2, S3. done.
    + destruct L as (L1 & L2 & L3), S as (S1 & S2 & S3).
      rewrite L1, L2, L3, S1, S2, S3. done.
Qed.
End ProviderClientFacts.

(** ** Provider connection pool *)

Section PoolFacts.
Context {World LogSt Hook : Type}.
Variable glob : string -> string -> bool.
Variable createTransport :
  string -> Transport.Options LogSt Hook -> Transport.ProviderTransport World.

Local Abbreviation getOrCreate := (Pool.getOrCreate glob createTransport).
Local Abbreviation construct := (Pool.construct glob createTransport).
Local Abbreviation serve := (Pool.serve glob createTransport).
Local Abbreviation Instance := (Pool.Instance World LogSt).
Local Abbreviation entriesOf := (@Pool.entriesOf World LogSt).
Local Abbreviation ttlOf := (@Pool.ttlOf World LogSt).
Local Abbreviation laterOr := (@Pool.laterOr World LogSt).

(** A lookup that finds a live entry returns it and leaves the pool as it
    is. *)
Lemma getOrCreate_hit key env now (p : Pool.t World LogSt) (e : LRUCache.Entry Instance) :
  entriesOf p !! Pool.cacheKey key = Some e ->
  now - LRUCache.start e <= ttlOf p ->
  getOrCreate key env now p = (LRUCache.value e, p).
Proof.
  unfold Pool.entriesOf, Pool.ttlOf, Pool.getOrCreate, LRUCache.get. intros -> Hlive.
  unfold LRUCache.isStale.
  destruct (Z.ltb_spec (LRUCache.ttl (Pool.cache p)) (now - LRUCache.start e)); [lia|].
  by destruct p.
Qed.

(** Any other lookup constructs a client and stores it under the key. *)
Lemma getOrCreate_miss key env now (p : Pool.t World LogSt) :
  (forall e, entriesOf p !! Pool.cacheKey key = Some e -> ttlOf p < now - LRUCache.start e) ->
  getOrCreate key env now p =
    (construct key env p,
     {| Pool.cache :=
          {| LRUCache.ttl := ttlOf p;
             LRUCache.entries :=
               <[Pool.cacheKey key :=
                   {| LRUCache.value := construct key env p; LRUCache.start := now |}]>
                 (entriesOf p) |};
        Pool.constructed := S (Pool.constructed p) |}).
Proof.
  unfold Pool.entriesOf, Pool.ttlOf, Pool.getOrCreate, LRUCache.get, LRUCache.set. intros Hstale.
  destruct (LRUCache.entries (Pool.cache p) !! Pool.cacheKey key) as [e|] eqn:He.
  - unfold LRUCache.isStale. specialize (Hstale e eq_refl).
    destruct (Z.ltb_spec (LRUCache.ttl (Pool.cache p)) (now - LRUCache.start e)); [|lia].
    cbn [LRUCache.ttl LRUCache.entries]. by rewrite insert_delete_eq.
  - done.
Qed.

(** A key finds a live entry, or none that is live. *)
Lemma lookup_cases (key : Pool.ProviderCacheKey) (now : Z) (p : Pool.t World LogSt) :
  (exists e, entriesOf p !! Pool.cacheKey key = Some e /\
             now - LRUCache.start e <= ttlOf p) \/
  (forall e, entriesOf p !! Pool.cacheKey key = Some e -> ttlOf p < now - LRUCache.start e).
Proof.
  destruct (entriesOf p !! Pool.cacheKey key) as [e|].
  - destruct (Z.le_gt_cases (now - LRUCache.start e) (ttlOf p)).
    + left. by exists e.
    + right. intros e' [= <-]. lia.
  - right. done.
Qed.

(** A request leaves the live entry of another key, and of its own key,
    in place. *)
Lemma getOrCreate_keeps_live key env now (p : Pool.t World LogSt) ck e :
  entriesOf p !! ck = Some e ->
  now - LRUCache.start e <= ttlOf p ->
  let p' := (getOrCreate key env now p).2 in
  entriesOf p' !! ck = Some e /\ ttlOf p' = ttlOf p.
Proof.
  intros He Hlive.
  destruct (lookup_cases key now p) as [(e' & He' & Hl') | Hmiss].
  - by rewrite (getOrCreate_hit key env now p e' He' Hl').
  - rewrite (getOrCreate_miss key env now p Hmiss). unfold Pool.entriesOf, Pool.ttlOf. cbn [snd Pool.cache
      LRUCache.entries LRUCache.ttl]. split; [|done].
    destruct (decide (Pool.cacheKey key = ck)) as [<-|Hne].
    + specialize (Hmiss e He). lia.
    + by rewrite lookup_insert_ne.
Qed.

(** Requests in chronological order lie between the two ends. *)
Lemma chronological_bounds from requests to :
  Pool.chronological from requests to ->
  from <= to /\ Forall (fun r : Pool.Request LogSt Hook => from <= Pool.req_now r <= to) requests.
Proof.
  revert from. induction requests as [|r rest IH]; intros from; cbn [Pool.chronological].
  - intros H. split; [done | constructor].
  - intros [H1 H2]. destruct (IH _ H2) as [H3 H4]. split; [lia|].
    constructor; [lia|]. eapply Forall_impl; [exact H4|]. cbn. intros; lia.
Qed.

(** A live entry outlasts the requests made while it is live. *)
Lemma serve_keeps_live requests (p : Pool.t World LogSt) ck e :
  entriesOf p !! ck = Some e ->
  Forall (fun r : Pool.Request LogSt Hook => Pool.req_now r - LRUCache.start e <= ttlOf p)
    requests ->
  entriesOf (serve requests p) !! ck = Some e /\ ttlOf (serve requests p) = ttlOf p.
Proof.
  revert p. induction requests as [|r rest IH]; intros p He Hall; [done|].
  inversion Hall as [|? ? Hr Hrest]; subst.
  destruct (getOrCreate_keeps_live (Pool.req_key r) (Pool.req_env r) (Pool.req_now r)
              p ck e He Hr) as [He' Httl].
  destruct (IH _ He') as [H1 H2].
  - by rewrite Httl.
  - split; [exact H1 | exact (eq_trans H2 Httl)].
Qed.

(** [laterOr] is kept by every request. *)
Lemma getOrCreate_laterOr key env now (p : Pool.t World LogSt) ck e0 n :
  laterOr ck e0 n p ->
  laterOr ck e0 n (getOrCreate key env now p).2 /\
  ttlOf (getOrCreate key env now p).2 = ttlOf p.
Proof.
  intros [Hn He].
  destruct (lookup_cases key now p) as [(e' & He' & Hl') | Hmiss].
  - by rewrite (getOrCreate_hit key env now p e' He' Hl').
  - rewrite (getOrCreate_miss key env now p Hmiss).
    split; [|done]. split; cbn [snd Pool.constructed]; [lia|].
    unfold Pool.entriesOf. cbn [Pool.cache LRUCache.entries]. intros e.
    destruct (decide (Pool.cacheKey key = ck)) as [<-|Hne].
    + rewrite lookup_insert_eq. intros [= <-]. right. cbn. lia.
    + rewrite lookup_insert_ne by done. apply He.
Qed.

(** ... and by every sequence of requests. *)
Lemma serve_laterOr requests (p : Pool.t World LogSt) ck e0 n :
  laterOr ck e0 n p ->
  laterOr ck e0 n (serve requests p) /\ ttlOf (serve requests p) = ttlOf p.
Proof.
  revert p. induction requests as [|r rest IH]; intros p Hinv; [done|].
  destruct (getOrCreate_laterOr (Pool.req_key r) (Pool.req_env r) (Pool.req_now r)
              p ck e0 n Hinv) as [H1 H2].
  destruct (IH _ H1) as [H3 H4]. split; [exact H3|].
  exact (eq_trans H4 H2).
Qed.

(** The time to live of the pool's cache stays at five minutes. *)
Lemma getOrCreate_ttl key env now (p : Pool.t World LogSt) :
  ttlOf (getOrCreate key env now p).2 = ttlOf p.
Proof.
  destruct (lookup_cases key now p) as [(e & He & Hl) | Hmiss].
  - by rewrite (getOrCreate_hit key env now p e He Hl).
  - by rewrite (getOrCreate_miss key env now p Hmiss).
Qed.

Lemma serve_ttl requests :
  ttlOf (serve requests Pool.createProviderPool) = 300000.
Proof.
  assert (H : forall p : Pool.t World LogSt, ttlOf (serve requests p) = ttlOf p).
  { induction requests as [|r rest IH]; intros p; [done|].
    exact (eq_trans (IH _) (getOrCreate_ttl _ _ _ p)). }
  by rewrite H.
Qed.

(** C2 (amended): take a call of [getOrCreate] that constructs a client,
    and a later call whose key has the same JSON serialisation, with any
    requests to the pool in between. While the entry of the first call is
    live (at most 300000 ms old), the later call returns the very same
    instance; once it is older, the later call returns another instance,
    constructed after the first one, and newly constructed by that call
    when no request came in between. *)
Theorem getOrCreate_same_instance (pool : Pool.t World LogSt)
    (k1 k2 : Pool.ProviderCacheKey) (env1 env2 : Pool.Env LogSt Hook) (t1 t2 : Z)
    (between : list (Pool.Request LogSt Hook)) :
  Pool.cacheKey k1 = Pool.cacheKey k2 ->
  ttlOf pool = 1000 * 60 * 5 ->
  (LRUCache.get (Pool.cacheKey k1) t1 (Pool.cache pool)).1 = None ->
  Pool.chronological t1 between t2 ->
  let first := getOrCreate k1 env1 t1 pool in
  let second := getOrCreate k2 env2 t2 (serve between first.2) in
  (t2 - t1 <= 300000 -> second.1 = first.1) /\
  (300000 < t2 - t1 ->
     Pool.ref second.1 <> Pool.ref first.1 /\
     (Pool.constructed first.2 <= Pool.ref second.1)%nat /\
     (between = [] -> Pool.ref second.1 = Pool.constructed first.2)).
Proof.
  intros Hkey Httl Hmiss Hchron first second.
  assert (Hfirst : first =
    (construct k1 env1 pool,
     {| Pool.cache :=
          {| LRUCache.ttl := ttlOf pool;
             LRUCache.entries :=
               <[Pool.cacheKey k1 :=
                   {| LRUCache.value := construct k1 env1 pool; LRUCache.start := t1 |}]>
                 (entriesOf pool) |};
        Pool.constructed := S (Pool.constructed pool) |})).
  { apply getOrCreate_miss. intros e He. unfold LRUCache.get in Hmiss.
    unfold Pool.entriesOf in He. rewrite He in Hmiss. unfold LRUCache.isStale in Hmiss.
    fold (Pool.ttlOf pool) in Hmiss.
    destruct (Z.ltb_spec (ttlOf pool) (t1 - LRUCache.start e)); [done | discriminate]. }
  set (c1 := construct k1 env1 pool) in *.
  set (e1 := {| LRUCache.value := c1; LRUCache.start := t1 |}) in *.
  destruct (chronological_bounds _ _ _ Hchron) as [Ht Hall].
  assert (He1 : entriesOf first.2 !! Pool.cacheKey k1 = Some e1).
  { rewrite Hfirst. unfold Pool.entriesOf. cbn. apply lookup_insert_eq. }
  assert (Httl1 : ttlOf first.2 = 300000).
  { rewrite Hfirst. unfold Pool.ttlOf at 1. cbn [snd Pool.cache LRUCache.ttl]. lia. }
  split.
  - intros Hlive.
    destruct (serve_keeps_live between first.2 (Pool.cacheKey k1) e1 He1) as [H1 H2].
    { eapply Forall_impl; [exact Hall|]. cbn. intros r Hr. rewrite Httl1. lia. }
    unfold second. rewrite (getOrCreate_hit k2 env2 t2 _ e1).
    + rewrite Hfirst. done.
    + by rewrite <- Hkey.
    + rewrite H2, Httl1. cbn. lia.
  - intros Hexpired.
    assert (Hinv : laterOr (Pool.cacheKey k1) e1 (Pool.constructed first.2) first.2).
    { split; [done|]. intros e He. left. congruence. }
    destruct (serve_laterOr between _ _ _ _ Hinv) as [[Hn He] Httl2].
    assert (Hc1 : Pool.ref first.1 = Pool.constructed pool) by (by rewrite Hfirst).
    assert (Hn1 : Pool.constructed first.2 = S (Pool.constructed pool)) by (by rewrite Hfirst).
    assert (Hge : (Pool.constructed first.2 <= Pool.ref second.1)%nat).
    { unfold second.
      destruct (lookup_cases k2 t2 (serve between first.2))
        as [(e & Hek & Hl) | Hm].
      - rewrite (getOrCreate_hit k2 env2 t2 _ e Hek Hl). cbn [fst].
        rewrite <- Hkey in Hek. destruct (He e Hek) as [-> | Hlater]; [|done].
        rewrite Httl2, Httl1 in Hl. cbn in Hl. lia.
      - rewrite (getOrCreate_miss k2 env2 t2 _ Hm). cbn. lia. }
    split; [lia|]. split; [done|].
    intros ->. unfold second. cbn [Pool.serve foldl].
    rewrite (getOrCreate_miss k2 env2 t2 first.2).
    + done.
    + intros e. rewrite <- Hkey, He1. intros [= <-]. rewrite Httl1. cbn. lia.
Qed.
End PoolFacts.

(** ** Host configuration objects *)

Section HeapFacts.
Import Configuration.

(** A configuration that is not switched on is copied. *)
Lemma gate_disabled (h : Heap) (config : nat) en dbg provs :
  h !! config = Some (configurationObject en dbg provs) ->
  default false en = false ->
  gate h config =
    (h ++ [providersObject []; configurationObject en dbg (Some (length h))], S (length h)).
Proof. unfold gate. intros -> ->. done. Qed.

(** One that is switched on is used as it is. *)
Lemma gate_enabled (h : Heap) (config : nat) dbg provs :
  h !! config = Some (configurationObject (Some true) dbg provs) ->
  gate h config = (h, config).
Proof. unfold gate. intros ->. done. Qed.

(** The two objects of the copy. *)
Lemma lookup_alloc_fst (h : Heap) (a b : Object) : (h ++ [a; b]) !! length h = Some a.
Proof. by apply list_lookup_middle. Qed.

Lemma lookup_alloc_snd (h : Heap) (a b : Object) : (h ++ [a; b]) !! S (length h) = Some b.
Proof.
  rewrite lookup_app_r by lia.
  by replace (S (length h) - length h)%nat with 1%nat by lia.
Qed.

(** The copy resolves to a configuration without providers. *)
Lemma configuration_of_copy (h : Heap) en dbg :
  configurationFromUserInput
    (h ++ [providersObject []; configurationObject en dbg (Some (length h))]) (S (length h))
  = Some {| debug := default false dbg; providers := [] |}.
Proof.
  unfold configurationFromUserInput.
  by rewrite lookup_alloc_snd, lookup_alloc_fst.
Qed.

(** Whatever [gate] does, the objects that were on the heap stay as they
    are. *)
Lemma gate_preserves (h : Heap) (config r : nat) (o : Object) :
  h !! r = Some o -> (gate h config).1 !! r = Some o.
Proof.
  unfold gate. intros Hr.
  destruct (h !! config) as [[en dbg provs|]|]; try done.
  destruct (negb _); [|done]. cbn [fst]. by apply lookup_app_l_Some.
Qed.
End HeapFacts.

(** ** Client facade *)

Section ClientFacts.
Import Configuration.
Context {World Hook : Type}.
Variable glob : string -> string -> bool.
Variable createTransport :
  string -> Transport.Options Client.Log Hook -> Transport.ProviderTransport World.
Variable env : Client.ClientEnv World Hook.

Local Abbreviation step := (Client.step glob createTransport env).
Local Abbreviation run := (Client.run glob createTransport env).
Local Abbreviation State := (Client.State World).
Local Abbreviation Stream := (Client.Stream World).
Local Abbreviation Slot := (Client.Slot World).
Local Abbreviation client1 := (Client1.createClient glob createTransport env).
Local Abbreviation client2 := (Client2.createClient glob createTransport env).

(** *** A configuration that is switched off *)

(** Without providers the combined result is the empty list. *)
Lemma observe_nil rq partial (fx : Effects World Client.Log) :
  Client.observe env rq partial [] fx = ([next []], fx).
Proof. unfold Client.observe. cbn. by destruct partial. Qed.

(** Putting back the logging side that is there changes nothing. *)
Lemma setLogs_logs (fx : Effects World Client.Log) : Client.setLogs fx (logs fx) = fx.
Proof. by destruct fx. Qed.

(** One provider list that comes out is fanned out once. *)
Lemma observeAll_one rq partial pcs (fx : Effects World Client.Log) :
  Client.observeAll env rq partial [pcs] fx = Client.observe env rq partial pcs fx.
Proof.
  unfold Client.observeAll. cbn [foldl].
  by destruct (Client.observe env rq partial pcs fx).
Qed.

(** The whole step for a configuration that is not switched on. *)
Lemma step_disabled (st : State) (j : nat) (s : Stream) (config : nat) en dbg provs :
  Client.streams st !! j = Some s ->
  Client.subscribed s = true ->
  Client.configurationDone s = false ->
  Client.heap st !! config = Some (configurationObject en dbg provs) ->
  default false en = false ->
  step st (Client.toStream j (Client.configuration (next config))) =
    Client.setStreams
      (Client.setShared st
         (Client.heap st ++
            [providersObject [];
             configurationObject en dbg (Some (length (Client.heap st)))])
         (Client.pool st) (Client.effects st))
      (<[j := Client.setInners s (Client.inners s ++ [[]]) [next []]]> (Client.streams st)).
Proof.
  intros Hj Hsub Hdone Hcfg Hoff.
  cbn [Client.step]. rewrite Hj, Hsub. cbn [Client.streamStep]. rewrite Hdone.
  rewrite (gate_disabled _ _ _ _ _ Hcfg Hoff), configuration_of_copy.
  unfold Client.providerClientsWithSettings. cbn [providers].
  rewrite observeAll_one, observe_nil, setLogs_logs.
  unfold Client.finish. cbn [Client.setInners Client.subscribed Client.configurationDone].
  rewrite Hsub, Hdone. done.
Qed.

(** A pull that is answered by such a configuration. *)
Lemma pull_disabled (st : State) (config : nat) en dbg provs
    (defaultValue : option (list Client.Entry)) (rq : Client.Request) :
  Client.heap st !! config = Some (configurationObject en dbg provs) ->
  default false en = false ->
  let j := length (Client.streams st) in
  let r := Client.firstValue glob createTransport env defaultValue j
             [Client.toStream j (Client.configuration (next config))]
             (step st (Client.subscribe rq false)) in
  r.1 = Some (Resolved []) /\
  Client.pool r.2 = Client.pool st /\
  Client.effects r.2 = Client.effects st.
Proof.
  intros Hcfg Hoff j r. subst r. unfold Client.firstValue. cbn [foldl].
  set (st0 := step st (Client.subscribe rq false)).
  set (s0 := {| Client.request := rq; Client.emitPartial := false;
                Client.subscribed := true; Client.configurationDone := false;
                Client.inners := []; Client.delivered := [] |} : Stream).
  assert (Hj : Client.streams st0 !! j = Some s0).
  { subst st0 j. cbn. by apply list_lookup_middle. }
  unfold Client.deliveredTo. rewrite Hj. cbn [Client.delivered s0].
  rewrite (step_disabled st0 j s0 config en dbg provs Hj eq_refl eq_refl Hcfg Hoff).
  unfold Client.deliveredTo. cbn [Client.setStreams Client.streams].
  assert (Hlt : (j < length (Client.streams st0))%nat) by (by eapply lookup_lt_Some).
  rewrite list_lookup_insert_eq by done.
  cbn [Client.setInners Client.delivered s0 app firstValueFrom fst snd].
  split; [done|].
  cbn [Client.step Client.setStreams Client.streams].
  rewrite list_lookup_insert_eq by done. done.
Qed.

(** C5: when the host's configuration has its [enable] flag false (or
    absent), the provider list of the request cycle is empty: a stream of
    items or annotations is delivered the empty list, the pull operations
    resolve to the empty list, and neither the pool (no client is
    constructed) nor the effects (no transport call, no log line) change,
    whatever providers the configuration lists. *)
Theorem disabled_configuration_is_empty (st : State) (config : nat) en dbg provs :
  Client.heap st !! config = Some (configurationObject en dbg provs) ->
  default false en = false ->
  (forall j (s : Stream),
     Client.streams st !! j = Some s ->
     Client.subscribed s = true ->
     Client.configurationDone s = false ->
     let st' := step st (Client.toStream j (Client.configuration (next config))) in
     Client.pool st' = Client.pool st /\
     Client.effects st' = Client.effects st /\
     exists s', Client.streams st' !! j = Some s' /\
                Client.inners s' = Client.inners s ++ [[]] /\
                Client.delivered s' = Client.delivered s ++ [next []]) /\
  (forall params,
     let script := [Client.toStream (length (Client.streams st))
                      (Client.configuration (next config))] in
     let settled (r : option (Outcome (list Client.Entry)) * State) :=
       r.1 = Some (Resolved []) /\
       Client.pool r.2 = Client.pool st /\
       Client.effects r.2 = Client.effects st in
     settled (Client1.items client1 params script st) /\
     settled (Client2.items client2 params script st) /\
     settled (Client2.annotations client2 params script st)).
Proof.
  intros Hcfg Hoff. split.
  - intros j s Hj Hsub Hdone st'. subst st'.
    rewrite (step_disabled st j s config en dbg provs Hj Hsub Hdone Hcfg Hoff).
    split; [done|]. split; [done|].
    eexists. split.
    + cbn [Client.setStreams Client.streams]. apply list_lookup_insert_eq.
      by eapply lookup_lt_Some.
    + done.
  - intros params script settled. subst settled script. cbv beta.
    split; [|split]; eapply pull_disabled; eassumption.
Qed.

(** *** Failing credentials *)

(** Once every slot has a value, the clients of the slots are emitted. *)
Lemma emission_clientsOf (slots : list Slot) :
  Forall (fun s => is_Some (Client.latest s)) slots ->
  Client.emission slots = Some (Client.clientsOf slots).
Proof.
  unfold Client.emission, Client.clientsOf.
  induction 1 as [|s slots [v Hv] _ IH]; [done|].
  cbn. rewrite Hv. cbn.
  destruct (mapM Client.latest slots) as [vs|]; [|done].
  cbn in *. injection IH as IH. rewrite <- IH. by destruct v.
Qed.

(** A failed slot has no client. *)
Lemma clientsOf_failed (slots : list Slot) (i : nat) (slot : Slot) :
  slots !! i = Some slot ->
  Client.clientsOf (<[i := Client.failedSlot slot]> slots) = Client.clientsOf (delete i slots).
Proof.
  unfold Client.clientsOf. revert i.
  induction slots as [|s slots IH]; intros [|i] Hi; try done.
  cbn in Hi. cbn [insert list_insert delete list_delete omap list_omap].
  destruct (default None (Client.latest s)); [f_equal|]; exact (IH i Hi).
Qed.

(** The fan-out only ever delivers values. *)
Lemma observe_only_next rq partial pcs (fx : Effects World Client.Log) :
  Forall (fun n => exists v, n = next v) (Client.observe env rq partial pcs fx).1.
Proof.
  unfold Client.observe. destruct (Client.contributions env rq pcs fx) as [cs fx'].
  cbn [fst]. apply Forall_fmap, Forall_forall. intros v _. by exists v.
Qed.

(** The failure of one provider's credentials in [combineLatest]: its slot
    turns to [null], the failure is logged, and the others come out. *)
Lemma notifyInner_error (now : Z) (i : nat) (e : Error) (slots : list Slot) (slot : Slot)
    (p : Pool.t World Client.Log) (l : Client.Log) :
  slots !! i = Some slot ->
  Client.finished slot = false ->
  (forall j s, j <> i -> slots !! j = Some s -> is_Some (Client.latest s)) ->
  Client.emission (<[i := Client.failedSlot slot]> slots)
    = Some (Client.clientsOf (delete i slots)) /\
  Client.notifyInner glob createTransport env now i (error e) slots p l =
    (<[i := Client.failedSlot slot]> slots, p,
     Client.logger env
       ("Error creating provider client for " +:+ providerUri (Client.provider slot) +:+
        ": " +:+ errorToString e) l,
     [Client.clientsOf (delete i slots)]).
Proof.
  intros Hi Hfin Hothers.
  assert (Hem : Client.emission (<[i := Client.failedSlot slot]> slots)
                = Some (Client.clientsOf (delete i slots))).
  { rewrite emission_clientsOf.
    - by rewrite (clientsOf_failed _ _ _ Hi).
    - apply Forall_lookup. intros j s Hj.
      destruct (decide (j = i)) as [->|Hne].
      + rewrite list_lookup_insert_eq in Hj by (by eapply lookup_lt_Some).
        injection Hj as <-. by eexists.
      + rewrite list_lookup_insert_ne in Hj by done. by eapply Hothers. }
  split; [exact Hem|].
  unfold Client.notifyInner. rewrite Hi, Hfin.
  cbn [Client.notifySlot]. by rewrite Hem.
Qed.

(** *** The pull operations on a stream that completes empty *)

(** The configuration observable completes before it has emitted. *)
Lemma step_configuration_complete (st : State) (j : nat) (s : Stream) :
  Client.streams st !! j = Some s ->
  Client.subscribed s = true ->
  Client.configurationDone s = false ->
  Client.inners s = [] ->
  Client.deliveredTo j (step st (Client.toStream j (Client.configuration complete)))
    = Client.delivered s ++ [complete].
Proof.
  intros Hj Hsub Hdone Hin. cbn [Client.step]. rewrite Hj, Hsub.
  cbn [Client.streamStep]. rewrite Hdone. unfold Client.finish.
  cbn [Client.subscribed Client.configurationDone Client.inners]. rewrite Hsub, Hin.
  unfold Client.deliveredTo. cbn [Client.setStreams Client.streams forallb andb].
  rewrite list_lookup_insert_eq by (by eapply lookup_lt_Some). done.
Qed.

(** A pull on such a stream settles as [firstValueFrom] does on a
    completion. *)
Lemma pull_empty (st : State) (defaultValue : option (list Client.Entry))
    (rq : Client.Request) :
  let j := length (Client.streams st) in
  (Client.firstValue glob createTransport env defaultValue j
     [Client.toStream j (Client.configuration complete)]
     (step st (Client.subscribe rq false))).1
  = firstValueFrom defaultValue [complete].
Proof.
  intros j. unfold Client.firstValue. cbn [foldl fst].
  set (st0 := step st (Client.subscribe rq false)).
  set (s0 := {| Client.request := rq; Client.emitPartial := false;
                Client.subscribed := true; Client.configurationDone := false;
                Client.inners := []; Client.delivered := [] |} : Stream).
  assert (Hj : Client.streams st0 !! j = Some s0).
  { subst st0 j. cbn. by apply list_lookup_middle. }
  replace (Client.deliveredTo j st0) with (@nil (Notification (list Client.Entry)))
    by (unfold Client.deliveredTo; by rewrite Hj).
  by rewrite (step_configuration_complete st0 j s0 Hj).
Qed.

(** C6: when the combined stream completes without a value, [items] of
    the first listing, which gives [firstValueFrom] no default, rejects
    with [EmptyError], while [items] of the second listing resolves to the
    empty list. *)
Theorem items_of_empty_stream (st : State) (params : ItemsParams) :
  let script := [Client.toStream (length (Client.streams st))
                   (Client.configuration complete)] in
  (Client1.items client1 params script st).1 = Some (Rejected EmptyError) /\
  (Client2.items client2 params script st).1 = Some (Resolved []).
Proof.
  intros script. split.
  - apply (pull_empty st None).
  - apply (pull_empty st (Some [])).
Qed.

(** *** The heap *)

(** No event changes an object that is on the heap. *)
Lemma step_preserves_heap (st : State) (ev : Client.Event) (r : nat) (o : Object) :
  Client.heap st !! r = Some o -> Client.heap (step st ev) !! r = Some o.
Proof.
  intros Hr. destruct ev as [rq partial | j | j sev | n | | dt]; cbn [Client.step]; try done.
  - destruct (Client.streams st !! j); done.
  - destruct (Client.streams st !! j) as [s|]; [|done].
    destruct (Client.subscribed s); [|done].
    destruct sev as [n | k i n]; cbn [Client.streamStep].
    + destruct (Client.configurationDone s); [done|].
      destruct n as [config | e |]; try done.
      pose proof (gate_preserves (Client.heap st) config r o Hr) as Hg.
      destruct (gate (Client.heap st) config) as [h' config'].
      destruct (configurationFromUserInput h' config') as [cfg|]; [|done].
      destruct (Client.providerClientsWithSettings _ _ _ _ _ _ _) as [[[slots p'] l'] lists].
      by destruct (Client.observeAll _ _ _ _ _).
    + destruct (Client.inners s !! k) as [slots|]; [|done].
      destruct (Client.notifyInner _ _ _ _ _ _ _ _ _) as [[[slots' p'] l'] lists].
      by destruct (Client.observeAll _ _ _ _ _).
  - unfold Client.debugStep. destruct (Client.debugSource st); [|done].
    destruct n as [config | e |]; try done.
    destruct (configurationFromUserInput _ _); [|done]. by destruct (decide _).
Qed.

(** C10: no event changes an object that is on the heap, so the host's
    configuration object and its providers keep all their fields; and for
    a configuration that is not switched on, the object that is resolved
    is a new one with the host's [enable] and [debug] and with a new,
    empty providers object. *)
Theorem host_configuration_is_not_mutated (st : State) (ev : Client.Event) :
  (forall r o, Client.heap st !! r = Some o -> Client.heap (step st ev) !! r = Some o) /\
  (forall config en dbg provs,
     Client.heap st !! config = Some (configurationObject en dbg provs) ->
     default false en = false ->
     let copied := gate (Client.heap st) config in
     (length (Client.heap st) <= copied.2)%nat /\
     (exists r,
        (length (Client.heap st) <= r)%nat /\
        copied.1 !! copied.2 = Some (configurationObject en dbg (Some r)) /\
        copied.1 !! r = Some (providersObject [])) /\
     configurationFromUserInput copied.1 copied.2
       = Some {| debug := default false dbg; providers := [] |}).
Proof.
  split.
  - intros r o. apply step_preserves_heap.
  - intros config en dbg provs Hcfg Hoff copied. subst copied.
    rewrite (gate_disabled _ _ _ _ _ Hcfg Hoff). cbn [fst snd].
    split; [lia|]. split.
    + exists (length (Client.heap st)).
      split; [lia|]. split; [apply lookup_alloc_snd | apply lookup_alloc_fst].
    + apply configuration_of_copy.
Qed.
End ClientFacts.

(* ===================================================================== *)
(** * The properties on the sample data *)
(* ===================================================================== *)

(** The documented examples: a Go file is matched by the Go selector, a
    TypeScript file is not; the empty array matches nothing. *)
Example matchSelectors_go :
  SelectorMatcher.matchSelectors Sample.glob (Some [Sample.goSelector]) Sample.goFile = true.
Proof. reflexivity. Qed.

Example matchSelectors_ts :
  SelectorMatcher.matchSelectors Sample.glob (Some [Sample.goSelector]) Sample.tsFile = false.
Proof. reflexivity. Qed.

(** Two selectors of which only one is satisfied reject the resource: the
    array is a conjunction. *)
Example matchSelectors_conjunction :
  SelectorMatcher.matchSelectors Sample.glob
    (Some [Sample.goSelector; {| path := Some "**/*.ts"; contentContains := None |}])
    Sample.goFile = false.
Proof. reflexivity. Qed.

(** The Go file satisfies the Go selector and not the TypeScript one: the
    array of the two rejects it, where a disjunction would accept it. *)
Lemma matchSelectors_all_satisfied_witness :
  let tsSelector := {| path := Some "**/*.ts"; contentContains := None |} in
  let sels := [Sample.goSelector; tsSelector] in
  SelectorMatcher.satisfies Sample.glob Sample.goFile Sample.goSelector /\
  ~ SelectorMatcher.satisfies Sample.glob Sample.goFile tsSelector /\
  (SelectorMatcher.matchSelectors Sample.glob (Some sels) Sample.goFile = true <->
   Forall (SelectorMatcher.satisfies Sample.glob Sample.goFile) sels) /\
  SelectorMatcher.matchSelectors Sample.glob (Some sels) Sample.goFile = false /\
  SelectorMatcher.matchSelectors Sample.glob (Some [Sample.goSelector])
    {| uri := "file:///a/b.go"; content := None |} = false.
Proof.
  intros tsSelector sels.
  assert (Hts : ~ SelectorMatcher.satisfies Sample.glob Sample.goFile tsSelector).
  { intros [Hpath _]. specialize (Hpath _ eq_refl). discriminate. }
  destruct (matchSelectors_all_satisfied Sample.glob sels Sample.goFile)
    as (Hiff & Hnot & _); [discriminate|].
  destruct (matchSelectors_all_satisfied Sample.glob [Sample.goSelector]
              {| uri := "file:///a/b.go"; content := None |})
    as (_ & _ & Hclosed); [discriminate|].
  split.
  - apply (matchSelector_satisfies Sample.glob). reflexivity.
  - split; [exact Hts|]. split; [exact Hiff|]. split.
    + apply (Hnot tsSelector); [|exact Hts]. apply list_elem_of_In. right. by left.
    + apply (Hclosed Sample.goSelector "prometheus"); [|reflexivity|reflexivity].
      apply list_elem_of_In. by left.
Defined.

Lemma annotations_gated_witness :
  let r := ProviderClient.annotations
             (ProviderClient.createProviderClient Sample.glob Sample.createTransport
                Sample.never (Sample.options (LogSt:=list string)))
             Sample.goFile [] Sample.fx0 in
  r.1 = Resolved None /\
  r.1 <> Resolved (Some []) /\
  world r.2 = 1%nat /\
  calls r.2 = [(Sample.never, capabilitiesMethod)].
Proof.
  apply (annotations_gated Sample.glob Sample.createTransport Sample.never Sample.options
           Sample.goFile [] Sample.fx0 {| selector := Some [] |} 1%nat).
  - reflexivity.
  - right. reflexivity.
Defined.

Lemma annotations_capability_failure_witness :
  let r := ProviderClient.annotations
             (ProviderClient.createProviderClient Sample.glob Sample.createTransport
                Sample.broken (Sample.options (LogSt:=list string)))
             Sample.goFile [] Sample.fx0 in
  r.1 = Rejected (ThrownError "boom") /\
  world r.2 = 1%nat /\
  calls r.2 = [(Sample.broken, capabilitiesMethod)].
Proof.
  apply (annotations_capability_failure Sample.glob Sample.createTransport Sample.broken
           Sample.options Sample.goFile [] Sample.fx0 (ThrownError "boom") 1%nat).
  reflexivity.
Defined.

Lemma logging_keeps_outcome_witness :
  Promise.sameButLogs
    (ProviderClient.annotations
       (ProviderClient.createProviderClient Sample.glob Sample.createTransport Sample.good
          (ProviderClient.setLogger Sample.options (Some Sample.keep)))
       Sample.goFile [] Sample.fx0)
    (ProviderClient.annotations
       (ProviderClient.createProviderClient Sample.glob Sample.createTransport Sample.good
          (ProviderClient.setLogger Sample.options None))
       Sample.goFile [] Sample.fx0).
Proof.
  apply (logging_keeps_outcome Sample.glob Sample.createTransport Sample.good Sample.options
           Sample.keep Sample.goFile [] Sample.fx0).
  intros providerUri o l. repeat split.
Defined.

(** With the logger the messages are kept, so the two runs do differ on
    the logging side. *)
Example logging_is_observed :
  logs (ProviderClient.annotations
          (ProviderClient.createProviderClient Sample.glob Sample.createTransport Sample.never
             (ProviderClient.setLogger Sample.options (Some Sample.keep)))
          Sample.goFile [] Sample.fx0).2
  = ["providerClient(https://example.com/never): checking provider capabilities";
     "providerClient(https://example.com/never): received capabilities = {" +:+
       JSON.quote "selector" +:+ ":[]}";
     "providerClient(https://example.com/never): skipping items for " +:+
       JSON.quote "file:///a/b.go" +:+ " because it did not match the provider's selector"].
Proof. reflexivity. Qed.

Lemma getOrCreate_same_instance_witness :
  let between := [{| Pool.req_key := Sample.otherKey; Pool.req_env := Sample.poolEnv;
                     Pool.req_now := 1000 |}] in
  let first := Pool.getOrCreate Sample.glob Sample.createTransport
                 Sample.keyAB Sample.poolEnv 0 Sample.pool0 in
  let second := Pool.getOrCreate Sample.glob Sample.createTransport
                  Sample.keyAB Sample.poolEnv 2000
                  (Pool.serve Sample.glob Sample.createTransport between first.2) in
  second.1 = first.1.
Proof.
  refine (proj1 (getOrCreate_same_instance Sample.glob Sample.createTransport Sample.pool0
                   Sample.keyAB Sample.keyAB Sample.poolEnv Sample.poolEnv 0 2000
                   [{| Pool.req_key := Sample.otherKey; Pool.req_env := Sample.poolEnv;
                       Pool.req_now := 1000 |}] _ _ _ _) _).
  - reflexivity.
  - reflexivity.
  - vm_compute. reflexivity.
  - cbn. lia.
  - lia.
Defined.

(** C2, as stated, fails: two keys that are structurally equal, their
    headers being listed in a different order, get two instances within the
    time to live. *)
Lemma getOrCreate_header_order_counterexample :
  Pool.structurallyEqual Sample.keyAB Sample.keyBA /\
  let first := Pool.getOrCreate Sample.glob Sample.createTransport
                 Sample.keyAB Sample.poolEnv 0 Sample.pool0 in
  let second := Pool.getOrCreate Sample.glob Sample.createTransport
                  Sample.keyBA Sample.poolEnv 1000 first.2 in
  1000 - 0 <= 300000 /\ Pool.ref second.1 <> Pool.ref first.1.
Proof.
  split.
  - split; [reflexivity|]. cbn. intros name. cbn.
    rewrite insert_insert_ne by done. done.
  - cbv zeta. split; [lia|]. vm_compute. discriminate.
Qed.

Lemma disabled_configuration_is_empty_witness :
  let script := [Client.toStream 1 (Client.configuration (next 2%nat))] in
  let r := Client2.annotations
             (Client2.createClient Sample.glob Sample.createTransport Sample.env)
             Sample.goFile script Sample.watching in
  r.1 = Some (Resolved []) /\
  Client.pool r.2 = Client.pool Sample.watching /\
  Client.effects r.2 = Client.effects Sample.watching.
Proof.
  apply (disabled_configuration_is_empty Sample.glob Sample.createTransport Sample.env
           Sample.watching 2%nat (Some false) (Some true) (Some 0%nat) eq_refl eq_refl).
Defined.

(** The same host with the configuration that is switched on: two
    providers are called. *)
Example enabled_configuration_calls :
  let r := Client2.items
             (Client2.createClient Sample.glob Sample.createTransport Sample.env)
             Sample.goFile [Client.toStream 1 (Client.configuration (next 1%nat))]
             Sample.watching in
  r.1 = Some (Resolved [Client.anItem Sample.anItem; Client.anItem Sample.anItem]) /\
  calls (Client.effects r.2)
  = [(Sample.good, itemsMethod); (Sample.never, itemsMethod); (Sample.broken, itemsMethod)].
Proof. vm_compute. done. Qed.

Lemma host_configuration_is_not_mutated_witness :
  let ev := Client.toStream 0 (Client.configuration (next 2%nat)) in
  Client.heap (Sample.step Sample.env Sample.watching ev) !! 2%nat
    = Some (Configuration.configurationObject (Some false) (Some true) (Some 0%nat)) /\
  Configuration.configurationFromUserInput
    (Configuration.gate (Client.heap Sample.watching) 2).1
    (Configuration.gate (Client.heap Sample.watching) 2).2
    = Some {| Configuration.debug := true; Configuration.providers := [] |}.
Proof.
  destruct (host_configuration_is_not_mutated Sample.glob Sample.createTransport Sample.env
              Sample.watching (Client.toStream 0 (Client.configuration (next 2%nat))))
    as [Hkeep Hcopy].
  split.
  - apply Hkeep. reflexivity.
  - apply (Hcopy 2%nat (Some false) (Some true) (Some 0%nat) eq_refl eq_refl).
Defined.

(* ===================================================================== *)
(** * Further properties *)
(* ===================================================================== *)

Section DelegationFacts.
Context {World LogSt Hook : Type}.
Variable glob : string -> string -> bool.
Variable createTransport :
  string -> Transport.Options LogSt Hook -> Transport.ProviderTransport World.

Local Abbreviation createProviderClient :=
  (ProviderClient.createProviderClient glob createTransport).
Local Abbreviation transport := (ProviderClient.transport createTransport).

Ltac run_promise :=
  cbn [ProviderClient.createProviderClient ProviderClient.items ProviderClient.annotations];
  unfold Promise.bind, Promise.tryCatch, Promise.invoke, Promise.log, Promise.ret,
    Promise.reject; cbn [world logs calls].

(** X1. [items] asks the transport once and nothing else: it makes no
    capabilities request and applies no selector. It settles as the
    transport does, a rejection being passed on after one message to the
    scoped logger, if there is one. *)
Theorem items_delegates (providerUri : string)
    (options : ProviderClient.ProviderClientOptions LogSt Hook)
    (params : ItemsParams) (settings : ProviderSettings) (fx : Effects World LogSt) :
  let r := ProviderClient.items (createProviderClient providerUri options) params settings fx in
  let t := Transport.items (transport providerUri options) params settings (world fx) in
  r.1 = t.1 /\
  world r.2 = t.2 /\
  calls r.2 = calls fx ++ [(providerUri, itemsMethod)] /\
  logs r.2 =
    match t.1, ProviderClient.logger options with
    | Rejected e, Some l =>
        l (("providerClient(" +:+ providerUri +:+ ")") +:+ ": " +:+
           ("failed to get items: " +:+ errorToString e)) (logs fx)
    | _, _ => logs fx
    end.
Proof.
  run_promise. unfold ProviderClient.scoped, scopedLogger.
  destruct (Transport.items _ params settings (world fx)) as [[r|e] w];
    destruct (ProviderClient.logger options); done.
Qed.

(** X2. When the capabilities request resolves and the selectors accept
    the resource, [annotations] asks the transport for the annotations in
    the world the capabilities request has left, and settles as that
    request does: the calls are the capabilities, then the annotations. *)
Theorem annotations_accepted (providerUri : string)
    (options : ProviderClient.ProviderClientOptions LogSt Hook)
    (params : AnnotationsParams) (settings : ProviderSettings)
    (fx : Effects World LogSt) (capabilities : CapabilitiesResult) (w : World) :
  Transport.capabilities (transport providerUri options) tt settings (world fx)
    = (Resolved capabilities, w) ->
  SelectorMatcher.matchSelectors glob (selector capabilities) params = true ->
  let r := ProviderClient.annotations (createProviderClient providerUri options)
             params settings fx in
  let t := Transport.annotations (transport providerUri options) params settings w in
  r.1 = t.1 /\
  world r.2 = t.2 /\
  calls r.2 = calls fx ++ [(providerUri, capabilitiesMethod); (providerUri, annotationsMethod)].
Proof.
  intros Hcap Hm r t.
  pose proof (annotations_spec glob createTransport providerUri options params settings fx) as H.
  by rewrite Hcap, Hm in H.
Qed.
End DelegationFacts.



Section CacheKeyFacts.

Lemma append_cons (c : ascii) (a b : string) : String c a +:+ b = String c (a +:+ b).
Proof. reflexivity. Qed.

Lemma append_nil (b : string) : EmptyString +:+ b = b.
Proof. reflexivity. Qed.

Lemma append_assoc (a b c : string) : (a +:+ b) +:+ c = a +:+ (b +:+ c).
Proof.
  induction a as [|x a IH]; [done|]. rewrite !append_cons. by rewrite IH.
Qed.

Lemma readChar_escapeChar (c : ascii) (rest : string) :
  JSONRead.readChar (JSON.escapeChar c +:+ rest) = Some (c, rest).
Proof.
  destruct c as [[] [] [] [] [] [] [] []]; reflexivity.
Qed.

Lemma escape_inj (s1 s2 r1 r2 : string) :
  JSON.escape s1 +:+ String JSON.dq r1 = JSON.escape s2 +:+ String JSON.dq r2 ->
  s1 = s2 /\ r1 = r2.
Proof.
  revert s2. induction s1 as [|c1 s1 IH]; intros [|c2 s2] H; cbn [JSON.escape] in H.
  - rewrite !append_nil in H. by injection H.
  - rewrite append_assoc in H. apply (f_equal JSONRead.readChar) in H.
    rewrite readChar_escapeChar in H. discriminate.
  - rewrite append_assoc in H. apply (f_equal JSONRead.readChar) in H.
    rewrite readChar_escapeChar in H. discriminate.
  - rewrite !append_assoc in H. apply (f_equal JSONRead.readChar) in H.
    rewrite !readChar_escapeChar in H. injection H as -> H.
    destruct (IH _ H) as [-> ->]. done.
Qed.

Lemma quote_inj (s1 s2 r1 r2 : string) :
  JSON.quote s1 +:+ r1 = JSON.quote s2 +:+ r2 -> s1 = s2 /\ r1 = r2.
Proof.
  unfold JSON.quote, JSON.str1.
  rewrite !append_cons, !append_nil, !append_assoc, !append_cons, !append_nil.
  intros H. injection H as H. by apply escape_inj.
Qed.

Lemma string_tail (c1 c2 : ascii) (a b : string) : String c1 a = String c2 b -> a = b.
Proof. intros H. by injection H. Qed.

Ltac flatten_in H :=
  repeat first [ rewrite append_assoc in H | rewrite append_cons in H | rewrite append_nil in H ].

Lemma quote_head (s r : string) : exists t, JSON.quote s +:+ r = String JSON.dq t.
Proof. unfold JSON.quote, JSON.str1. rewrite append_cons. by eexists. Qed.

Lemma commaSep_cons (m : string) (ms : list string) (r : string) :
  JSON.commaSep (m :: ms) +:+ r =
  m +:+ match ms with [] => r | _ => "," +:+ (JSON.commaSep ms +:+ r) end.
Proof.
  destruct ms as [|m' ms]; [done|].
  change (JSON.commaSep (m :: m' :: ms)) with (m +:+ "," +:+ JSON.commaSep (m' :: ms)).
  by rewrite !append_assoc.
Qed.

Lemma headerMember_pair (k v : string) :
  JSONRead.headerMember (k, v) = JSON.quote k +:+ ":" +:+ JSON.quote v.
Proof. reflexivity. Qed.

Lemma headers_body_inj (hs1 hs2 : list (string * string)) (r1 r2 : string) :
  JSON.commaSep (JSONRead.headerMember <$> hs1) +:+ String "}" r1
    = JSON.commaSep (JSONRead.headerMember <$> hs2) +:+ String "}" r2 ->
  hs1 = hs2 /\ r1 = r2.
Proof.
  revert hs2. induction hs1 as [|[k1 v1] hs1 IH]; intros [|[k2 v2] hs2] H.
  - cbn in H. rewrite !append_nil in H. by injection H.
  - exfalso. rewrite fmap_cons, commaSep_cons, headerMember_pair in H.
    cbn [fmap list_fmap JSON.commaSep] in H. flatten_in H.
    match type of H with _ = JSON.quote ?k +:+ ?r =>
      destruct (quote_head k r) as [t Ht]; rewrite Ht in H end.
    discriminate.
  - exfalso. rewrite fmap_cons, commaSep_cons, headerMember_pair in H.
    cbn [fmap list_fmap JSON.commaSep] in H. flatten_in H.
    match type of H with JSON.quote ?k +:+ ?r = _ =>
      destruct (quote_head k r) as [t Ht]; rewrite Ht in H end.
    discriminate.
  - rewrite !fmap_cons, !commaSep_cons, !headerMember_pair in H. flatten_in H.
    apply quote_inj in H as [-> H]. apply string_tail in H.
    apply quote_inj in H as [-> H].
    destruct hs1 as [|kv1 hs1], hs2 as [|kv2 hs2]; cbn [fmap list_fmap] in H.
    + by injection H as ->.
    + discriminate.
    + discriminate.
    + flatten_in H. apply string_tail in H.
      destruct (IH (kv2 :: hs2) H) as [-> ->]. done.
Qed.

Lemma stringifyHeaders_inj (hs1 hs2 : list (string * string)) (r1 r2 : string) :
  Pool.stringifyHeaders hs1 +:+ r1 = Pool.stringifyHeaders hs2 +:+ r2 ->
  hs1 = hs2 /\ r1 = r2.
Proof.
  unfold Pool.stringifyHeaders, JSON.object. fold JSONRead.headerMember.
  change (fun kv : string * string => JSON.member kv.1 (JSON.quote kv.2)) with JSONRead.headerMember.
  intros H. flatten_in H. apply string_tail in H. by apply headers_body_inj.
Qed.

Lemma stringifyAuthInfo_inj (a1 a2 : AuthInfo) (r1 r2 : string) :
  Pool.stringifyAuthInfo a1 +:+ r1 = Pool.stringifyAuthInfo a2 +:+ r2 ->
  a1 = a2 /\ r1 = r2.
Proof.
  destruct a1 as [[hs1|]], a2 as [[hs2|]];
    unfold Pool.stringifyAuthInfo, JSON.object, JSON.optMember, JSON.member;
    cbn [headers fmap option_fmap option_map JSON.commaSep]; intros H; flatten_in H;
    apply string_tail in H.
  - apply quote_inj in H as [_ H]. apply string_tail in H.
    apply stringifyHeaders_inj in H as [-> H]. by injection H as ->.
  - exfalso. match type of H with JSON.quote ?k +:+ ?r = _ =>
      destruct (quote_head k r) as [t Ht]; rewrite Ht in H end. discriminate.
  - exfalso. match type of H with _ = JSON.quote ?k +:+ ?r =>
      destruct (quote_head k r) as [t Ht]; rewrite Ht in H end. discriminate.
  - by injection H as ->.
Qed.

Lemma cacheKey_inj (k1 k2 : Pool.ProviderCacheKey) :
  Pool.cacheKey k1 = Pool.cacheKey k2 -> k1 = k2.
Proof.
  destruct k1 as [u1 [a1|]], k2 as [u2 [a2|]];
    unfold Pool.cacheKey, JSON.object, JSON.optMember, JSON.member;
    cbn [Pool.providerUri Pool.authInfo fmap option_fmap option_map app JSON.commaSep];
    intros H; flatten_in H; apply string_tail in H;
    apply quote_inj in H as [_ H]; apply string_tail in H;
    apply quote_inj in H as [-> H].
  - apply string_tail in H. apply quote_inj in H as [_ H]. apply string_tail in H.
    apply stringifyAuthInfo_inj in H as [-> _]. done.
  - discriminate.
  - discriminate.
  - done.
Qed.



(** X3. The text that [cacheKey] gives identifies the key: two keys have
    the same text exactly when they have the same provider URI and the
    same credentials, header for header and in the same order. *)
Theorem cacheKey_identifies (k1 k2 : Pool.ProviderCacheKey) :
  Pool.cacheKey k1 = Pool.cacheKey k2 <-> k1 = k2.
Proof.
  split; [apply cacheKey_inj | by intros ->].
Qed.
End CacheKeyFacts.

Section PoolHistoryFacts.
Context {World LogSt Hook : Type}.
Variable glob : string -> string -> bool.
Variable createTransport :
  string -> Transport.Options LogSt Hook -> Transport.ProviderTransport World.

Local Abbreviation getOrCreate := (Pool.getOrCreate glob createTransport).
Local Abbreviation construct := (Pool.construct glob createTransport).
Local Abbreviation serve := (Pool.serve glob createTransport).
Local Abbreviation clientFor := (PoolHistory.clientFor glob createTransport).
Local Abbreviation recorded := (PoolHistory.recorded glob createTransport).
Local Abbreviation origin := (@PoolHistory.origin LogSt Hook).

Lemma recorded_empty : recorded [] Pool.createProviderPool.
Proof.
  split; [done|]. intros ck e H.
  unfold Pool.entriesOf, Pool.createProviderPool, LRUCache.create in H.
  cbn [Pool.cache LRUCache.entries] in H. by rewrite lookup_empty in H.
Qed.

Lemma getOrCreate_recorded owners key env now (p : Pool.t World LogSt) :
  recorded owners p ->
  exists ext env',
    (ext = [] \/ ext = [(key, env)]) /\
    recorded (owners ++ ext) (getOrCreate key env now p).2 /\
    (owners ++ ext) !! Pool.ref (getOrCreate key env now p).1 = Some (key, env') /\
    Pool.client (getOrCreate key env now p).1 = clientFor key env'.
Proof.
  intros [Hlen Hrec].
  destruct (lookup_cases key now p) as [(e & He & Hl) | Hmiss].
  - rewrite (getOrCreate_hit glob createTransport key env now p e He Hl). cbn [fst snd].
    destruct (Hrec _ _ He) as (key' & env' & Hown & Hck & Hcl).
    apply cacheKey_inj in Hck as <-.
    exists [], env'. rewrite app_nil_r. repeat split; auto.
  - rewrite (getOrCreate_miss glob createTransport key env now p Hmiss). cbn [fst snd].
    exists [(key, env)], env. split; [by right|]. split; [|split].
    + split; [rewrite length_app; cbn; lia|].
      unfold Pool.entriesOf. cbn [Pool.cache LRUCache.entries]. intros ck e.
      destruct (decide (Pool.cacheKey key = ck)) as [<-|Hne].
      * rewrite lookup_insert_eq. intros [= <-]. exists key, env. cbn [LRUCache.value Pool.ref Pool.construct].
        split; [|done]. rewrite <- Hlen. by apply list_lookup_middle.
      * rewrite lookup_insert_ne by done. intros He.
        destruct (Hrec _ _ He) as (key' & env' & Hown & Hck & Hcl).
        exists key', env'. split; [|done]. by apply lookup_app_l_Some.
    + cbn [Pool.ref Pool.construct]. rewrite <- Hlen. by apply list_lookup_middle.
    + done.
Qed.

Lemma serve_recorded requests owners (p : Pool.t World LogSt) :
  recorded owners p ->
  exists ext, recorded (owners ++ ext) (serve requests p) /\ ext ⊆ origin <$> requests.
Proof.
  revert owners p. induction requests as [|r rest IH]; intros owners p Hrec.
  - exists []. rewrite app_nil_r. split; [done|]. set_solver.
  - destruct (getOrCreate_recorded owners (Pool.req_key r) (Pool.req_env r) (Pool.req_now r)
                p Hrec) as (ext1 & env' & Hext1 & Hrec1 & _).
    destruct (IH _ _ Hrec1) as (ext2 & Hrec2 & Hsub).
    exists (ext1 ++ ext2). rewrite app_assoc. split; [exact Hrec2|].
    rewrite fmap_cons. intros o Ho. apply elem_of_app in Ho as [Ho | Ho].
    + destruct Hext1 as [-> | ->]; [by apply elem_of_nil in Ho|].
      apply list_elem_of_singleton in Ho as ->. by left.
    + right. by apply Hsub.
Qed.

(** X4. Whatever requests a pool has served since it was created, the
    client it gives for a key was constructed for that very key: for its
    provider URI and its credentials, in the environment of this request
    or of an earlier request for the same key. *)
Theorem getOrCreate_client_of_key (requests : list (Pool.Request LogSt Hook))
    (key : Pool.ProviderCacheKey) (env : Pool.Env LogSt Hook) (now : Z) :
  let pool := serve requests Pool.createProviderPool in
  exists env',
    Pool.client (getOrCreate key env now pool).1 = clientFor key env' /\
    (env' = env \/ (key, env') ∈ origin <$> requests).
Proof.
  intros pool.
  destruct (serve_recorded requests [] Pool.createProviderPool recorded_empty)
    as (ext & Hrec & Hsub). fold pool in Hrec. cbn [app] in Hrec.
  destruct (getOrCreate_recorded ext key env now pool Hrec)
    as (ext1 & env' & Hext1 & _ & Hown & Hcl).
  exists env'. split; [exact Hcl|].
  apply list_elem_of_lookup_2 in Hown. apply elem_of_app in Hown as [Hin | Hin].
  - right. by apply Hsub.
  - left. destruct Hext1 as [-> | ->]; [by apply elem_of_nil in Hin|].
    apply list_elem_of_singleton in Hin. congruence.
Qed.

(** X5. Two requests with different keys never get the same instance,
    whatever the pool has served before and between them and whatever the
    clock reads. *)
Theorem getOrCreate_distinct_keys (before between : list (Pool.Request LogSt Hook))
    (k1 k2 : Pool.ProviderCacheKey) (env1 env2 : Pool.Env LogSt Hook) (t1 t2 : Z) :
  k1 <> k2 ->
  let first := getOrCreate k1 env1 t1 (serve before Pool.createProviderPool) in
  let second := getOrCreate k2 env2 t2 (serve between first.2) in
  Pool.ref first.1 <> Pool.ref second.1.
Proof.
  intros Hne first second.
  destruct (serve_recorded before [] Pool.createProviderPool recorded_empty)
    as (o0 & Hrec0 & _). cbn [app] in Hrec0.
  destruct (getOrCreate_recorded o0 k1 env1 t1 _ Hrec0)
    as (x1 & e1 & _ & Hrec1 & Hown1 & _). fold first in Hrec1, Hown1.
  destruct (serve_recorded between _ _ Hrec1) as (x2 & Hrec2 & _).
  destruct (getOrCreate_recorded _ k2 env2 t2 _ Hrec2)
    as (x3 & e2 & _ & _ & Hown2 & _). fold second in Hown2.
  intros Heq. rewrite <- Heq in Hown2.
  rewrite <- (app_assoc (o0 ++ x1) x2 x3) in Hown2.
  rewrite (lookup_app_l_Some _ _ _ _ Hown1) in Hown2. congruence.
Qed.
End PoolHistoryFacts.



Section PurgeFacts.
Context {World LogSt Hook : Type}.
Variable glob : string -> string -> bool.
Variable createTransport :
  string -> Transport.Options LogSt Hook -> Transport.ProviderTransport World.

Local Abbreviation getOrCreate := (Pool.getOrCreate glob createTransport).

Lemma purged_lookup (tp : Z) (pool : Pool.t World LogSt) ck e :
  Pool.entriesOf (PoolHistory.purged tp pool) !! ck = Some e <->
  Pool.entriesOf pool !! ck = Some e /\ tp - LRUCache.start e <= Pool.ttlOf pool.
Proof.
  unfold PoolHistory.purged, Pool.entriesOf, Pool.ttlOf, LRUCache.purgeStale.
  cbn [Pool.cache LRUCache.entries]. rewrite map_lookup_filter_Some. cbn [snd].
  unfold LRUCache.isStale. rewrite Z.ltb_ge. done.
Qed.

(** X6. The autopurge timers are not observable through [getOrCreate]:
    on a pool from which the entries that were stale at an earlier time
    have been removed, a request gets the same instance, constructs as
    many clients and leaves the same entry under its key. *)
Theorem autopurge_is_not_observable (tp now : Z) (pool : Pool.t World LogSt)
    (key : Pool.ProviderCacheKey) (env : Pool.Env LogSt Hook) :
  tp <= now ->
  let r := getOrCreate key env now pool in
  let r' := getOrCreate key env now (PoolHistory.purged tp pool) in
  r'.1 = r.1 /\
  Pool.constructed r'.2 = Pool.constructed r.2 /\
  Pool.entriesOf r'.2 !! Pool.cacheKey key = Pool.entriesOf r.2 !! Pool.cacheKey key.
Proof.
  intros Htp r r'. subst r r'.
  destruct (lookup_cases key now pool) as [(e & He & Hl) | Hmiss].
  - rewrite (getOrCreate_hit glob createTransport key env now pool e He Hl).
    assert (He' : Pool.entriesOf (PoolHistory.purged tp pool) !! Pool.cacheKey key = Some e).
    { apply purged_lookup. split; [done | lia]. }
    rewrite (getOrCreate_hit glob createTransport key env now _ e He' Hl). cbn [fst snd].
    by rewrite He, He'.
  - rewrite (getOrCreate_miss glob createTransport key env now pool Hmiss).
    rewrite (getOrCreate_miss glob createTransport key env now (PoolHistory.purged tp pool)).
    + cbn [fst snd]. unfold Pool.entriesOf. cbn [Pool.cache LRUCache.entries].
      by rewrite !lookup_insert_eq.
    + intros e He. apply purged_lookup in He as [He _]. by apply Hmiss.
Qed.
End PurgeFacts.

Section ExpiryFacts.
Context {World LogSt Hook : Type}.
Variable glob : string -> string -> bool.
Variable createTransport :
  string -> Transport.Options LogSt Hook -> Transport.ProviderTransport World.

Local Abbreviation getOrCreate := (Pool.getOrCreate glob createTransport).
Local Abbreviation serve := (Pool.serve glob createTransport).
Local Abbreviation clientFor := (PoolHistory.clientFor glob createTransport).

(** X7. A client that has been in the pool for more than five minutes
    is not given out again: the request constructs a client for its key
    and environment, an instance that differs from every instance the pool
    holds, and stores it under the key with the age starting anew. *)
Theorem expired_client_is_replaced (requests : list (Pool.Request LogSt Hook))
    (key : Pool.ProviderCacheKey) (env : Pool.Env LogSt Hook) (now : Z)
    (e : LRUCache.Entry (Pool.Instance World LogSt)) :
  let pool := serve requests Pool.createProviderPool in
  Pool.entriesOf pool !! Pool.cacheKey key = Some e ->
  1000 * 60 * 5 < now - LRUCache.start e ->
  let r := getOrCreate key env now pool in
  Pool.client r.1 = clientFor key env /\
  (forall ck e', Pool.entriesOf pool !! ck = Some e' ->
                 Pool.ref r.1 <> Pool.ref (LRUCache.value e')) /\
  Pool.constructed r.2 = S (Pool.constructed pool) /\
  Pool.entriesOf r.2 !! Pool.cacheKey key
    = Some {| LRUCache.value := r.1; LRUCache.start := now |}.
Proof.
  intros pool He Hold r. subst r.
  assert (Httl : Pool.ttlOf pool = 1000 * 60 * 5) by apply serve_ttl.
  destruct (serve_recorded glob createTransport requests [] Pool.createProviderPool
              (recorded_empty glob createTransport)) as (owners & [Hlen Hrec] & _).
  fold pool in Hlen, Hrec. cbn [app] in Hlen, Hrec.
  rewrite (getOrCreate_miss glob createTransport key env now pool).
  - cbn [fst snd Pool.constructed]. split; [done|]. split; [|split; [done|]].
    + intros ck e' He' Heq. destruct (Hrec _ _ He') as (k' & env' & Hown & _).
      apply lookup_lt_Some in Hown. cbn [Pool.construct Pool.ref] in Heq. lia.
    + unfold Pool.entriesOf. cbn [Pool.cache LRUCache.entries]. apply lookup_insert_eq.
  - intros e' He'. rewrite He in He'. injection He' as <-. lia.
Qed.
End ExpiryFacts.


Section StreamFacts.
Import Configuration.
Context {World Hook : Type}.
Variable glob : string -> string -> bool.
Variable createTransport :
  string -> Transport.Options Client.Log Hook -> Transport.ProviderTransport World.
Variable env : Client.ClientEnv World Hook.

Local Abbreviation step := (Client.step glob createTransport env).
Local Abbreviation run := (Client.run glob createTransport env).
Local Abbreviation State := (Client.State World).
Local Abbreviation Stream := (Client.Stream World).
Local Abbreviation Slot := (Client.Slot World).
Local Abbreviation client1 := (Client1.createClient glob createTransport env).
Local Abbreviation client2 := (Client2.createClient glob createTransport env).

(** *** combineLatest waits for every provider *)

Lemma emission_pending (slots : list Slot) (j : nat) (sj : Slot) :
  slots !! j = Some sj -> Client.latest sj = None -> Client.emission slots = None.
Proof.
  intros Hj Hnone. unfold Client.emission.
  assert (H : mapM Client.latest slots = None).
  { apply mapM_None. apply Exists_exists. exists sj. split; [|done].
    by eapply list_elem_of_lookup_2. }
  by rewrite H.
Qed.

Lemma notifyInner_waits (now : Z) (i : nat) (n : Notification (option AuthInfo))
    (slots : list Slot) (p : Pool.t World Client.Log) (l : Client.Log) (j : nat) (sj : Slot) :
  slots !! j = Some sj -> j <> i -> Client.latest sj = None ->
  (Client.notifyInner glob createTransport env now i n slots p l).2 = [].
Proof.
  intros Hj Hne Hnone. unfold Client.notifyInner.
  destruct (slots !! i) as [slot|] eqn:Hi; [|done].
  destruct (Client.finished slot); [done|].
  destruct (Client.notifySlot _ _ _ _ _ _ _ _) as [[slot' p'] l']. cbn [snd].
  destruct n as [a | e |]; [| |done];
    rewrite (emission_pending (<[i := slot']> slots) j sj); try done;
    by rewrite list_lookup_insert_ne.
Qed.

Lemma observeAll_nil rq partial (fx : Effects World Client.Log) :
  Client.observeAll env rq partial [] fx = ([], fx).
Proof. reflexivity. Qed.

Lemma finish_delivered (s : Stream) :
  Client.delivered (Client.finish s) = Client.delivered s \/
  Client.delivered (Client.finish s) = Client.delivered s ++ [complete].
Proof. unfold Client.finish. destruct (_ && _)%bool; [by right | by left]. Qed.

(** X8. [combineLatest] waits for every provider: while another
    provider of the configuration has no credentials yet, a credentials
    notification calls no provider, leaves the world as it is and delivers
    no value to the subscriber. *)
Theorem no_calls_until_all_resolved (st : State) (j : nat) (s : Stream) (k : nat)
    (slots : list Slot) (i : nat) (n : Notification (option AuthInfo))
    (i' : nat) (pending : Slot) :
  Client.streams st !! j = Some s ->
  Client.subscribed s = true ->
  Client.inners s !! k = Some slots ->
  slots !! i' = Some pending ->
  i' <> i ->
  Client.latest pending = None ->
  let st' := step st (Client.toStream j (Client.authInfo k i n)) in
  calls (Client.effects st') = calls (Client.effects st) /\
  world (Client.effects st') = world (Client.effects st) /\
  Forall (fun d => forall v, d <> next v)
    (drop (length (Client.delivered s)) (Client.deliveredTo j st')).
Proof.
  intros Hj Hsub Hk Hp Hne Hnone st'. subst st'.
  cbn [Client.step]. rewrite Hj, Hsub. cbn [Client.streamStep]. rewrite Hk.
  pose proof (notifyInner_waits (Client.clock st) i n slots (Client.pool st)
                (logs (Client.effects st)) i' pending Hp Hne Hnone) as Hw.
  destruct (Client.notifyInner _ _ _ _ _ _ _ _ _) as [[[slots' p'] l'] lists].
  cbn [snd] in Hw. subst lists. rewrite observeAll_nil.
  cbn [Client.setStreams Client.setShared Client.effects Client.setLogs calls world].
  split; [done|]. split; [done|].
  unfold Client.deliveredTo. cbn [Client.setStreams Client.setShared Client.streams].
  rewrite list_lookup_insert_eq by (by eapply lookup_lt_Some).
  destruct (finish_delivered (Client.setInners s (<[k:=slots']> (Client.inners s)) []))
    as [-> | ->]; cbn [Client.setInners Client.delivered]; rewrite app_nil_r.
  - by rewrite drop_all.
  - rewrite drop_app_length. repeat constructor. discriminate.
Qed.

(** *** The pull operations leave no subscription behind *)

Lemma step_streams_length (st : State) (ev : Client.Event) :
  (length (Client.streams st) <= length (Client.streams (step st ev)))%nat.
Proof.
  destruct ev as [rq partial | j | j sev | n | | dt]; cbn [Client.step]; try done.
  - cbn. rewrite length_app. lia.
  - destruct (Client.streams st !! j); [|done]. cbn. by rewrite length_insert.
  - destruct (Client.streams st !! j) as [s|]; [|done].
    destruct (Client.subscribed s); [|done].
    destruct (Client.streamStep _ _ _ _ _ _) as [s' st'] eqn:Hstep.
    cbn [Client.setStreams Client.streams]. rewrite length_insert.
    assert (Client.streams st' = Client.streams st) as ->; [|done].
    destruct sev as [n | k i n]; cbn [Client.streamStep] in Hstep.
    + destruct (Client.configurationDone s); [by injection Hstep as _ <-|].
      destruct n as [config | e |]; try (by injection Hstep as _ <-).
      destruct (gate (Client.heap st) config) as [h' config'].
      destruct (configurationFromUserInput h' config'); [|by injection Hstep as _ <-].
      destruct (Client.providerClientsWithSettings _ _ _ _ _ _ _) as [[[? ?] ?] ?].
      destruct (Client.observeAll _ _ _ _ _). by injection Hstep as _ <-.
    + destruct (Client.inners s !! k); [|by injection Hstep as _ <-].
      destruct (Client.notifyInner _ _ _ _ _ _ _ _ _) as [[[? ?] ?] ?].
      destruct (Client.observeAll _ _ _ _ _). by injection Hstep as _ <-.
  - unfold Client.debugStep. destruct (Client.debugSource st); [|done].
    destruct n as [config | e |]; try done.
    destruct (configurationFromUserInput _ _); [|done]. by destruct (decide _).
Qed.

(** Once something has been delivered the pull takes no further event. *)
Lemma firstValue_frozen (j : nat) (script : list Client.Event) (st : State) :
  Client.deliveredTo j st <> [] ->
  foldl (fun acc ev =>
           match Client.deliveredTo j acc with
           | [] => step acc ev
           | _ => acc
           end) st script = st.
Proof.
  intros Hne. induction script as [|ev script IH]; [done|].
  cbn [foldl]. by destruct (Client.deliveredTo j st).
Qed.

(** While nothing has been delivered the pull has taken every event. *)
Lemma firstValue_pending (j : nat) (script : list Client.Event) (st : State) :
  let st' := foldl (fun acc ev =>
                      match Client.deliveredTo j acc with
                      | [] => step acc ev
                      | _ => acc
                      end) st script in
  Client.deliveredTo j st' = [] -> st' = run st script.
Proof.
  revert st. induction script as [|ev script IH]; intros st; [done|].
  cbn [foldl Client.run]. destruct (Client.deliveredTo j st) eqn:Hd.
  - apply IH.
  - rewrite firstValue_frozen by (by rewrite Hd). by rewrite Hd.
Qed.

Lemma firstValue_settles (defaultValue : option (list Client.Entry)) (j : nat)
    (script : list Client.Event) (st : State) :
  (j < length (Client.streams st))%nat ->
  let r := Client.firstValue glob createTransport env defaultValue j script st in
  match r.1 with
  | Some _ =>
      (exists s, Client.streams r.2 !! j = Some s /\ Client.subscribed s = false) /\
      (forall ev, step r.2 (Client.toStream j ev) = r.2)
  | None => r.2 = run st script
  end.
Proof.
  intros Hj r. subst r. unfold Client.firstValue. cbn [fst snd].
  pose proof (firstValue_pending j script st) as Hpending. cbv zeta in Hpending.
  set (st' := foldl _ st script) in *.
  assert (Hj' : (j < length (Client.streams st'))%nat).
  { subst st'. clear -Hj. revert st Hj. induction script as [|ev script IH]; intros st Hj; [done|].
    cbn [foldl]. apply IH. destruct (Client.deliveredTo j st); [|done].
    eapply Nat.lt_le_trans; [exact Hj | apply step_streams_length]. }
  destruct (Client.deliveredTo j st') as [|n ns] eqn:Hd.
  - cbn [firstValueFrom]. by apply Hpending.
  - assert (Hsome : is_Some (firstValueFrom defaultValue (n :: ns))).
    { destruct n; cbn [firstValueFrom]; by eexists. }
    destruct Hsome as [o ->].
    destruct (lookup_lt_is_Some_2 _ _ Hj') as [s Hs].
    assert (Hclosed : Client.streams (step st' (Client.unsubscribe j)) !! j
                      = Some (Client.close s)).
    { cbn [Client.step]. rewrite Hs. cbn. by apply list_lookup_insert_eq. }
    set (closed := step st' (Client.unsubscribe j)) in *.
    split.
    + by exists (Client.close s).
    + intros ev. cbn [Client.step]. by rewrite Hclosed.
Qed.

(** X9. A pull unsubscribes when it settles, and only then: whatever the
    host's observables do while [items] or [annotations] waits, once the
    promise has settled the stream it subscribed to is unsubscribed and no
    later notification for that stream changes the state; while the
    promise is pending the subscription stays, and the client is in the
    state that the events have led to. *)
Theorem pull_unsubscribes_on_settling (st : State) (params : ResourceParams)
    (script : list Client.Event) :
  let j := length (Client.streams st) in
  let settling (rq : Client.Request)
      (r : option (Outcome (list Client.Entry)) * State) :=
    match r.1 with
    | Some _ =>
        (exists s, Client.streams r.2 !! j = Some s /\ Client.subscribed s = false) /\
        (forall ev, step r.2 (Client.toStream j ev) = r.2)
    | None => r.2 = run (step st (Client.subscribe rq false)) script
    end in
  settling (Client.itemsRequest params) (Client1.items client1 params script st) /\
  settling (Client.itemsRequest params) (Client2.items client2 params script st) /\
  settling (Client.annotationsRequest params)
    (Client2.annotations client2 params script st).
Proof.
  intros j settling. subst settling. cbv beta.
  assert (H : forall rq partial,
            (j < length (Client.streams (step st (Client.subscribe rq partial))))%nat).
  { intros rq partial. cbn. rewrite length_app. cbn. lia. }
  split; [|split].
  - apply (firstValue_settles None j script _ (H _ _)).
  - apply (firstValue_settles (Some []) j script _ (H _ _)).
  - apply (firstValue_settles (Some []) j script _ (H _ _)).
Qed.

(** *** The logger and the debug flag *)

Lemma logger_waiting (msgs : list string) (l : Client.Log) :
  Client.debugValue l = None ->
  foldl (fun acc m => Client.logger env m acc) l msgs =
    {| Client.hostLog := Client.hostLog l; Client.debugValue := None;
       Client.pendingLog := Client.pendingLog l ++ msgs |}.
Proof.
  revert l. induction msgs as [|m msgs IH]; intros l Hnone.
  - cbn. rewrite app_nil_r. destruct l; cbn in *; by subst.
  - cbn [foldl]. rewrite IH.
    + unfold Client.logger. rewrite Hnone. cbn. by rewrite <- app_assoc.
    + unfold Client.logger. by rewrite Hnone.
Qed.

Lemma envLogger_all (msgs : list string) (l : Client.Log) :
  foldl (fun acc m => Client.envLogger env m acc) l msgs =
    {| Client.hostLog := Client.hostLog l ++ (if Client.hasLogger env then msgs else []);
       Client.debugValue := Client.debugValue l;
       Client.pendingLog := Client.pendingLog l |}.
Proof.
  revert l. induction msgs as [|m msgs IH]; intros l.
  - cbn. destruct (Client.hasLogger env), l; cbn; by rewrite app_nil_r.
  - cbn [foldl]. rewrite IH. unfold Client.envLogger.
    destruct (Client.hasLogger env); cbn; [by rewrite <- app_assoc | done].
Qed.

(** X10. The messages logged before the [debug] observable has given its
    first value reach the host's logger only then, in their order and only
    if that value is true and the host has a logger; until then the host's
    log is untouched, and afterwards a message is passed on or dropped at
    once by the same test. *)
Theorem early_messages_follow_first_debug (msgs : list string) (d : bool) (l : Client.Log) :
  Client.debugValue l = None ->
  let waiting := foldl (fun acc m => Client.logger env m acc) l msgs in
  let decided := Client.debugNext env d waiting in
  Client.hostLog waiting = Client.hostLog l /\
  Client.hostLog decided =
    Client.hostLog l ++
    (if d && Client.hasLogger env then Client.pendingLog l ++ msgs else []) /\
  Client.pendingLog decided = [] /\
  forall m, Client.hostLog (Client.logger env m decided) =
            Client.hostLog decided ++ (if d && Client.hasLogger env then [m] else []).
Proof.
  intros Hnone waiting decided. subst decided waiting.
  rewrite (logger_waiting msgs l Hnone).
  unfold Client.debugNext. cbn [Client.debugValue Client.pendingLog Client.hostLog].
  split; [done|]. destruct d; cbn [andb].
  - rewrite envLogger_all. cbn [Client.hostLog]. split; [done|]. split; [done|].
    intros m. unfold Client.logger, Client.envLogger. cbn.
    destruct (Client.hasLogger env); cbn; by rewrite ?app_nil_r.
  - rewrite app_nil_r. split; [done|]. split; [done|].
    intros m. unfold Client.logger. cbn. by rewrite app_nil_r.
Qed.

(** *** Earlier configurations stay subscribed *)

(** X11. [mergeMap] keeps the earlier configurations subscribed: after
    a configuration that is switched off has arrived on a stream, a
    credentials notification for a provider of an earlier configuration
    has the effect it would have had without it, on the pool, on the
    providers called and the messages logged, and on the slots of that
    configuration. *)
Theorem disabled_configuration_keeps_earlier (st : State) (j : nat) (s : Stream)
    (config : nat) en dbg provs (k : nat) (slots : list Slot)
    (i : nat) (n : Notification (option AuthInfo)) :
  Client.streams st !! j = Some s ->
  Client.subscribed s = true ->
  Client.configurationDone s = false ->
  Client.heap st !! config = Some (configurationObject en dbg provs) ->
  default false en = false ->
  Client.inners s !! k = Some slots ->
  let credentials := Client.toStream j (Client.authInfo k i n) in
  let before := step st credentials in
  let after := step (step st (Client.toStream j (Client.configuration (next config))))
                 credentials in
  Client.pool after = Client.pool before /\
  Client.effects after = Client.effects before /\
  (exists sa sb,
     Client.streams after !! j = Some sa /\
     Client.streams before !! j = Some sb /\
     Client.inners sa !! k = Client.inners sb !! k).
Proof.
  intros Hj Hsub Hdone Hcfg Hoff Hk credentials before after.
  subst after before credentials.
  rewrite (step_disabled glob createTransport env st j s config en dbg provs
             Hj Hsub Hdone Hcfg Hoff).
  assert (Hlt : (j < length (Client.streams st))%nat) by (by eapply lookup_lt_Some).
  assert (Hklt : (k < length (Client.inners s))%nat) by (by eapply lookup_lt_Some).
  cbn [Client.step Client.setStreams Client.setShared Client.streams].
  rewrite list_lookup_insert_eq by done. rewrite Hj.
  cbn [Client.setInners Client.subscribed]. rewrite Hsub.
  cbn [Client.streamStep Client.inners Client.setInners Client.clock Client.pool
       Client.effects Client.request Client.emitPartial Client.heap].
  rewrite (lookup_app_l_Some _ _ _ _ Hk), Hk.
  destruct (Client.notifyInner _ _ _ _ _ _ _ _ _) as [[[slots' p'] l'] lists].
  destruct (Client.observeAll _ _ _ _ _) as [ns fx'].
  cbn [Client.setStreams Client.setShared Client.streams Client.pool Client.effects].
  split; [done|]. split; [done|].
  rewrite list_insert_insert_eq.
  eexists _, _. split; [by apply list_lookup_insert_eq|].
  split; [by apply list_lookup_insert_eq|].
  unfold Client.finish.
  repeat (destruct (_ && _)%bool; cbn [Client.inners Client.setInners]);
    rewrite ?insert_app_l by done;
    rewrite ?lookup_app_l by (by rewrite length_insert);
    done.
Qed.
End StreamFacts.



Section ResolutionFacts.
Import Configuration.
Context {World Hook : Type}.
Variable glob : string -> string -> bool.
Variable createTransport :
  string -> Transport.Options Client.Log Hook -> Transport.ProviderTransport World.
Variable env : Client.ClientEnv World Hook.

Local Abbreviation Slot := (Client.Slot World).
Local Abbreviation freshSlot := (@Resolution.freshSlot World).
Local Abbreviation settledSlot := (@Resolution.settledSlot World).
Local Abbreviation resolveAll := (Resolution.resolveAll glob createTransport env).
Local Abbreviation notifyInner := (Client.notifyInner glob createTransport env).
Local Abbreviation resolveClient := (Client.resolveClient glob createTransport env).

Lemma insert_middle {A} (pre : list A) (x y : A) (post : list A) :
  <[length pre := x]> (pre ++ y :: post) = pre ++ x :: post.
Proof.
  rewrite insert_app_r_alt by lia. by rewrite Nat.sub_diag.
Qed.

Lemma resolveAll_length now ps (pool : Pool.t World Client.Log) :
  length (resolveAll now ps pool).1 = length ps.
Proof.
  revert pool. induction ps as [|p ps IH]; intros pool; [done|].
  cbn [Resolution.resolveAll].
  destruct (Client.resolveClient _ _ _ _ _ _ _) as [pc pool1].
  specialize (IH pool1). destruct (Resolution.resolveAll _ _ _ _ _ _) as [pcs pool2].
  cbn in *. by rewrite IH.
Qed.

Lemma clientsOf_app (a b : list Slot) :
  Client.clientsOf (a ++ b) = Client.clientsOf a ++ Client.clientsOf b.
Proof. unfold Client.clientsOf. apply omap_app. Qed.

Lemma emission_fresh (pre : list Slot) p (post : list Slot) :
  Client.emission (pre ++ freshSlot p :: post) = None.
Proof.
  apply (emission_pending _ (length pre) (freshSlot p)); [|done].
  by apply list_lookup_middle.
Qed.

Lemma notifyInner_value now (pre : list Slot) p (post : list Slot)
    (pool : Pool.t World Client.Log) (l : Client.Log) :
  notifyInner now (length pre) (next None) (pre ++ freshSlot p :: post) pool l
  = let r := resolveClient now p None pool in
    let slots := pre ++ {| Client.provider := p; Client.latest := Some (Some r.1);
                           Client.finished := false |} :: post in
    (slots, r.2, l,
     match Client.emission slots with Some pcs => [pcs] | None => [] end).
Proof.
  unfold Client.notifyInner.
  rewrite (list_lookup_middle pre _ (freshSlot p) (length pre) eq_refl).
  cbn [Client.finished Resolution.freshSlot Client.notifySlot Client.provider].
  destruct (Client.resolveClient glob createTransport env now p None pool) as [pc pool1].
  by rewrite insert_middle.
Qed.

Lemma notifyInner_completion now (pre : list Slot) p pc (post : list Slot)
    (pool : Pool.t World Client.Log) (l : Client.Log) :
  notifyInner now (length pre) complete
    (pre ++ {| Client.provider := p; Client.latest := Some (Some pc);
               Client.finished := false |} :: post) pool l
  = (pre ++ settledSlot p pc :: post, pool, l, []).
Proof.
  unfold Client.notifyInner.
  rewrite (list_lookup_middle pre _ _ (length pre) eq_refl).
  cbn [Client.finished Client.notifySlot Client.provider Client.latest].
  by rewrite insert_middle.
Qed.

Lemma ofNull_from now (rest : list ProviderConfiguration) :
  forall (pre : list Slot) (pool : Pool.t World Client.Log) (l : Client.Log),
  rest <> [] ->
  Forall (fun s => is_Some (Client.latest s)) pre ->
  let r := resolveAll now rest pool in
  let slots := pre ++ zip_with settledSlot rest r.1 in
  foldl
    (fun acc i =>
       let '(sl, p0, l0, out) := acc in
       let '(sl1, p1, l1, out1) := notifyInner now i (next None) sl p0 l0 in
       let '(sl2, p2, l2, out2) := notifyInner now i complete sl1 p1 l1 in
       (sl2, p2, l2, out ++ out1 ++ out2))
    (pre ++ (freshSlot <$> rest), pool, l, []) (seq (length pre) (length rest))
  = (slots, r.2, l, [Client.clientsOf slots]).
Proof.
  induction rest as [|p rest IH]; intros pre pool l Hne Hpre; [done|].
  cbn [length seq foldl fmap list_fmap Resolution.resolveAll].
  rewrite notifyInner_value. cbn zeta.
  destruct (Client.resolveClient glob createTransport env now p None pool) as [pc pool1].
  cbn [fst snd]. rewrite notifyInner_completion.
  destruct rest as [|p' rest].
  - cbn [fmap list_fmap length seq foldl Resolution.resolveAll zip_with fst snd].
    rewrite (emission_clientsOf _).
    + cbn [app]. by rewrite !clientsOf_app.
    + apply Forall_app. split; [done|]. repeat constructor. by eexists.
  - assert (Hem : forall s : Slot,
        Client.emission (pre ++ s :: (freshSlot <$> p' :: rest)) = None).
    { intros s. cbn [fmap list_fmap].
      rewrite (cons_middle s), app_assoc. apply emission_fresh. }
    rewrite Hem. cbn [app].
    specialize (IH (pre ++ [settledSlot p pc]) pool1 l).
    rewrite length_app, Nat.add_1_r in IH. cbn [length] in IH.
    rewrite <- app_assoc in IH. cbn [app] in IH.
    cbn [length]. rewrite IH.
    + destruct (Resolution.resolveAll _ _ _ _ _ _) as [pcs pool2].
      cbn [fst snd zip_with]. by rewrite <- app_assoc.
    + done.
    + apply Forall_app. split; [done|]. repeat constructor. by eexists.
Qed.

Lemma clientsOf_settled (ps : list ProviderConfiguration) :
  forall pcs, length pcs = length ps ->
  Client.clientsOf (zip_with settledSlot ps pcs) = pcs.
Proof.
  induction ps as [|p ps IH]; intros [|pc pcs] Hlen; try done.
  cbn [zip_with]. unfold Client.clientsOf in *. cbn. f_equal. apply IH.
  cbn in Hlen. lia.
Qed.

(** Without an [authInfo] hook the slots of a configuration settle at
    once, and the one provider list that comes out is [resolveAll]'s. *)
Lemma providerClientsWithSettings_resolveAll now cfg
    (pool : Pool.t World Client.Log) (l : Client.Log) :
  Client.hasAuthInfo env = false ->
  let r := resolveAll now (providers cfg) pool in
  Client.providerClientsWithSettings glob createTransport env now cfg pool l
  = (zip_with settledSlot (providers cfg) r.1, r.2, l, [r.1]).
Proof.
  intros Hhook. unfold Client.providerClientsWithSettings.
  destruct (providers cfg) as [|p ps] eqn:Hps; [done|].
  rewrite Hhook. unfold Client.ofNull. rewrite length_fmap.
  pose proof (ofNull_from now (p :: ps) [] pool l) as H.
  cbn [app length] in H. cbv zeta in H.
  etrans; [apply H; [done|constructor]|].
  cbv zeta. by rewrite clientsOf_settled by apply resolveAll_length.
Qed.

Lemma resolveClient_mocked now p a (pool : Pool.t World Client.Log) m :
  Client.mock env = Some m ->
  resolveClient now p a pool
  = ({| Client.providerClient := Client.mocked m; Client.pcSettings := settings p |}, pool).
Proof. unfold Client.resolveClient. by intros ->. Qed.

Lemma resolveAll_mocked now ps (pool : Pool.t World Client.Log) m :
  Client.mock env = Some m ->
  resolveAll now ps pool
  = ((fun p => {| Client.providerClient := Client.mocked m;
                  Client.pcSettings := settings p |}) <$> ps, pool).
Proof.
  intros Hm. induction ps as [|p ps IH]; [done|].
  cbn [Resolution.resolveAll]. rewrite (resolveClient_mocked _ _ _ _ m Hm).
  by rewrite IH.
Qed.

(** A client that the pool holds in an entry that is not stale is given
    again, and the pool stays as it is. *)
Lemma resolveClient_held now now' p (pool : Pool.t World Client.Log) pc :
  Client.mock env = None ->
  Resolution.liveAt now' pool ->
  Resolution.heldAt now pool p pc ->
  resolveClient now' p None pool = (pc, pool).
Proof.
  intros Hm Hlive (e & He & _ & ->).
  unfold Client.resolveClient. rewrite Hm.
  by rewrite (getOrCreate_hit _ _ _ _ _ _ e He (Hlive _ _ He)).
Qed.

(** Resolving a provider when the clock reads [now] keeps what the pool
    holds then, keeps the entries from being stale at [now'], and leaves
    the provider's client in the pool. *)
Lemma resolveClient_live now now' p (pool : Pool.t World Client.Log) :
  Client.mock env = None ->
  Pool.ttlOf pool = 1000 * 60 * 5 ->
  now' - now <= 1000 * 60 * 5 ->
  Resolution.liveAt now' pool ->
  let r := resolveClient now p None pool in
  Pool.ttlOf r.2 = 1000 * 60 * 5 /\
  Resolution.liveAt now' r.2 /\
  Resolution.heldAt now r.2 p r.1 /\
  (forall p0 pc0, Resolution.heldAt now pool p0 pc0 -> Resolution.heldAt now r.2 p0 pc0).
Proof.
  intros Hm Httl Hle Hlive. unfold Client.resolveClient. rewrite Hm.
  match goal with
  | |- context [Pool.getOrCreate _ _ ?k ?e _ _] => set (key := k); set (penv := e)
  end.
  destruct (lookup_cases key now pool) as [(e & He & Hl) | Hmiss].
  - rewrite (getOrCreate_hit _ _ _ _ _ _ e He Hl). cbn [fst snd].
    split; [done|]. split; [done|]. split; [by exists e | done].
  - rewrite (getOrCreate_miss _ _ _ _ _ _ Hmiss). cbn [fst snd].
    unfold Resolution.liveAt, Resolution.heldAt, Pool.entriesOf, Pool.ttlOf in *.
    cbn [Pool.cache LRUCache.entries LRUCache.ttl].
    split; [done|]. split; [|split].
    + intros ck e [[_ <-] | [_ He]]%lookup_insert_Some.
      * cbn [LRUCache.start]. lia.
      * by apply (Hlive ck).
    + eexists. split; [apply lookup_insert_eq|]. cbn [LRUCache.start LRUCache.value].
      split; [lia | done].
    + intros p0 pc0 (e0 & He0 & Hl0 & ->).
      exists e0. split; [|by split].
      rewrite lookup_insert_ne; [done|]. intros Heq.
      rewrite <- Heq in He0. specialize (Hmiss e0 He0). lia.
Qed.

Lemma resolveAll_live now now' ps :
  forall pool : Pool.t World Client.Log,
  Client.mock env = None ->
  Pool.ttlOf pool = 1000 * 60 * 5 ->
  now' - now <= 1000 * 60 * 5 ->
  Resolution.liveAt now' pool ->
  let r := resolveAll now ps pool in
  Resolution.liveAt now' r.2 /\
  Forall2 (Resolution.heldAt now r.2) ps r.1 /\
  (forall p0 pc0, Resolution.heldAt now pool p0 pc0 -> Resolution.heldAt now r.2 p0 pc0).
Proof.
  induction ps as [|p ps IH]; intros pool Hm Httl Hle Hlive.
  - cbn. split; [done|]. split; [constructor | done].
  - cbn [Resolution.resolveAll].
    destruct (resolveClient_live now now' p pool Hm Httl Hle Hlive)
      as (Httl1 & Hlive1 & Hheld & Hkeep).
    destruct (Client.resolveClient glob createTransport env now p None pool) as [pc pool1].
    cbn [fst snd] in *.
    destruct (IH pool1 Hm Httl1 Hle Hlive1) as (Hlive2 & Hall & Hkeep2).
    destruct (Resolution.resolveAll _ _ _ _ _ _) as [pcs pool2].
    cbn [fst snd] in *. split; [done|]. split.
    + constructor; [by apply Hkeep2 | done].
    + intros p0 pc0 H0. by apply Hkeep2, Hkeep.
Qed.

Lemma resolveAll_held now now' ps pcs (pool : Pool.t World Client.Log) :
  Client.mock env = None ->
  Resolution.liveAt now' pool ->
  Forall2 (Resolution.heldAt now pool) ps pcs ->
  resolveAll now' ps pool = (pcs, pool).
Proof.
  intros Hm Hlive Hall. induction Hall as [|p pc ps pcs Hheld _ IH]; [done|].
  cbn [Resolution.resolveAll].
  rewrite (resolveClient_held now now' p pool pc Hm Hlive Hheld).
  by rewrite IH.
Qed.

Lemma resolveAll_again now now' ps (pool : Pool.t World Client.Log) :
  Pool.ttlOf pool = 1000 * 60 * 5 ->
  now' - now <= 1000 * 60 * 5 ->
  Resolution.liveAt now' pool ->
  let first := resolveAll now ps pool in
  resolveAll now' ps first.2 = first.
Proof.
  intros Httl Hle Hlive. destruct (Client.mock env) as [m|] eqn:Hm.
  - cbv zeta. by rewrite !(resolveAll_mocked _ _ _ m Hm).
  - destruct (resolveAll_live now now' ps pool Hm Httl Hle Hlive) as (Hlive' & Hall & _).
    cbv zeta. rewrite (resolveAll_held now now' ps _ _ Hm Hlive' Hall).
    by destruct (resolveAll now ps pool).
Qed.

(** X13. Without an [authInfo] hook, a configuration that arrives again
    within the five minutes that the pool keeps a client, and before any
    client of the pool has become stale, gets the clients of its first
    arrival: the same provider list comes out, nothing is constructed and
    the pool stays as it is. *)
Theorem configuration_again_reuses_clients now now' cfg
    (pool : Pool.t World Client.Log) (l l' : Client.Log) :
  Client.hasAuthInfo env = false ->
  Pool.ttlOf pool = 1000 * 60 * 5 ->
  now' - now <= 1000 * 60 * 5 ->
  Resolution.liveAt now' pool ->
  let '(slots1, pool1, _, lists1) :=
    Client.providerClientsWithSettings glob createTransport env now cfg pool l in
  let '(slots2, pool2, _, lists2) :=
    Client.providerClientsWithSettings glob createTransport env now' cfg pool1 l' in
  lists2 = lists1 /\ pool2 = pool1 /\ slots2 = slots1.
Proof.
  intros Hhook Httl Hle Hlive.
  rewrite (providerClientsWithSettings_resolveAll now cfg _ l Hhook).
  rewrite (providerClientsWithSettings_resolveAll now' cfg _ l' Hhook).
  cbv zeta. by rewrite (resolveAll_again now now' (providers cfg) pool Httl Hle Hlive).
Qed.
End ResolutionFacts.

Section MockFacts.
Import Configuration.
Context {World Hook : Type}.
Variable glob : string -> string -> bool.
Variable createTransport :
  string -> Transport.Options Client.Log Hook -> Transport.ProviderTransport World.
Variable env : Client.ClientEnv World Hook.

Local Abbreviation step := (Client.step glob createTransport env).
Local Abbreviation run := (Client.run glob createTransport env).
Local Abbreviation State := (Client.State World).
Local Abbreviation Slot := (Client.Slot World).

Lemma notifyInner_mocked now i n (slots : list Slot) (p : Pool.t World Client.Log)
    (l : Client.Log) m :
  Client.mock env = Some m ->
  (Client.notifyInner glob createTransport env now i n slots p l).1.1.2 = p.
Proof.
  intros Hm. unfold Client.notifyInner.
  destruct (slots !! i) as [slot|]; [|done].
  destruct (Client.finished slot); [done|].
  destruct n as [a | e |]; cbn [Client.notifySlot]; try done.
  by rewrite (resolveClient_mocked glob createTransport env now _ a p m Hm).
Qed.

Lemma providerClientsWithSettings_mocked now cfg (p : Pool.t World Client.Log)
    (l : Client.Log) m :
  Client.mock env = Some m ->
  (Client.providerClientsWithSettings glob createTransport env now cfg p l).1.1.2 = p.
Proof.
  intros Hm. destruct (Client.hasAuthInfo env) eqn:Hhook.
  - unfold Client.providerClientsWithSettings. rewrite Hhook.
    by destruct (providers cfg).
  - rewrite (providerClientsWithSettings_resolveAll glob createTransport env now cfg p l Hhook).
    cbn [fst snd]. by rewrite (resolveAll_mocked glob createTransport env now _ p m Hm).
Qed.

Lemma step_mocked (st : State) (ev : Client.Event) m :
  Client.mock env = Some m ->
  Pool.constructed (Client.pool (step st ev)) = Pool.constructed (Client.pool st) /\
  Pool.entriesOf (Client.pool (step st ev)) ⊆ Pool.entriesOf (Client.pool st).
Proof.
  intros Hm. destruct ev as [rq partial | j | j sev | n | | dt]; cbn [Client.step]; try done.
  - by destruct (Client.streams st !! j).
  - destruct (Client.streams st !! j) as [s|]; [|done].
    destruct (Client.subscribed s); [|done].
    destruct sev as [n | k i n]; cbn [Client.streamStep].
    + destruct (Client.configurationDone s); [done|].
      destruct n as [config | e |]; try done.
      destruct (gate (Client.heap st) config) as [h' config'].
      destruct (configurationFromUserInput h' config') as [cfg|]; [|done].
      pose proof (providerClientsWithSettings_mocked (Client.clock st) cfg (Client.pool st)
                    (logs (Client.effects st)) m Hm) as Hp.
      destruct (Client.providerClientsWithSettings _ _ _ _ _ _ _) as [[[slots p'] l'] lists].
      cbn [fst snd] in Hp. subst p'.
      by destruct (Client.observeAll _ _ _ _ _).
    + destruct (Client.inners s !! k) as [slots|]; [|done].
      pose proof (notifyInner_mocked (Client.clock st) i n slots (Client.pool st)
                    (logs (Client.effects st)) m Hm) as Hp.
      destruct (Client.notifyInner _ _ _ _ _ _ _ _ _) as [[[slots' p'] l'] lists].
      cbn [fst snd] in Hp. subst p'.
      by destruct (Client.observeAll _ _ _ _ _).
  - unfold Client.debugStep. destruct (Client.debugSource st); [|done].
    destruct n as [config | e |]; try done.
    destruct (configurationFromUserInput _ _); [|done]. by destruct (decide _).
  - cbn [Client.pool Pool.constructed]. split; [done|].
    unfold Pool.entriesOf, LRUCache.purgeStale. cbn [Pool.cache LRUCache.entries].
    apply map_filter_subseteq.
Qed.

(** X14. With [__mock__.getProviderClient] the pool is left alone:
    whatever happens, the client constructs no provider client and adds
    no entry to its pool. *)
Theorem mock_bypasses_pool (st : State) (evs : list Client.Event) m :
  Client.mock env = Some m ->
  Pool.constructed (Client.pool (run st evs)) = Pool.constructed (Client.pool st) /\
  Pool.entriesOf (Client.pool (run st evs)) ⊆ Pool.entriesOf (Client.pool st).
Proof.
  intros Hm. revert st. induction evs as [|ev evs IH]; intros st; [done|].
  cbn [Client.run foldl]. destruct (step_mocked st ev m Hm) as [Hc Hs].
  destruct (IH (step st ev)) as [Hc' Hs']. unfold Client.run in *.
  split; [congruence | by etrans].
Qed.
End MockFacts.

(** *** The states a client can reach *)

Section ReachabilityFacts.
Import Configuration.
Context {World Hook : Type}.
Variable glob : string -> string -> bool.
Variable createTransport :
  string -> Transport.Options Client.Log Hook -> Transport.ProviderTransport World.
Variable env : Client.ClientEnv World Hook.
Hypothesis no_mock : Client.mock env = None.

Local Abbreviation step := (Client.step glob createTransport env).
Local Abbreviation run := (Client.run glob createTransport env).
Local Abbreviation State := (Client.State World).
Local Abbreviation Stream := (Client.Stream World).
Local Abbreviation Slot := (Client.Slot World).
Local Abbreviation genuine := (Reachability.genuine glob createTransport env).
Local Abbreviation genuineSlot := (Reachability.genuineSlot glob createTransport env).
Local Abbreviation ownPool := (Reachability.ownPool glob createTransport env).
Local Abbreviation wellFormed := (Reachability.wellFormed glob createTransport env).
Local Abbreviation poolEnv := (Reachability.poolEnv env).

Lemma ownPool_empty : ownPool Pool.createProviderPool.
Proof. exists []. split; [apply recorded_empty | constructor]. Qed.

Lemma ownPool_getOrCreate key now (p : Pool.t World Client.Log) :
  ownPool p ->
  let r := Pool.getOrCreate glob createTransport key poolEnv now p in
  ownPool r.2 /\
  Pool.client r.1 = PoolHistory.clientFor glob createTransport key poolEnv.
Proof.
  intros (owners & Hrec & Henv) r. subst r.
  destruct (getOrCreate_recorded glob createTransport owners key poolEnv now p Hrec)
    as (ext & env' & Hext & Hrec' & Hown & Hcl).
  assert (Hall : Forall (fun o => o.2 = poolEnv) (owners ++ ext)).
  { apply Forall_app. split; [done|].
    destruct Hext as [-> | ->]; repeat constructor. }
  split; [by exists (owners ++ ext)|].
  rewrite Hcl. f_equal.
  exact (proj1 (Forall_lookup _ _) Hall _ _ Hown).
Qed.

Lemma ownPool_purged now (p : Pool.t World Client.Log) :
  ownPool p -> ownPool (PoolHistory.purged now p).
Proof.
  intros (owners & [Hlen Hrec] & Henv). exists owners. split; [|done].
  split; [done|]. intros ck e He. apply Hrec.
  unfold PoolHistory.purged, Pool.entriesOf, LRUCache.purgeStale in He.
  cbn [Pool.cache LRUCache.entries] in He.
  by apply map_lookup_filter_Some in He as [He _].
Qed.

Lemma resolveClient_genuine now p a (pool : Pool.t World Client.Log) :
  ownPool pool ->
  let r := Client.resolveClient glob createTransport env now p a pool in
  ownPool r.2 /\ genuine p r.1.
Proof.
  intros Hown. unfold Client.resolveClient. rewrite no_mock.
  destruct (ownPool_getOrCreate
              {| Pool.providerUri := providerUri p; Pool.authInfo := a |} now pool Hown)
    as [Hown' Hcl].
  unfold Reachability.poolEnv in Hown', Hcl.
  destruct (Pool.getOrCreate _ _ _ _ _ _) as [c pool'].
  cbn [fst snd] in *. split; [done|]. split; [done|]. by exists c, a.
Qed.

Lemma notifySlot_genuine now n (slot : Slot) (pool : Pool.t World Client.Log) l :
  ownPool pool -> genuineSlot slot ->
  let r := Client.notifySlot glob createTransport env now n slot pool l in
  ownPool r.1.2 /\ genuineSlot r.1.1.
Proof.
  intros Hown Hslot. destruct n as [a | e |]; cbn [Client.notifySlot].
  - destruct (resolveClient_genuine now (Client.provider slot) a pool Hown) as [Hown' Hg].
    destruct (Client.resolveClient _ _ _ _ _ _ _) as [pc pool'].
    cbn [fst snd] in *. split; [done|]. intros pc' [= <-]. done.
  - cbn [fst snd]. split; [done|]. intros pc. discriminate.
  - cbn [fst snd]. split; [done|]. exact Hslot.
Qed.

Lemma notifyInner_genuine now i n (slots : list Slot) (pool : Pool.t World Client.Log) l :
  ownPool pool -> Forall genuineSlot slots ->
  let r := Client.notifyInner glob createTransport env now i n slots pool l in
  ownPool r.1.1.2 /\ Forall genuineSlot r.1.1.1.
Proof.
  intros Hown Hslots. unfold Client.notifyInner.
  destruct (slots !! i) as [slot|] eqn:Hi; [|done].
  destruct (Client.finished slot); [done|].
  destruct (notifySlot_genuine now n slot pool l Hown
              (proj1 (Forall_lookup _ _) Hslots _ _ Hi)) as [Hown' Hslot'].
  destruct (Client.notifySlot _ _ _ _ _ _ _ _) as [[slot' p'] l'].
  cbn [fst snd] in *. split; [done|]. by apply Forall_insert.
Qed.

Lemma ofNull_genuine now (slots : list Slot) (pool : Pool.t World Client.Log) l :
  ownPool pool -> Forall genuineSlot slots ->
  let r := Client.ofNull glob createTransport env now slots pool l in
  ownPool r.1.1.2 /\ Forall genuineSlot r.1.1.1.
Proof.
  intros Hown Hslots. unfold Client.ofNull.
  generalize (seq 0 (length slots)) as indices.
  generalize (@nil (list (Client.ProviderClientWithSettings (World:=World)))) as out.
  revert slots pool l Hown Hslots.
  intros slots pool l Hown Hslots out indices.
  revert slots pool l out Hown Hslots.
  induction indices as [|i indices IH]; intros slots pool l out Hown Hslots; [done|].
  cbn [foldl].
  destruct (notifyInner_genuine now i (next None) slots pool l Hown Hslots) as [Hown1 Hslots1].
  destruct (Client.notifyInner glob createTransport env now i (next None) slots pool l)
    as [[[sl1 p1] l1] out1].
  cbn [fst snd] in *.
  destruct (notifyInner_genuine now i complete sl1 p1 l1 Hown1 Hslots1) as [Hown2 Hslots2].
  destruct (Client.notifyInner glob createTransport env now i complete sl1 p1 l1)
    as [[[sl2 p2] l2] out2].
  cbn [fst snd] in *. by apply IH.
Qed.

Lemma providerClientsWithSettings_genuine now cfg (pool : Pool.t World Client.Log) l :
  ownPool pool ->
  let r := Client.providerClientsWithSettings glob createTransport env now cfg pool l in
  ownPool r.1.1.2 /\ Forall genuineSlot r.1.1.1.
Proof.
  intros Hown. unfold Client.providerClientsWithSettings.
  destruct (providers cfg) as [|p ps]; [by split|].
  assert (Hfresh : Forall genuineSlot
            ((fun pr => {| Client.provider := pr; Client.latest := None;
                           Client.finished := false |}) <$> p :: ps)).
  { apply Forall_fmap, Forall_forall. intros pr _ pc. discriminate. }
  destruct (Client.hasAuthInfo env); [by split|].
  by apply ofNull_genuine.
Qed.

Lemma finish_inners (s : Stream) : Client.inners (Client.finish s) = Client.inners s.
Proof. unfold Client.finish. by destruct (_ && _)%bool. Qed.

Lemma step_wellFormed (st : State) (ev : Client.Event) :
  wellFormed st -> wellFormed (step st ev).
Proof.
  intros [Hown Hstreams].
  destruct ev as [rq partial | j | j sev | n | | dt]; cbn [Client.step].
  - split; [done|]. cbn [Client.setStreams Client.streams].
    apply Forall_app. split; [done|]. repeat constructor.
  - destruct (Client.streams st !! j) as [s|] eqn:Hj; [|by split].
    split; [done|]. cbn [Client.setStreams Client.streams].
    apply Forall_insert; [done|]. exact (proj1 (Forall_lookup _ _) Hstreams _ _ Hj).
  - destruct (Client.streams st !! j) as [s|] eqn:Hj; [|by split].
    destruct (Client.subscribed s); [|by split].
    pose proof (proj1 (Forall_lookup _ _) Hstreams _ _ Hj) as Hs.
    destruct sev as [n | k i n]; cbn [Client.streamStep].
    + destruct (Client.configurationDone s).
      { split; [done|]. cbn [Client.setStreams Client.streams].
        apply Forall_insert; [done|]. by rewrite finish_inners. }
      destruct n as [config | e |].
      * destruct (gate (Client.heap st) config) as [h' config'].
        destruct (configurationFromUserInput h' config') as [cfg|].
        -- destruct (providerClientsWithSettings_genuine (Client.clock st) cfg (Client.pool st)
                       (logs (Client.effects st)) Hown) as [Hown' Hslots'].
           destruct (Client.providerClientsWithSettings _ _ _ _ _ _ _)
             as [[[slots p'] l'] lists].
           cbn [fst snd] in *.
           destruct (Client.observeAll _ _ _ _ _) as [ns fx'].
           split; [done|].
           cbn [Client.setStreams Client.setShared Client.streams].
           apply Forall_insert; [done|]. rewrite finish_inners.
           cbn [Client.setInners Client.inners]. apply Forall_app. split; [done|].
           by repeat constructor.
        -- split; [done|]. cbn [Client.setStreams Client.streams].
           apply Forall_insert; [done|]. by rewrite finish_inners.
      * split; [done|]. cbn [Client.setStreams Client.streams].
        apply Forall_insert; [done|]. by rewrite finish_inners.
      * split; [done|]. cbn [Client.setStreams Client.streams].
        apply Forall_insert; [done|]. by rewrite finish_inners.
    + destruct (Client.inners s !! k) as [slots|] eqn:Hk.
      * destruct (notifyInner_genuine (Client.clock st) i n slots (Client.pool st)
                    (logs (Client.effects st)) Hown
                    (proj1 (Forall_lookup _ _) Hs _ _ Hk)) as [Hown' Hslots'].
        destruct (Client.notifyInner _ _ _ _ _ _ _ _ _) as [[[slots' p'] l'] lists].
        cbn [fst snd] in *.
        destruct (Client.observeAll _ _ _ _ _) as [ns fx'].
        split; [done|].
        cbn [Client.setStreams Client.setShared Client.streams].
        apply Forall_insert; [done|]. rewrite finish_inners.
        cbn [Client.setInners Client.inners]. by apply Forall_insert.
      * split; [done|]. cbn [Client.setStreams Client.streams].
        apply Forall_insert; [done|]. by rewrite finish_inners.
  - unfold Client.debugStep. destruct (Client.debugSource st); [|by split].
    destruct n as [config | e |]; try (by split).
    destruct (configurationFromUserInput _ _); [|by split]. by destruct (decide _).
  - by split.
  - split; [|done]. cbn [Client.pool]. by apply (ownPool_purged _ (Client.pool st)).
Qed.

Lemma reachable_wellFormed (st : State) :
  Reachability.reachable glob createTransport env st -> wellFormed st.
Proof.
  intros (h & w & evs & ->).
  assert (H : forall st0 : State, wellFormed st0 -> wellFormed (run st0 evs)).
  { induction evs as [|ev evs IH]; intros st0 H0; [done|].
    cbn [Client.run foldl]. apply IH, step_wellFormed, H0. }
  apply H. split; [apply ownPool_empty | constructor].
Qed.


(** *** What the fan-out does with genuine clients *)

Local Abbreviation continues := Reachability.continues.

Lemma continues_refl (l : Client.Log) : continues l l.
Proof. split; [done|]. split; exists []; by rewrite app_nil_r. Qed.

Lemma continues_trans (l1 l2 l3 : Client.Log) :
  continues l1 l2 -> continues l2 l3 -> continues l1 l3.
Proof.
  intros (Hd1 & [h1 Hh1] & [p1 Hp1]) (Hd2 & [h2 Hh2] & [p2 Hp2]).
  split; [congruence|]. split.
  - exists (h1 ++ h2). by rewrite Hh2, Hh1, app_assoc.
  - exists (p1 ++ p2). by rewrite Hp2, Hp1, app_assoc.
Qed.

Lemma continues_envLogger (m : string) (l : Client.Log) :
  continues l (Client.envLogger env m l).
Proof.
  unfold Client.envLogger. destruct (Client.hasLogger env); [|apply continues_refl].
  split; [done|]. cbn. split; [by exists [m] | exists []; by rewrite app_nil_r].
Qed.

Lemma continues_logger (m : string) (l : Client.Log) :
  continues l (Client.logger env m l).
Proof.
  unfold Client.logger. destruct (Client.debugValue l) as [[]|] eqn:Hd.
  - apply continues_envLogger.
  - apply continues_refl.
  - split; [done|]. cbn. split; [exists []; by rewrite app_nil_r | by exists [m]].
Qed.

Ltac run_promise :=
  cbn [ProviderClient.createProviderClient ProviderClient.items ProviderClient.annotations];
  unfold Promise.bind, Promise.tryCatch, Promise.invoke, Promise.log, Promise.ret,
    Promise.reject; cbn [world logs calls].

Ltac continue_log :=
  repeat first
    [ apply continues_refl
    | eapply continues_trans; [|apply continues_logger] ].

(** A call of a genuine client asks its provider, and nobody else, at
    least once, and only adds to the log. *)
Lemma call_genuine (rq : Client.Request) p pc (fx : Effects World Client.Log) :
  genuine p pc ->
  let r := Client.call rq pc fx in
  (exists group,
     calls r.2 = calls fx ++ group /\ group <> [] /\
     Forall (fun c => c.1 = providerUri p) group) /\
  continues (logs fx) (logs r.2).
Proof.
  intros (_ & c & a & Hpc & Hcl). unfold Client.call.
  rewrite Hpc. cbn [Client.methods]. rewrite Hcl. unfold PoolHistory.clientFor.
  cbn [Pool.providerUri Pool.authInfo Reachability.poolEnv Pool.logger].
  destruct rq as [params | params]; run_promise;
    unfold ProviderClient.scoped, scopedLogger;
    cbn [ProviderClient.logger fmap option_fmap option_map world logs calls].
  - destruct (Transport.items _ params (Client.pcSettings pc) (world fx)) as [[r|e] w];
      cbn [fst snd world logs calls].
    + split; [|apply continues_refl].
      exists [(providerUri p, itemsMethod)]. repeat split; [done|]. by repeat constructor.
    + split; [|continue_log].
      exists [(providerUri p, itemsMethod)]. repeat split; [done|]. by repeat constructor.
  - destruct (Transport.capabilities _ tt (Client.pcSettings pc) (world fx)) as [[cap|e] w];
      cbn [fst snd world logs calls].
    + destruct (SelectorMatcher.matchSelectors glob (selector cap) params);
        cbn [negb fst snd world logs calls].
      * destruct (Transport.annotations _ params (Client.pcSettings pc) w) as [[r|e] w'];
          cbn [fst snd world logs calls]; (split; [|continue_log]);
          exists [(providerUri p, capabilitiesMethod); (providerUri p, annotationsMethod)];
          rewrite <- ?app_assoc; (repeat split; [done|]); by repeat constructor.
      * split; [|continue_log].
        exists [(providerUri p, capabilitiesMethod)]. repeat split; [done|].
        by repeat constructor.
    + split; [|continue_log].
      exists [(providerUri p, capabilitiesMethod)]. repeat split; [done|].
      by repeat constructor.
Qed.

Lemma contribution_genuine (rq : Client.Request) p pc (fx : Effects World Client.Log) :
  genuine p pc ->
  let r := Client.contribution env rq pc fx in
  (exists group,
     calls r.2 = calls fx ++ group /\ group <> [] /\
     Forall (fun c => c.1 = providerUri p) group) /\
  continues (logs fx) (logs r.2).
Proof.
  intros Hg. destruct (call_genuine rq p pc fx Hg) as [Hcalls Hlogs].
  unfold Client.contribution.
  destruct (Client.call rq pc fx) as [[[entries|]|e] fx']; cbn [fst snd] in *; try done.
  cbn [calls logs]. split; [done|].
  eapply continues_trans; [exact Hlogs | apply continues_envLogger].
Qed.

Lemma contributions_genuine (rq : Client.Request) ps pcs :
  Forall2 genuine ps pcs ->
  forall fx : Effects World Client.Log,
  let r := Client.contributions env rq pcs fx in
  (exists groups,
     calls r.2 = calls fx ++ concat groups /\
     Forall2 (fun p group => group <> [] /\ Forall (fun c => c.1 = providerUri p) group)
       ps groups) /\
  continues (logs fx) (logs r.2) /\
  length r.1 = length pcs.
Proof.
  induction 1 as [|p pc ps pcs Hg _ IH]; intros fx.
  - cbn. split; [|split; [apply continues_refl | done]].
    exists []. cbn. rewrite app_nil_r. split; [done | constructor].
  - cbn [Client.contributions].
    destruct (contribution_genuine rq p pc fx Hg) as [(group & Hc & Hne & Hall) Hlogs].
    destruct (Client.contribution env rq pc fx) as [c fx1]. cbn [fst snd] in *.
    destruct (IH fx1) as [(groups & Hcs & Hgroups) [Hlogs' Hlen]].
    destruct (Client.contributions env rq pcs fx1) as [cs fx2]. cbn [fst snd] in *.
    split; [|split].
    + exists (group :: groups). cbn [concat]. rewrite Hcs, Hc, <- app_assoc.
      split; [done|]. by constructor.
    + by eapply continues_trans.
    + cbn. by rewrite Hlen.
Qed.

(** The fan-out delivers at least one value. *)
Lemma snapshots_nonempty partial (cs : list (list Client.Entry)) :
  Client.snapshots partial cs <> [].
Proof.
  unfold Client.snapshots. destruct partial; [|done].
  destruct cs as [|c cs]; [done|]. cbn [length seq fmap list_fmap]. done.
Qed.

End ReachabilityFacts.

(** *** The failure of one provider's credentials *)

Section CredentialFailure.
Import Configuration.
Context {World Hook : Type}.
Variable glob : string -> string -> bool.
Variable createTransport :
  string -> Transport.Options Client.Log Hook -> Transport.ProviderTransport World.
Variable env : Client.ClientEnv World Hook.

Local Abbreviation step := (Client.step glob createTransport env).
Local Abbreviation run := (Client.run glob createTransport env).
Local Abbreviation State := (Client.State World).
Local Abbreviation Stream := (Client.Stream World).
Local Abbreviation Slot := (Client.Slot World).
Local Abbreviation genuine := (Reachability.genuine glob createTransport env).
Local Abbreviation genuineSlot := (Reachability.genuineSlot glob createTransport env).
Local Abbreviation withClient := (@Reachability.withClient World).

(** What comes out of [combineLatest] is the clients of the slots. *)
Lemma emission_Some (slots : list Slot) pcs :
  Client.emission slots = Some pcs -> pcs = Client.clientsOf slots.
Proof.
  unfold Client.emission, Client.clientsOf. revert pcs.
  induction slots as [|s slots IH]; intros pcs H.
  - cbn in H. by injection H as <-.
  - cbn in H. destruct (Client.latest s) as [v|] eqn:Hv; [|done]. cbn in H.
    destruct (mapM Client.latest slots) as [vs|]; [|done]. cbn in H.
    injection H as <-. cbn [omap list_omap]. rewrite Hv. cbn [default].
    specialize (IH _ eq_refl). rewrite <- IH. by destruct v.
Qed.

(** The clients of the slots belong to the providers of the slots that
    hold one, in their order. *)
Lemma clientsOf_genuine (slots : list Slot) :
  Forall genuineSlot slots ->
  Forall2 genuine (Client.provider <$> withClient slots) (Client.clientsOf slots).
Proof.
  unfold Reachability.withClient, Client.clientsOf.
  induction 1 as [|s slots Hs _ IH]; [constructor|].
  cbn [omap list_omap]. rewrite filter_cons.
  destruct (Client.latest s) as [[pc|]|] eqn:Hv; cbn [default].
  - rewrite decide_True by (by eexists). cbn [fmap list_fmap].
    constructor; [by apply Hs | exact IH].
  - rewrite decide_False by (by intros [? ?]). exact IH.
  - rewrite decide_False by (by intros [? ?]). exact IH.
Qed.

(** The failure of the credentials of one provider within
    [combineLatest]: the slot turns to [null], the failure goes to the
    logger, and what comes out, if anything, is the clients of the other
    slots. *)
Lemma notifyInner_failure (now : Z) (i : nat) (e : Error) (slots : list Slot) (slot : Slot)
    (p : Pool.t World Client.Log) (l : Client.Log) :
  slots !! i = Some slot ->
  Client.finished slot = false ->
  exists lists,
    Client.notifyInner glob createTransport env now i (error e) slots p l =
      (<[i := Client.failedSlot slot]> slots, p,
       Client.logger env
         ("Error creating provider client for " +:+ providerUri (Client.provider slot) +:+
          ": " +:+ errorToString e) l,
       lists) /\
    (lists = [] \/ lists = [Client.clientsOf (delete i slots)]) /\
    ((forall i' s', i' <> i -> slots !! i' = Some s' -> is_Some (Client.latest s')) ->
     lists = [Client.clientsOf (delete i slots)]) /\
    (forall i' s', i' <> i -> slots !! i' = Some s' -> Client.latest s' = None ->
     lists = []).
Proof.
  intros Hi Hfin. unfold Client.notifyInner. rewrite Hi, Hfin. cbn [Client.notifySlot].
  destruct (Client.emission (<[i := Client.failedSlot slot]> slots)) as [pcs|] eqn:Hem.
  - apply emission_Some in Hem as Hpcs. rewrite (clientsOf_failed _ _ _ Hi) in Hpcs.
    subst pcs. eexists. split; [done|]. split; [by right|]. split; [done|].
    intros i' s' Hne Hi' Hnone.
    rewrite (emission_pending (<[i := Client.failedSlot slot]> slots) i' s') in Hem; try done.
    by rewrite list_lookup_insert_ne.
  - eexists. split; [done|]. split; [by left|]. split; [|done].
    intros Hothers.
    destruct (notifyInner_error glob createTransport env now i e slots slot p l Hi Hfin Hothers)
      as [Hem' _].
    rewrite Hem in Hem'. discriminate.
Qed.

(** A slot that has finished stays as it is. *)
Lemma step_keeps_finished (st : State) (ev : Client.Event) (j k i : nat) (s : Stream)
    (slots : list Slot) (slot : Slot) :
  Client.streams st !! j = Some s ->
  Client.inners s !! k = Some slots ->
  slots !! i = Some slot ->
  Client.finished slot = true ->
  exists s' slots',
    Client.streams (step st ev) !! j = Some s' /\
    Client.inners s' !! k = Some slots' /\
    slots' !! i = Some slot.
Proof.
  intros Hj Hk Hi Hfin.
  assert (Hlt : (j < length (Client.streams st))%nat) by (by eapply lookup_lt_Some).
  assert (Hsame : forall s0 : Stream,
            Client.inners s0 !! k = Some slots ->
            forall j0, exists s' slots',
              <[j0 := s0]> (Client.streams st) !! j = Some s' /\
              Client.inners s' !! k = Some slots' /\ slots' !! i = Some slot).
  { intros s0 Hk0 j0. destruct (decide (j0 = j)) as [->|Hne].
    - exists s0, slots. by rewrite list_lookup_insert_eq.
    - exists s, slots. by rewrite list_lookup_insert_ne. }
  destruct ev as [rq partial | j0 | j0 sev | n | | dt]; cbn [Client.step].
  - exists s, slots. cbn [Client.setStreams Client.streams].
    by rewrite (lookup_app_l_Some _ _ _ _ Hj).
  - destruct (Client.streams st !! j0) as [s0|] eqn:Hj0; [|by exists s, slots].
    cbn [Client.setStreams Client.streams].
    destruct (decide (j0 = j)) as [->|Hne].
    + rewrite Hj in Hj0. injection Hj0 as <-.
      exists (Client.close s), slots. by rewrite list_lookup_insert_eq.
    + exists s, slots. by rewrite list_lookup_insert_ne.
  - destruct (Client.streams st !! j0) as [s0|] eqn:Hj0; [|by exists s, slots].
    destruct (Client.subscribed s0); [|by exists s, slots].
    destruct (decide (j0 = j)) as [->|Hne].
    + rewrite Hj in Hj0. injection Hj0 as <-.
      destruct sev as [n | k0 i0 n]; cbn [Client.streamStep].
      * destruct (Client.configurationDone s).
        { cbn [Client.setStreams Client.streams]. apply Hsame. by rewrite finish_inners. }
        destruct n as [config | e |].
        -- destruct (gate (Client.heap st) config) as [h' config'].
           destruct (configurationFromUserInput h' config') as [cfg|].
           ++ destruct (Client.providerClientsWithSettings _ _ _ _ _ _ _)
                as [[[slots0 p'] l'] lists].
              destruct (Client.observeAll _ _ _ _ _) as [ns fx'].
              cbn [Client.setStreams Client.setShared Client.streams].
              apply Hsame. rewrite finish_inners. cbn [Client.setInners Client.inners].
              by apply lookup_app_l_Some.
           ++ cbn [Client.setStreams Client.streams]. apply Hsame. by rewrite finish_inners.
        -- cbn [Client.setStreams Client.streams]. apply Hsame. by rewrite finish_inners.
        -- cbn [Client.setStreams Client.streams]. apply Hsame. by rewrite finish_inners.
      * destruct (Client.inners s !! k0) as [slots0|] eqn:Hk0.
        -- assert (Hinner : exists slots',
                     (Client.notifyInner glob createTransport env (Client.clock st) i0 n slots0
                        (Client.pool st) (logs (Client.effects st))).1.1.1 = slots' /\
                     (k0 = k -> slots' !! i = Some slot)).
           { eexists. split; [done|]. intros ->. rewrite Hk in Hk0. injection Hk0 as <-.
             unfold Client.notifyInner.
             destruct (slots !! i0) as [slot0|] eqn:Hi0; [|done].
             destruct (decide (i0 = i)) as [->|Hne].
             - rewrite Hi in Hi0. injection Hi0 as <-. rewrite Hfin. exact Hi.
             - destruct (Client.finished slot0); [done|].
               destruct (Client.notifySlot _ _ _ _ _ _ _ _) as [[slot' p'] l'].
               cbn [fst]. by rewrite list_lookup_insert_ne. }
           destruct Hinner as (slots' & Heq & Hkeep).
           destruct (Client.notifyInner _ _ _ _ _ _ _ _ _) as [[[slots1 p'] l'] lists].
           cbn [fst] in Heq. subst slots1.
           destruct (Client.observeAll _ _ _ _ _) as [ns fx'].
           cbn [Client.setStreams Client.setShared Client.streams].
           destruct (decide (k0 = k)) as [->|Hne].
           ++ eexists _, slots'. split; [by apply list_lookup_insert_eq|].
              rewrite finish_inners. cbn [Client.setInners Client.inners].
              split; [apply list_lookup_insert_eq; by eapply lookup_lt_Some | by apply Hkeep].
           ++ eexists _, slots. split; [by apply list_lookup_insert_eq|].
              rewrite finish_inners. cbn [Client.setInners Client.inners].
              split; [by rewrite list_lookup_insert_ne | done].
        -- cbn [Client.setStreams Client.streams]. apply Hsame. by rewrite finish_inners.
    + assert (Hst : forall (s' : Stream) (st' : State),
                Client.streamStep glob createTransport env sev s0 st = (s', st') ->
                Client.streams st' = Client.streams st).
      { intros s' st' Hstep.
        destruct sev as [n | k0 i0 n]; cbn [Client.streamStep] in Hstep.
        - destruct (Client.configurationDone s0); [by injection Hstep as _ <-|].
          destruct n as [config | e |]; try (by injection Hstep as _ <-).
          destruct (gate (Client.heap st) config) as [h' config'].
          destruct (configurationFromUserInput h' config'); [|by injection Hstep as _ <-].
          destruct (Client.providerClientsWithSettings _ _ _ _ _ _ _) as [[[? ?] ?] ?].
          destruct (Client.observeAll _ _ _ _ _). by injection Hstep as _ <-.
        - destruct (Client.inners s0 !! k0); [|by injection Hstep as _ <-].
          destruct (Client.notifyInner _ _ _ _ _ _ _ _ _) as [[[? ?] ?] ?].
          destruct (Client.observeAll _ _ _ _ _). by injection Hstep as _ <-. }
      destruct (Client.streamStep _ _ _ _ _ _) as [s' st'] eqn:Hstep.
      cbn [Client.setStreams Client.streams]. rewrite (Hst _ _ eq_refl).
      exists s, slots. by rewrite list_lookup_insert_ne.
  - exists s, slots. split; [|done].
    unfold Client.debugStep. destruct (Client.debugSource st); [|done].
    destruct n as [config | e |]; try done.
    destruct (configurationFromUserInput _ _); [|done]. by destruct (decide _).
  - by exists s, slots.
  - by exists s, slots.
Qed.

Lemma run_keeps_finished (evs : list Client.Event) :
  forall (st : State) (j k i : nat) (s : Stream) (slots : list Slot) (slot : Slot),
  Client.streams st !! j = Some s ->
  Client.inners s !! k = Some slots ->
  slots !! i = Some slot ->
  Client.finished slot = true ->
  exists s' slots',
    Client.streams (run st evs) !! j = Some s' /\
    Client.inners s' !! k = Some slots' /\
    slots' !! i = Some slot.
Proof.
  induction evs as [|ev evs IH]; intros st j k i s slots slot Hj Hk Hi Hfin.
  - by exists s, slots.
  - destruct (step_keeps_finished st ev j k i s slots slot Hj Hk Hi Hfin)
      as (s1 & slots1 & Hj1 & Hk1 & Hi1).
    cbn [Client.run foldl]. by eapply IH.
Qed.



End CredentialFailure.

(** *** [dispose] *)

Section DisposeFacts.
Import Configuration.
Context {World Hook : Type}.
Variable glob : string -> string -> bool.
Variable createTransport :
  string -> Transport.Options Client.Log Hook -> Transport.ProviderTransport World.
Variable env : Client.ClientEnv World Hook.

Local Abbreviation step := (Client.step glob createTransport env).
Local Abbreviation run := (Client.run glob createTransport env).
Local Abbreviation State := (Client.State World).

(** No event looks at the [subscriptions] array: two states that differ
    in it only are led to two states that differ in it only. *)
Lemma step_ignores_subscriptions (a b : State) (ev : Client.Event) :
  Client.effects a = Client.effects b ->
  Client.heap a = Client.heap b ->
  Client.clock a = Client.clock b ->
  Client.pool a = Client.pool b ->
  Client.debugSource a = Client.debugSource b ->
  Client.streams a = Client.streams b ->
  Client.effects (step a ev) = Client.effects (step b ev) /\
  Client.heap (step a ev) = Client.heap (step b ev) /\
  Client.clock (step a ev) = Client.clock (step b ev) /\
  Client.pool (step a ev) = Client.pool (step b ev) /\
  Client.debugSource (step a ev) = Client.debugSource (step b ev) /\
  Client.streams (step a ev) = Client.streams (step b ev).
Proof.
  destruct a as [fx h c p subsa d ss], b as [fx' h' c' p' subsb d' ss'].
  cbn [Client.effects Client.heap Client.clock Client.pool Client.debugSource Client.streams].
  intros <- <- <- <- <- <-.
  destruct ev as [rq partial | j | j sev | n | | dt]; cbn [Client.step]; try done.
  - cbn [Client.streams]. by destruct (ss !! j).
  - cbn [Client.streams]. destruct (ss !! j) as [s|]; [|done].
    destruct (Client.subscribed s); [|done].
    destruct sev as [n | k i n]; cbn [Client.streamStep].
    + destruct (Client.configurationDone s); [done|].
      destruct n as [config | e |]; try done.
      cbn [Client.heap].
      destruct (gate h config) as [h1 config'].
      destruct (configurationFromUserInput h1 config') as [cfg|]; [|done].
      cbn [Client.clock Client.pool Client.effects].
      destruct (Client.providerClientsWithSettings _ _ _ _ _ _ _) as [[[slots p1] l1] lists].
      by destruct (Client.observeAll _ _ _ _ _).
    + destruct (Client.inners s !! k) as [slots|]; [|done].
      cbn [Client.clock Client.pool Client.effects].
      destruct (Client.notifyInner _ _ _ _ _ _ _ _ _) as [[[slots' p1] l1] lists].
      by destruct (Client.observeAll _ _ _ _ _).
  - unfold Client.debugStep. cbn [Client.debugSource]. destruct d; [|done].
    destruct n as [config | e |]; try done.
    cbn [Client.heap].
    destruct (configurationFromUserInput h config) as [cfg|]; [|done].
    cbn [Client.effects]. by destruct (decide _).
Qed.

Lemma run_ignores_subscriptions (evs : list Client.Event) :
  forall a b : State,
  Client.effects a = Client.effects b ->
  Client.heap a = Client.heap b ->
  Client.clock a = Client.clock b ->
  Client.pool a = Client.pool b ->
  Client.debugSource a = Client.debugSource b ->
  Client.streams a = Client.streams b ->
  Client.effects (run a evs) = Client.effects (run b evs) /\
  Client.heap (run a evs) = Client.heap (run b evs) /\
  Client.clock (run a evs) = Client.clock (run b evs) /\
  Client.pool (run a evs) = Client.pool (run b evs) /\
  Client.debugSource (run a evs) = Client.debugSource (run b evs) /\
  Client.streams (run a evs) = Client.streams (run b evs).
Proof.
  induction evs as [|ev evs IH]; intros a b H1 H2 H3 H4 H5 H6; [done|].
  cbn [Client.run foldl].
  destruct (step_ignores_subscriptions a b ev H1 H2 H3 H4 H5 H6)
    as (G1 & G2 & G3 & G4 & G5 & G6).
  by apply IH.
Qed.

(** [dispose] cancels nothing: whatever happens afterwards, the client
    logs what it would have logged, asks the providers it would have
    asked and delivers what it would have delivered without it. *)
Lemma dispose_changes_nothing (st : State) (evs : list Client.Event) :
  let disposed := Client2.dispose (Client2.createClient glob createTransport env) st in
  let after := run disposed evs in
  let without := run st evs in
  Client1.dispose (Client1.createClient glob createTransport env) st = disposed /\
  Forall (fun open => open = false) (Client.subscriptions disposed) /\
  Client.effects after = Client.effects without /\
  Client.heap after = Client.heap without /\
  Client.clock after = Client.clock without /\
  Client.pool after = Client.pool without /\
  Client.debugSource after = Client.debugSource without /\
  Client.streams after = Client.streams without.
Proof.
  intros disposed after without. split; [reflexivity|]. split.
  - subst disposed. cbn. apply Forall_fmap, Forall_forall. done.
  - by apply run_ignores_subscriptions.
Qed.
End DisposeFacts.

(* ===================================================================== *)
(** * The further properties on the sample data *)
(* ===================================================================== *)

(** A rejection of [items] is logged once, under the client's scope. *)
Example items_failure_is_logged :
  let r := ProviderClient.items
             (ProviderClient.createProviderClient Sample.glob Sample.createTransport
                Sample.broken (ProviderClient.setLogger Sample.options (Some Sample.keep)))
             Sample.goFile [] Sample.fx0 in
  r.1 = Rejected (ThrownError "boom") /\
  calls r.2 = [(Sample.broken, itemsMethod)] /\
  logs r.2 = ["providerClient(https://example.com/broken): failed to get items: Error: boom"].
Proof. vm_compute. done. Qed.

Lemma annotations_accepted_witness :
  let r := ProviderClient.annotations
             (ProviderClient.createProviderClient Sample.glob Sample.createTransport
                Sample.good (Sample.options (LogSt:=list string)))
             Sample.goFile [] Sample.fx0 in
  r.1 = Resolved (Some [Sample.anAnnotation]) /\
  world r.2 = 2%nat /\
  calls r.2 = [(Sample.good, capabilitiesMethod); (Sample.good, annotationsMethod)].
Proof.
  apply (annotations_accepted Sample.glob Sample.createTransport Sample.good Sample.options
           Sample.goFile [] Sample.fx0 {| selector := Some [Sample.goSelector] |} 1%nat).
  - reflexivity.
  - reflexivity.
Defined.

Lemma getOrCreate_distinct_keys_witness :
  let first := Pool.getOrCreate Sample.glob Sample.createTransport
                 Sample.keyAB Sample.poolEnv 0 Sample.pool0 in
  let second := Pool.getOrCreate Sample.glob Sample.createTransport
                  Sample.keyBA Sample.poolEnv 1000 first.2 in
  Pool.ref first.1 <> Pool.ref second.1.
Proof.
  apply (getOrCreate_distinct_keys Sample.glob Sample.createTransport [] []
           Sample.keyAB Sample.keyBA Sample.poolEnv Sample.poolEnv 0 1000).
  discriminate.
Defined.

Lemma autopurge_is_not_observable_witness :
  let pool := (Pool.getOrCreate Sample.glob Sample.createTransport
                 Sample.keyAB Sample.poolEnv 0 Sample.pool0).2 in
  let r := Pool.getOrCreate Sample.glob Sample.createTransport
             Sample.keyAB Sample.poolEnv 500000 pool in
  let r' := Pool.getOrCreate Sample.glob Sample.createTransport
              Sample.keyAB Sample.poolEnv 500000 (PoolHistory.purged 400000 pool) in
  r'.1 = r.1 /\
  Pool.constructed r'.2 = Pool.constructed r.2 /\
  Pool.entriesOf r'.2 !! Pool.cacheKey Sample.keyAB
    = Pool.entriesOf r.2 !! Pool.cacheKey Sample.keyAB.
Proof.
  apply (autopurge_is_not_observable Sample.glob Sample.createTransport 400000 500000
           (Pool.getOrCreate Sample.glob Sample.createTransport
              Sample.keyAB Sample.poolEnv 0 Sample.pool0).2
           Sample.keyAB Sample.poolEnv).
  lia.
Defined.

(** There the entry was stale and had been purged: the request constructs
    the second client in both pools. *)
Example autopurge_run :
  let pool := (Pool.getOrCreate Sample.glob Sample.createTransport
                 Sample.keyAB Sample.poolEnv 0 Sample.pool0).2 in
  Pool.entriesOf (PoolHistory.purged 400000 pool) !! Pool.cacheKey Sample.keyAB = None /\
  Pool.ref (Pool.getOrCreate Sample.glob Sample.createTransport
              Sample.keyAB Sample.poolEnv 500000 pool).1 = 1%nat.
Proof. vm_compute. done. Qed.

Lemma expired_client_is_replaced_witness :
  let pool := Pool.serve Sample.glob Sample.createTransport
                [{| Pool.req_key := Sample.keyAB; Pool.req_env := Sample.poolEnv;
                    Pool.req_now := 0 |}] Sample.pool0 in
  let r := Pool.getOrCreate Sample.glob Sample.createTransport
             Sample.keyAB Sample.poolEnv 300001 pool in
  Pool.client r.1 = PoolHistory.clientFor Sample.glob Sample.createTransport
                      Sample.keyAB Sample.poolEnv /\
  (forall ck e', Pool.entriesOf pool !! ck = Some e' ->
                 Pool.ref r.1 <> Pool.ref (LRUCache.value e')) /\
  Pool.constructed r.2 = S (Pool.constructed pool) /\
  Pool.entriesOf r.2 !! Pool.cacheKey Sample.keyAB
    = Some {| LRUCache.value := r.1; LRUCache.start := 300001 |}.
Proof.
  apply (expired_client_is_replaced Sample.glob Sample.createTransport
           [{| Pool.req_key := Sample.keyAB; Pool.req_env := Sample.poolEnv;
               Pool.req_now := 0 |}]
           Sample.keyAB Sample.poolEnv 300001
           {| LRUCache.value :=
                Pool.construct Sample.glob Sample.createTransport Sample.keyAB
                  Sample.poolEnv Sample.pool0;
              LRUCache.start := 0 |}).
  - vm_compute. reflexivity.
  - cbn [LRUCache.start]. lia.
Defined.

(** At five minutes to the millisecond the client is still given out. *)
Example client_at_time_to_live :
  let first := Pool.getOrCreate Sample.glob Sample.createTransport
                 Sample.keyAB Sample.poolEnv 0 Sample.pool0 in
  Pool.ref (Pool.getOrCreate Sample.glob Sample.createTransport
              Sample.keyAB Sample.poolEnv 300000 first.2).1 = Pool.ref first.1 /\
  Pool.ref (Pool.getOrCreate Sample.glob Sample.createTransport
              Sample.keyAB Sample.poolEnv 300001 first.2).1 <> Pool.ref first.1.
Proof. vm_compute. split; [done | discriminate]. Qed.

Lemma no_calls_until_all_resolved_witness :
  let st' := Sample.step Sample.envWithAuth Sample.waiting
               (Client.toStream 0 (Client.authInfo 0 0 (next (Some Sample.token)))) in
  calls (Client.effects st') = calls (Client.effects Sample.waiting) /\
  world (Client.effects st') = world (Client.effects Sample.waiting) /\
  Forall (fun d => forall v, d <> next v)
    (drop (length (Client.delivered Sample.waitingStream)) (Client.deliveredTo 0 st')).
Proof.
  apply (no_calls_until_all_resolved Sample.glob Sample.createTransport Sample.envWithAuth
           Sample.waiting 0%nat Sample.waitingStream 0%nat Sample.waitingSlots 0%nat
           (next (Some Sample.token)) 1%nat Sample.neverSlot).
  - reflexivity.
  - reflexivity.
  - reflexivity.
  - reflexivity.
  - discriminate.
  - reflexivity.
Defined.

(** The notification did reach the pool: the first provider now has a
    client for its new credentials. *)
Example waiting_for_credentials_run :
  let st' := Sample.step Sample.envWithAuth Sample.waiting
               (Client.toStream 0 (Client.authInfo 0 0 (next (Some Sample.token)))) in
  Pool.constructed (Client.pool Sample.waiting) = 2%nat /\
  Pool.constructed (Client.pool st') = 3%nat /\
  calls (Client.effects st') = [].
Proof. vm_compute. done. Qed.

Lemma early_messages_follow_first_debug_witness :
  let l := {| Client.hostLog := []; Client.debugValue := None; Client.pendingLog := [] |} in
  let waiting := foldl (fun acc m => Client.logger Sample.env m acc) l ["one"; "two"] in
  let decided := Client.debugNext Sample.env true waiting in
  Client.hostLog waiting = [] /\
  Client.hostLog decided = ["one"; "two"] /\
  Client.pendingLog decided = [] /\
  forall m, Client.hostLog (Client.logger Sample.env m decided) = ["one"; "two"; m].
Proof.
  apply (early_messages_follow_first_debug Sample.env ["one"; "two"] true
           {| Client.hostLog := []; Client.debugValue := None; Client.pendingLog := [] |}).
  reflexivity.
Defined.

Lemma disabled_configuration_keeps_earlier_witness :
  let credentials := Client.toStream 0 (Client.authInfo 0 1 (next None)) in
  let before := Sample.step Sample.envWithAuth Sample.waiting credentials in
  let after :=
    Sample.step Sample.envWithAuth
      (Sample.step Sample.envWithAuth Sample.waiting
         (Client.toStream 0 (Client.configuration (next 2%nat))))
      credentials in
  Client.pool after = Client.pool before /\
  Client.effects after = Client.effects before /\
  (exists sa sb,
     Client.streams after !! 0%nat = Some sa /\
     Client.streams before !! 0%nat = Some sb /\
     Client.inners sa !! 0%nat = Client.inners sb !! 0%nat).
Proof.
  apply (disabled_configuration_keeps_earlier Sample.glob Sample.createTransport
           Sample.envWithAuth Sample.waiting 0%nat Sample.waitingStream 2%nat
           (Some false) (Some true) (Some 0%nat) 0%nat Sample.waitingSlots 1%nat (next None)).
  - reflexivity.
  - reflexivity.
  - reflexivity.
  - reflexivity.
  - reflexivity.
  - reflexivity.
Defined.

(** There the credentials were the last ones missing: the three providers
    of the earlier configuration are called after the later one has
    arrived. *)
Example earlier_configuration_run :
  let credentials := Client.toStream 0 (Client.authInfo 0 1 (next None)) in
  let after :=
    Sample.step Sample.envWithAuth
      (Sample.step Sample.envWithAuth Sample.waiting
         (Client.toStream 0 (Client.configuration (next 2%nat))))
      credentials in
  calls (Client.effects Sample.waiting) = [] /\
  calls (Client.effects after)
  = [(Sample.good, itemsMethod); (Sample.never, itemsMethod); (Sample.broken, itemsMethod)].
Proof. vm_compute. done. Qed.

Lemma configuration_again_reuses_clients_witness :
  let cfg :=
    {| Configuration.debug := true;
       Configuration.providers :=
         [{| Configuration.providerUri := Sample.good; Configuration.settings := [] |};
          {| Configuration.providerUri := Sample.never; Configuration.settings := [] |}] |} in
  let l := {| Client.hostLog := []; Client.debugValue := None; Client.pendingLog := [] |} in
  let pool :=
    (Pool.getOrCreate Sample.glob (Sample.createTransport (LogSt:=Client.Log) (Hook:=unit))
       {| Pool.providerUri := Sample.good; Pool.authInfo := None |}
       (Reachability.poolEnv Sample.env) (-200000) Pool.createProviderPool).2 in
  let '(slots1, pool1, _, lists1) :=
    Client.providerClientsWithSettings Sample.glob
      (Sample.createTransport (LogSt:=Client.Log) (Hook:=unit)) Sample.env 0 cfg pool l in
  let '(slots2, pool2, _, lists2) :=
    Client.providerClientsWithSettings Sample.glob
      (Sample.createTransport (LogSt:=Client.Log) (Hook:=unit)) Sample.env 100000 cfg
      pool1 l in
  lists2 = lists1 /\ pool2 = pool1 /\ slots2 = slots1.
Proof.
  apply (configuration_again_reuses_clients Sample.glob Sample.createTransport Sample.env
           0 100000
           {| Configuration.debug := true;
              Configuration.providers :=
                [{| Configuration.providerUri := Sample.good; Configuration.settings := [] |};
                 {| Configuration.providerUri := Sample.never;
                    Configuration.settings := [] |}] |}
           (Pool.getOrCreate Sample.glob
              (Sample.createTransport (LogSt:=Client.Log) (Hook:=unit))
              {| Pool.providerUri := Sample.good; Pool.authInfo := None |}
              (Reachability.poolEnv Sample.env) (-200000) Pool.createProviderPool).2
           {| Client.hostLog := []; Client.debugValue := None; Client.pendingLog := [] |}
           {| Client.hostLog := []; Client.debugValue := None; Client.pendingLog := [] |}).
  - reflexivity.
  - reflexivity.
  - lia.
  - intros ck e.
    rewrite (getOrCreate_miss Sample.glob Sample.createTransport _ _ _
               Pool.createProviderPool).
    + unfold Pool.entriesOf, Pool.ttlOf.
      cbn [snd Pool.cache LRUCache.entries LRUCache.ttl Pool.createProviderPool
           LRUCache.create].
      intros [[_ <-] | [_ He]]%lookup_insert_Some.
      * cbn [LRUCache.start]. lia.
      * by rewrite lookup_empty in He.
    + intros e0. unfold Pool.entriesOf, Pool.createProviderPool, LRUCache.create.
      cbn [Pool.cache LRUCache.entries]. by rewrite lookup_empty.
Defined.

(** There the pool held a client for the first provider already: the
    first arrival constructs one client, for the second provider, and the
    second arrival none. *)
Example configuration_again_run :
  let cfg :=
    {| Configuration.debug := true;
       Configuration.providers :=
         [{| Configuration.providerUri := Sample.good; Configuration.settings := [] |};
          {| Configuration.providerUri := Sample.never; Configuration.settings := [] |}] |} in
  let l := {| Client.hostLog := []; Client.debugValue := None; Client.pendingLog := [] |} in
  let pool :=
    (Pool.getOrCreate Sample.glob (Sample.createTransport (LogSt:=Client.Log) (Hook:=unit))
       {| Pool.providerUri := Sample.good; Pool.authInfo := None |}
       (Reachability.poolEnv Sample.env) (-200000) Pool.createProviderPool).2 in
  let first := Client.providerClientsWithSettings Sample.glob
                 (Sample.createTransport (LogSt:=Client.Log) (Hook:=unit)) Sample.env 0 cfg
                 pool l in
  let second := Client.providerClientsWithSettings Sample.glob
                  (Sample.createTransport (LogSt:=Client.Log) (Hook:=unit)) Sample.env
                  100000 cfg first.1.1.2 l in
  let late := Client.providerClientsWithSettings Sample.glob
                (Sample.createTransport (LogSt:=Client.Log) (Hook:=unit)) Sample.env
                100001 cfg first.1.1.2 l in
  Pool.constructed pool = 1%nat /\
  Pool.constructed first.1.1.2 = 2%nat /\
  Pool.constructed second.1.1.2 = 2%nat /\
  Pool.constructed late.1.1.2 = 3%nat.
Proof. vm_compute. done. Qed.

Lemma mock_bypasses_pool_witness :
  let m := ProviderClient.createProviderClient Sample.glob
             (Sample.createTransport (LogSt:=Client.Log) (Hook:=unit)) Sample.good
             Sample.options in
  let env :=
    {| Client.hasAuthInfo := false; Client.hasLogger := true;
       Client.providerBaseUri := None;
       Client.dynamicImportFromUri := None; Client.dynamicImportFromSource := None;
       Client.mock := Some m |} in
  let st := Client.initial Sample.heap 0%nat in
  let st' := Sample.run env st
               [Client.subscribe (Client.itemsRequest Sample.goFile) true;
                Client.toStream 0 (Client.configuration (next 1%nat))] in
  Pool.constructed (Client.pool st') = Pool.constructed (Client.pool st) /\
  Pool.entriesOf (Client.pool st') ⊆ Pool.entriesOf (Client.pool st).
Proof.
  apply (mock_bypasses_pool Sample.glob Sample.createTransport
           {| Client.hasAuthInfo := false; Client.hasLogger := true;
              Client.providerBaseUri := None;
              Client.dynamicImportFromUri := None; Client.dynamicImportFromSource := None;
              Client.mock :=
                Some (ProviderClient.createProviderClient Sample.glob
                        (Sample.createTransport (LogSt:=Client.Log) (Hook:=unit))
                        Sample.good Sample.options) |}
           (Client.initial Sample.heap 0%nat)
           [Client.subscribe (Client.itemsRequest Sample.goFile) true;
            Client.toStream 0 (Client.configuration (next 1%nat))]
           (ProviderClient.createProviderClient Sample.glob
              (Sample.createTransport (LogSt:=Client.Log) (Hook:=unit))
              Sample.good Sample.options)).
  reflexivity.
Defined.

(** There the mock was asked for the items of each of the three
    providers. *)
Example mock_is_called :
  let m := ProviderClient.createProviderClient Sample.glob
             (Sample.createTransport (LogSt:=Client.Log) (Hook:=unit)) Sample.good
             Sample.options in
  let env :=
    {| Client.hasAuthInfo := false; Client.hasLogger := true;
       Client.providerBaseUri := None;
       Client.dynamicImportFromUri := None; Client.dynamicImportFromSource := None;
       Client.mock := Some m |} in
  calls (Client.effects
           (Sample.run env (Client.initial Sample.heap 0%nat)
              [Client.subscribe (Client.itemsRequest Sample.goFile) true;
               Client.toStream 0 (Client.configuration (next 1%nat))]))
  = [(Sample.good, itemsMethod); (Sample.good, itemsMethod); (Sample.good, itemsMethod)].
Proof. vm_compute. done. Qed.


(** What that step did: the failure was logged, the two other providers
    were called, and the stream got the item of the one that answered. *)
Example credential_failure_run :
  let st' := Sample.step Sample.envWithAuth Sample.waiting
               (Client.toStream 0 (Client.authInfo 0 1 (error (ThrownError "no token")))) in
  Client.deliveredTo 0 Sample.waiting = [] /\
  Client.deliveredTo 0 st' = [next [Client.anItem Sample.anItem]] /\
  calls (Client.effects st') = [(Sample.good, itemsMethod); (Sample.broken, itemsMethod)] /\
  Client.hostLog (logs (Client.effects st'))
  = ["Error creating provider client for https://example.com/never: Error: no token";
     "providerClient(https://example.com/broken): failed to get items: Error: boom";
     "failed to get items: Error: boom"] /\
  Pool.constructed (Client.pool st') = 2%nat.
Proof. vm_compute. done. Qed.

(** The same failure when it comes before the credentials of the last
    provider: it is logged at once and nobody is asked; when the last
    credentials arrive the two other providers are asked, and the one
    whose credentials failed is not. *)
Example credential_failure_comes_first :
  let early :=
    Sample.run Sample.envWithAuth (Client.initial Sample.heap 0%nat)
      [Client.debugConfiguration (next 1%nat);
       Client.subscribe (Client.itemsRequest Sample.goFile) false;
       Client.toStream 0 (Client.configuration (next 1%nat));
       Client.toStream 0 (Client.authInfo 0 0 (next None))] in
  let failed :=
    Sample.step Sample.envWithAuth early
      (Client.toStream 0 (Client.authInfo 0 1 (error (ThrownError "no token")))) in
  let completed :=
    Sample.step Sample.envWithAuth failed
      (Client.toStream 0 (Client.authInfo 0 2 (next (Some Sample.token)))) in
  calls (Client.effects failed) = [] /\
  Client.hostLog (logs (Client.effects failed))
  = ["Error creating provider client for https://example.com/never: Error: no token"] /\
  Client.deliveredTo 0 failed = [] /\
  calls (Client.effects completed)
  = [(Sample.good, itemsMethod); (Sample.broken, itemsMethod)] /\
  Client.deliveredTo 0 completed = [next [Client.anItem Sample.anItem]].
Proof. vm_compute. done. Qed.

(** C8: a client at which [dispose] cancels nothing. The host follows a
    stream of items; the configuration arrives and the credentials of the
    first provider fail before the [debug] observable has given its first
    value, so the message of the failure waits. The host unsubscribes from
    the stream and calls [dispose], which unsubscribes every subscription
    the client keeps; no stream is subscribed to any more. When the
    configuration observable emits afterwards, the client's [debug]
    pipeline still takes the value, and the waiting message is given to
    the host's logger. *)
Theorem dispose_then_configuration_change :
  let client := Client2.createClient Sample.glob Sample.createTransport Sample.envWithAuth in
  let st :=
    Sample.run Sample.envWithAuth
      (Client2.itemsChanges client Sample.goFile (Client.initial Sample.heap 0%nat))
      [Client.toStream 0 (Client.configuration (next 1%nat));
       Client.toStream 0 (Client.authInfo 0 0 (error (ThrownError "no token")));
       Client.unsubscribe 0] in
  let disposed := Client2.dispose client st in
  let change := Client.debugConfiguration (next 1%nat) in
  let after := Sample.step Sample.envWithAuth disposed change in
  Client1.dispose (Client1.createClient Sample.glob Sample.createTransport Sample.envWithAuth)
    st = disposed /\
  Forall (fun open => open = false) (Client.subscriptions disposed) /\
  Forall (fun s => Client.subscribed s = false) (Client.streams disposed) /\
  Client.fromEnvironment change = true /\
  Client.debugValue (logs (Client.effects disposed)) = None /\
  Client.debugValue (logs (Client.effects after)) = Some true /\
  Client.hostLog (logs (Client.effects disposed)) = [] /\
  Client.hostLog (logs (Client.effects after))
  = ["Error creating provider client for https://example.com/good: Error: no token"].
Proof. vm_compute. repeat split; repeat constructor. Qed.

(** A stream that the host is still subscribed to is not cancelled
    either: a configuration that arrives after [dispose] has the providers
    called and lines logged. *)
Example streams_outlive_dispose :
  let disposed := Client2.dispose
                    (Client2.createClient Sample.glob Sample.createTransport Sample.env)
                    Sample.watching in
  let ev := Client.toStream 0 (Client.configuration (next 1%nat)) in
  let after := Sample.step Sample.env disposed ev in
  Forall (fun open => open = false) (Client.subscriptions disposed) /\
  calls (Client.effects disposed) = [] /\
  calls (Client.effects after)
  = [(Sample.good, itemsMethod); (Sample.never, itemsMethod); (Sample.broken, itemsMethod)] /\
  Client.hostLog (logs (Client.effects disposed)) = [] /\
  Client.hostLog (logs (Client.effects after))
  = ["providerClient(https://example.com/broken): failed to get items: Error: boom";
     "failed to get items: Error: boom"].
Proof.
  cbv zeta. split; [repeat constructor|]. vm_compute. done.
Qed.

(** A pull that nothing answers stays pending and subscribed; once the
    configuration has arrived it settles and is unsubscribed. *)
Example pull_pending_and_settled :
  let client := Client2.createClient Sample.glob Sample.createTransport Sample.env in
  let pending := Client2.items client Sample.goFile [] Sample.watching in
  let settled := Client2.items client Sample.goFile
                   [Client.toStream 1 (Client.configuration (next 1%nat))]
                   Sample.watching in
  pending.1 = None /\
  Client.subscribed <$> Client.streams pending.2 = [true; true] /\
  settled.1 = Some (Resolved [Client.anItem Sample.anItem; Client.anItem Sample.anItem]) /\
  Client.subscribed <$> Client.streams settled.2 = [true; false].
Proof. vm_compute. done. Qed.
